(** * CSSLint as vendored by Stylus: Reporter, rule registry, embedded
    overrides, [verify], and the worker boundary.

    Sources embedded here:
    - [vendor-overwrites/csslint/csslint.js]: class [Reporter], the [CSSLint]
      object ([addRule], [clearRules], [getRules], [getRuleset], [verify]),
      [applyEmbeddedOverrides], [CSSLint.Util.indexOf], and the rules
      [duplicate-properties], [empty-rules], [errors], [floats],
      [font-faces], [font-sizes], [import], [import-ie-limit], [important],
      [rules-count], [selector-max] and [selector-max-approaching];
    - the lint worker ([onmessage], actions [getAllRuleIds],
      [getAllRuleInfos] and [run]).

    Modelling conventions.
    - A JS string is a [string]: a sequence of code units below 256.
    - A JS object used as a dictionary is an association list when its key
      order is observable, and a [gmap] otherwise.  The list has the keys
      in the order in which they were added, which is the order in which
      [Object.keys] enumerates them unless one of them is the name of an
      array index.  Where the code reads a property
      with [in] or [[]] under a name that it does not choose itself, the
      properties that the object inherits from its prototype are modelled
      too: the allow map of the reporter, the array [rules], the array
      [stats] and the object [properties] of ['duplicate-properties'].
    - An array that only grows by [push] is a list.  The arrays [rules] and
      [stats] are also written to under names: for them the elements, the
      [length] and the named properties are told apart as JavaScript does.
    - The messages of the exceptions that the engine throws are those of
      V8; where a listener of a rule makes the engine throw, in
      ['duplicate-properties'], the message is a parameter.
    - A number is a [Z]; a number that may be [undefined] is an [option Z];
      the result of an arithmetic expression that may be [NaN] is an
      [option Z] with [None] for [NaN].
    - parserlib is an external collaborator: the parser is a parameter
      [parse] giving the events fired for a text and the exception, if any,
      that ends the parse.  A rule is its descriptive fields and the
      listeners that its [init] attaches, as a state machine over the
      events.
    - [Array.prototype.sort] is a stable insertion sort; for a comparator
      that is consistent, every stable sort gives the same list. *)

From Stdlib Require Import ZArith Ascii Bool Permutation Sorted.
From stdpp Require Import base list gmap strings sorting pretty.

Local Open Scope Z_scope.

(** ** JavaScript primitives *)

Module JS.

Definition LF : string := String (ascii_of_nat 10) EmptyString.

Definition length (s : string) : Z := Z.of_nat (String.length s).

(** [a || b] on numbers: [0] is the falsy one. *)
Definition or_else (a b : Z) : Z := if a =? 0 then b else a.

(** [s.indexOf(needle, from)], [-1] when there is no occurrence. *)
Definition indexOf (s needle : string) (from : Z) : Z :=
  match String.index (Z.to_nat (Z.max 0 from)) needle s with
  | Some k => Z.of_nat k
  | None => -1
  end.

Fixpoint lastIndexOf_go (needle s : string) (pos bound : nat) (acc : Z) : Z :=
  let acc' :=
    if String.prefix needle s && (pos <=? bound)%nat then Z.of_nat pos else acc in
  match s with
  | EmptyString => acc'
  | String _ s' => lastIndexOf_go needle s' (S pos) bound acc'
  end.

(** [s.lastIndexOf(needle, from)]: the last occurrence starting at or
    before [from] (a negative [from] counts as [0]), [-1] when none. *)
Definition lastIndexOf (s needle : string) (from : Z) : Z :=
  lastIndexOf_go needle s 0 (Z.to_nat (Z.max 0 from)) (-1).

(** [s.includes(needle)]. *)
Definition includes (s needle : string) : bool := 0 <=? indexOf s needle 0.

(** [s.slice(i)] for [i >= 0]. *)
Definition slice (s : string) (i : Z) : string :=
  let n := Z.to_nat (Z.max 0 i) in
  String.substring n (String.length s - n) s.

(** WhiteSpace and LineTerminator code units below 256; this is also the
    class [\s] of regular expressions. *)
Definition is_space (c : ascii) : bool :=
  let n := nat_of_ascii c in
  ((9 <=? n) && (n <=? 13) || (n =? 32) || (n =? 160))%nat.

Definition lower (c : ascii) : ascii :=
  let n := nat_of_ascii c in
  if ((65 <=? n) && (n <=? 90)
      || (192 <=? n) && (n <=? 222) && negb (n =? 215))%nat
  then ascii_of_nat (n + 32) else c.

Fixpoint toLowerCase (s : string) : string :=
  match s with
  | EmptyString => EmptyString
  | String c s' => String (lower c) (toLowerCase s')
  end.

Fixpoint trimStart (s : string) : string :=
  match s with
  | EmptyString => EmptyString
  | String c s' => if is_space c then trimStart s' else s
  end.

Definition trim (s : string) : string :=
  String.rev (trimStart (String.rev (trimStart s))).

Fixpoint split_all (sep : ascii) (s : string) : list string :=
  match s with
  | EmptyString => [EmptyString]
  | String c s' =>
      if Ascii.eqb c sep then EmptyString :: split_all sep s'
      else match split_all sep s' with
           | h :: t => String c h :: t
           | [] => [String c EmptyString]
           end
  end.

(** [s.split(sep)] and [s.split(sep, limit)] for a one-character [sep];
    the result is an array. *)
Definition split (s : string) (sep : ascii) (limit : option nat) : list string :=
  match limit with
  | Some n => take n (split_all sep s)
  | None => split_all sep s
  end.

(** SortCompare of ECMAScript: the comparator's result as a number, with
    [NaN] read as [+0]. *)
Definition sortCompare {A} (comparefn : A -> A -> option Z) (x y : A) : Z :=
  match comparefn x y with
  | Some v => v
  | None => 0
  end.

Fixpoint insert {A} (comparefn : A -> A -> option Z) (x : A) (l : list A) : list A :=
  match l with
  | [] => [x]
  | y :: l' =>
      if 0 <? sortCompare comparefn x y
      then y :: insert comparefn x l'
      else x :: l
  end.

(** [Array.prototype.sort(comparefn)].  ECMAScript requires the sort to be
    stable and leaves the algorithm to the engine; it is a stable insertion
    sort here: an element moves behind the elements that it compares
    strictly greater than, and stays in front of everything else that came
    after it. *)
Definition sort {A} (comparefn : A -> A -> option Z) (l : list A) : list A :=
  foldr (insert comparefn) [] l.

End JS.

(** ** Objects as insertion-ordered dictionaries *)

Abbreviation obj V := (list (string * V)) (only parsing).

Fixpoint obj_get {V} (k : string) (o : obj V) : option V :=
  match o with
  | [] => None
  | (k', v) :: o' => if String.eqb k' k then Some v else obj_get k o'
  end.

(** [o[k] = v]: an existing key keeps its place, a new key goes last. *)
Fixpoint obj_set {V} (k : string) (v : V) (o : obj V) : obj V :=
  match o with
  | [] => [(k, v)]
  | (k', v') :: o' =>
      if String.eqb k' k then (k', v) :: o' else (k', v') :: obj_set k v o'
  end.

(** [Object.keys(o)]. *)
Definition obj_keys {V} (o : obj V) : list string := map fst o.

(** [Object.assign(target, source)]. *)
Definition obj_assign {V} (target source : obj V) : obj V :=
  fold_left (fun t kv => obj_set (fst kv) (snd kv) t) source target.

(** ** Property names

    The names of the properties that every object inherits from
    [Object.prototype] and that an array inherits from [Array.prototype]
    (ECMAScript 2023 with Annex B), and the names that are array indices. *)

Definition Object_prototype_names : list string :=
  ["constructor"; "__defineGetter__"; "__defineSetter__"; "hasOwnProperty";
   "__lookupGetter__"; "__lookupSetter__"; "isPrototypeOf";
   "propertyIsEnumerable"; "toString"; "valueOf"; "__proto__";
   "toLocaleString"].

Definition Array_prototype_names : list string :=
  ["at"; "concat"; "constructor"; "copyWithin"; "entries"; "every"; "fill";
   "filter"; "find"; "findIndex"; "findLast"; "findLastIndex"; "flat";
   "flatMap"; "forEach"; "includes"; "indexOf"; "join"; "keys";
   "lastIndexOf"; "map"; "pop"; "push"; "reduce"; "reduceRight"; "reverse";
   "shift"; "slice"; "some"; "sort"; "splice"; "toLocaleString";
   "toReversed"; "toSorted"; "toSpliced"; "toString"; "unshift"; "values";
   "with"].

Definition name_in (k : string) (names : list string) : bool :=
  existsb (String.eqb k) names.

(** [k in o] for an object [o] created by [{}] that has the own keys of
    [own]. *)
Definition has_property {V} (own : gmap string V) (k : string) : bool :=
  bool_decide (is_Some (own !! k)) || name_in k Object_prototype_names.

Definition digit (c : ascii) : option N :=
  let n := N_of_ascii c in
  if ((48 <=? n) && (n <=? 57))%N then Some (n - 48)%N else None.

Fixpoint digits (s : string) (acc : N) : option N :=
  match s with
  | EmptyString => Some acc
  | String c s' =>
      match digit c with
      | Some d => digits s' (10 * acc + d)%N
      | None => None
      end
  end.

(** The array index that the property name [k] stands for: [k] is the
    decimal numeral, without a leading zero, of a number below
    [2^32 - 1]. *)
Definition array_index (k : string) : option N :=
  match k with
  | EmptyString => None
  | String c k' =>
      if Ascii.eqb c "0" && negb (String.eqb k' EmptyString) then None
      else match digits k 0 with
           | Some n => if (n <? 4294967295)%N then Some n else None
           | None => None
           end
  end.

(** [a[k] = v] on the enumerable own properties [o] of an array, for the
    name [k] of the index [n]: the indices stand in ascending order in
    front of the other names. *)
Fixpoint set_element {V} (n : N) (k : string) (v : V) (o : obj V) : obj V :=
  match o with
  | [] => [(k, v)]
  | (k', v') :: o' =>
      if String.eqb k' k then (k', v) :: o'
      else
        match array_index k' with
        | Some m =>
            if (n <? m)%N then (k, v) :: o
            else (k', v') :: set_element n k v o'
        | None => (k, v) :: o
        end
  end.

(** ** The regular expression RX_EMBEDDED

    [/\/\*\s*csslint\s+((?:[^*]|\*(?!\/))+?)\*\//igu] *)

Module RX.

Record rx_match := {
  index : Z;        (* m.index *)
  group1 : string;  (* m[1] *)
  endIndex : Z;     (* lastIndex after the match *)
}.

Fixpoint span_space (s : string) : nat * string :=
  match s with
  | EmptyString => (O, s)
  | String c s' =>
      if JS.is_space c
      then let '(n, r) := span_space s' in (S n, r)
      else (O, s)
  end.

(** Strip the literal [p], compared without regard to case. *)
Fixpoint strip_ci (p s : string) : option string :=
  match p, s with
  | EmptyString, _ => Some s
  | String a p', String b s' =>
      if Ascii.eqb (JS.lower a) (JS.lower b) then strip_ci p' s' else None
  | String _ _, EmptyString => None
  end.

(** A match of the whole expression that starts at the head of [s]:
    capture group 1 and the length of the match.
    - [\/\*] then [\s*] then [csslint]: the spaces are taken greedily and
      nothing they give back can start the literal;
    - [\s+] takes the run of [w >= 1] spaces;
    - the lazy group takes one or more characters none of which starts a
      [*/], and stops at the first [*/]; when the [*/] follows the spaces
      at once, [\s+] gives back its last space to the group, which needs
      [w >= 2]. *)
Definition match_here (s : string) : option (string * nat) :=
  if String.prefix "/*" s then
    let '(k, s2) := span_space (String.substring 2 (String.length s - 2) s) in
    match strip_ci "csslint" s2 with
    | None => None
    | Some s3 =>
        let '(w, s4) := span_space s3 in
        match w, String.index 0 "*/" s4 with
        | O, _ => None
        | _, None => None
        | S w', Some O =>
            match w' with
            | O => None
            | S _ => Some (String.substring w' 1 s3, (2 + k + 7 + w + 2)%nat)
            end
        | _, Some (S q) =>
            Some (String.substring 0 (S q) s4, (2 + k + 7 + w + S q + 2)%nat)
        end
    end
  else None.

Fixpoint scan (s : string) (pos skip : nat) : list rx_match :=
  match s with
  | EmptyString => []
  | String _ s' =>
      match skip with
      | S k => scan s' (S pos) k
      | O =>
          match match_here s with
          | Some (g, len) =>
              {| index := Z.of_nat pos; group1 := g;
                 endIndex := Z.of_nat (pos + len) |}
                :: scan s' (S pos) (len - 1)
          | None => scan s' (S pos) 0
          end
      end
  end.

(** The successive non-null results of [RX_EMBEDDED.exec(text)] for a
    cursor that starts at [lastIndex]: each search starts where the
    previous match ended. *)
Definition matches (text : string) (lastIndex : Z) : list rx_match :=
  scan text 0 (Z.to_nat lastIndex).

End RX.

(** ** Exceptions, rules and messages *)

Record exn := {
  ex_name : string;
  ex_message : string;
  ex_line : option Z;
  ex_col : option Z;
}.

Definition TypeError (msg : string) : exn :=
  {| ex_name := "TypeError"; ex_message := msg; ex_line := None; ex_col := None |}.

Definition RangeError (msg : string) : exn :=
  {| ex_name := "RangeError"; ex_message := msg; ex_line := None; ex_col := None |}.

(** What a listener of a rule asks of the reporter.  Every rule of
    csslint.js passes the position of a parser object as [line], [col], and
    itself as [rule]; the rule is supplied when the call is carried out. *)
Inductive call :=
| CallError (message : string) (line col : Z)
| CallReport (message : string) (line col : Z)
| CallInfo (message : string) (line col : Z)
| CallRollupError (message : string)
| CallRollupWarn (message : string)
| CallStat (name : string) (value : Z).

(** The listeners that [init(parser, reporter)] attaches, with the locals
    that [init] declares as their state: [lstart] is the state right after
    [init], [lfire] is the reaction to one event (new state, reporter calls
    made, and the exception thrown, if any). *)
Record Listener (event : Type) := {
  lstate : Type;
  lstart : lstate;
  lfire : event -> lstate -> lstate * list call * option exn;
}.
Arguments lstate {event} _.
Arguments lstart {event} _.
Arguments lfire {event} _ _ _.

Module Rule.
Record t (event : Type) := {
  id : string;
  name : string;
  desc : string;
  url : option string;
  browsers : option string;
  tags : list string;
  init : Listener event;
}.
Arguments id {event} _.
Arguments name {event} _.
Arguments desc {event} _.
Arguments url {event} _.
Arguments browsers {event} _.
Arguments tags {event} _.
Arguments init {event} _.
End Rule.

(** The [rule] field of a message: a registered rule object, or a plain
    object that has at most an [id] ([{}] is [PlainObj None]). *)
Inductive rule_ref (event : Type) :=
| RuleObj (r : Rule.t event)
| PlainObj (id : option string).
Arguments RuleObj {event} r.
Arguments PlainObj {event} id.

(** [rule.id] *)
Definition rule_id {event} (r : rule_ref event) : option string :=
  match r with
  | RuleObj r => Some (Rule.id r)
  | PlainObj i => i
  end.

(** A value used as a property key: [undefined] becomes ["undefined"]. *)
Definition prop_key (k : option string) : string := default "undefined" k.

Module Message.
Record t (event : Type) := {
  type : string;
  evidence : option string;
  line : option Z;
  col : option Z;
  message : string;
  rule : rule_ref event;
  rollup : bool;
}.
Arguments type {event} _.
Arguments evidence {event} _.
Arguments line {event} _.
Arguments col {event} _.
Arguments message {event} _.
Arguments rule {event} _.
Arguments rollup {event} _.
End Message.

(** ** The store

    Rulesets are objects that the caller of [verify] and [verify] itself
    both hold, so they live in a heap and are passed by location. *)

Abbreviation loc := nat (only parsing).
Abbreviation heap := (list (obj Z)) (only parsing).

Definition deref (h : heap) (l : loc) : obj Z := default [] (h !! l).

(** ** Reporter *)

Module Reporter.

(** [this.stats] is an array: [stats] holds its enumerable own properties
    and [stats_length] its [length]. *)
Record t (event : Type) := {
  messages : list (Message.t event);
  stats : obj Z;
  stats_length : Z;
  lines : list string;
  ruleset : loc;
  allow : gmap Z (gmap string bool);
  ignore : list (Z * Z);
}.
Arguments messages {event} _.
Arguments stats {event} _.
Arguments stats_length {event} _.
Arguments lines {event} _.
Arguments ruleset {event} _.
Arguments allow {event} _.
Arguments ignore {event} _.

Section methods.
Context {event : Type}.

(** [constructor(lines, ruleset, allow, ignore)] *)
Definition new (lines : list string) (ruleset : loc)
    (allow : gmap Z (gmap string bool)) (ignore : list (Z * Z)) : t event :=
  {| messages := []; stats := []; stats_length := 0; lines := lines;
     ruleset := ruleset; allow := allow; ignore := ignore |}.

Definition push (this : t event) (m : Message.t event) : t event :=
  {| messages := messages this ++ [m]; stats := stats this;
     stats_length := stats_length this;
     lines := lines this; ruleset := ruleset this;
     allow := allow this; ignore := ignore this |}.

(** [this.lines[line - 1]] *)
Definition evidence_at (this : t event) (line : option Z) : option string :=
  match line with
  | Some n => if 1 <=? n then lines this !! Z.to_nat (n - 1) else None
  | None => None
  end.

Definition error (this : t event) (message : string) (line col : option Z)
    (rule : rule_ref event) : t event :=
  push this
    {| Message.type := "error"; Message.evidence := evidence_at this line;
       Message.line := line; Message.col := col;
       Message.message := message; Message.rule := rule;
       Message.rollup := false |}.

(** [line in this.allow && rule.id in this.allow[line]]: the keys of
    [this.allow] are numbers, which no object inherits; [this.allow[line]]
    is an object made by [{}], in which [in] finds the inherited names
    too. *)
Definition allowed (this : t event) (line : option Z) (rule : rule_ref event) : bool :=
  match line with
  | Some n =>
      match allow this !! n with
      | Some ids => has_property ids (prop_key (rule_id rule))
      | None => false
      end
  | None => false
  end.

(** [this.ignore.some(range => range[0] <= line && line <= range[1])] *)
Definition ignored (this : t event) (line : option Z) : bool :=
  match line with
  | Some n => existsb (fun range => (fst range <=? n) && (n <=? snd range)) (ignore this)
  | None => false
  end.

Definition report (h : heap) (this : t event) (message : string)
    (line col : option Z) (rule : rule_ref event) : t event :=
  if allowed this line rule || ignored this line then this
  else
    push this
      {| Message.type :=
           match obj_get (prop_key (rule_id rule)) (deref h (ruleset this)) with
           | Some 2 => "error"
           | _ => "warning"
           end;
         Message.evidence := evidence_at this line;
         Message.line := line; Message.col := col;
         Message.message := message; Message.rule := rule;
         Message.rollup := false |}.

Definition info (this : t event) (message : string) (line col : option Z)
    (rule : rule_ref event) : t event :=
  push this
    {| Message.type := "info"; Message.evidence := evidence_at this line;
       Message.line := line; Message.col := col;
       Message.message := message; Message.rule := rule;
       Message.rollup := false |}.

Definition rollupError (this : t event) (message : string)
    (rule : rule_ref event) : t event :=
  push this
    {| Message.type := "error"; Message.evidence := None;
       Message.line := None; Message.col := None;
       Message.message := message; Message.rule := rule;
       Message.rollup := true |}.

Definition rollupWarn (this : t event) (message : string)
    (rule : rule_ref event) : t event :=
  push this
    {| Message.type := "warning"; Message.evidence := None;
       Message.line := None; Message.col := None;
       Message.message := message; Message.rule := rule;
       Message.rollup := true |}.

Definition with_stats (this : t event) (stats : obj Z) (stats_length : Z)
    : t event :=
  {| messages := messages this; stats := stats; stats_length := stats_length;
     lines := lines this; ruleset := ruleset this;
     allow := allow this; ignore := ignore this |}.

(** [this.stats[name] = value] on the array [this.stats]:
    - the name ['length'] sets the length, which removes the elements from
      there on, and throws when the value is no array length;
    - the name of an index sets that element and moves the length behind
      it;
    - the setter of ['__proto__'] ignores a number;
    - any other name is a property of its own. *)
Definition stat (this : t event) (name : string) (value : Z) : exn + t event :=
  if String.eqb name "length" then
    if (0 <=? value) && (value <? 4294967296) then
      inr (with_stats this
             (List.filter
                (fun kv => match array_index (fst kv) with
                           | Some n => Z.of_N n <? value
                           | None => true
                           end)
                (stats this))
             value)
    else inl (RangeError "Invalid array length")
  else
    match array_index name with
    | Some n =>
        inr (with_stats this (set_element n name value (stats this))
               (Z.max (stats_length this) (Z.of_N n + 1)))
    | None =>
        if String.eqb name "__proto__" then inr this
        else inr (with_stats this (obj_set name value (stats this))
                    (stats_length this))
    end.

(** One reporter call made by a listener of the rule [this_rule]. *)
Definition perform (h : heap) (this_rule : Rule.t event) (this : t event)
    (c : call) : exn + t event :=
  match c with
  | CallError m l c => inr (error this m (Some l) (Some c) (RuleObj this_rule))
  | CallReport m l c => inr (report h this m (Some l) (Some c) (RuleObj this_rule))
  | CallInfo m l c => inr (info this m (Some l) (Some c) (RuleObj this_rule))
  | CallRollupError m => inr (rollupError this m (RuleObj this_rule))
  | CallRollupWarn m => inr (rollupWarn this m (RuleObj this_rule))
  | CallStat n v => stat this n v
  end.
End methods.
End Reporter.

Module Report.
Record t (event : Type) := {
  messages : list (Message.t event);
  stats : obj Z;
  stats_length : Z;
  ruleset : loc;
  allow : gmap Z (gmap string bool);
  ignore : list (Z * Z);
}.
Arguments messages {event} _.
Arguments stats {event} _.
Arguments stats_length {event} _.
Arguments ruleset {event} _.
Arguments allow {event} _.
Arguments ignore {event} _.
End Report.

(** ** Global state and the monad of the engine

    [RX_EMBEDDED] and [rules] are module-level variables of csslint.js, alive
    across calls; with the heap of ruleset objects they form the state that
    every operation threads.  An operation returns a value or throws. *)

(** The array [rules] is both the list of the rules and, under their ids,
    the table of the rules: [rules] holds its elements, [rulesById] its own
    properties under names that are no array indices.  The record holds the
    states of the array in which the elements have no hole, the prototype
    is [Array.prototype] and no property [slice] hides the method that
    [getRules] calls; [addRule] tells when a write would leave them. *)
Record World (event : Type) := {
  lastIndex : Z;                              (* RX_EMBEDDED.lastIndex *)
  rules : list (Rule.t event);                (* the elements of [rules] *)
  rulesById : gmap string (Rule.t event);     (* the named properties *)
  objects : heap;
}.
Arguments lastIndex {event} _.
Arguments rules {event} _.
Arguments rulesById {event} _.
Arguments objects {event} _.

Definition M (event A : Type) : Type := World event -> (exn + A) * World event.

Definition ret {event A} (a : A) : M event A := fun w => (inr a, w).

Definition throw {event A} (e : exn) : M event A := fun w => (inl e, w).

(** A step that does not touch the state. *)
Definition lift {event A} (r : exn + A) : M event A := fun w => (r, w).

Definition bind {event A B} (c : M event A) (k : A -> M event B) : M event B :=
  fun w =>
    match c w with
    | (inl e, w') => (inl e, w')
    | (inr a, w') => k a w'
    end.

Notation "x <- c ;; k" := (bind c (fun x => k))
  (at level 100, c at next level, right associativity).
Notation "c ;;; k" := (bind c (fun _ => k))
  (at level 100, right associativity).

Definition get_world {event} : M event (World event) := fun w => (inr w, w).

Definition set_lastIndex {event} (i : Z) : M event unit :=
  fun w =>
    (inr tt, {| lastIndex := i; rules := rules w; rulesById := rulesById w;
                objects := objects w |}).

Definition set_objects {event} (h : heap) : M event unit :=
  fun w =>
    (inr tt, {| lastIndex := lastIndex w; rules := rules w;
                rulesById := rulesById w; objects := h |}).

(** A new object: its location is the next free one. *)
Definition alloc {event} (o : obj Z) : M event loc :=
  w <- get_world ;;
  set_objects (objects w ++ [o]) ;;;
  ret (List.length (objects w)).

Definition read {event} (l : loc) : M event (obj Z) :=
  w <- get_world ;; ret (deref (objects w) l).

(** [o[k] = v] on the object at [l]. *)
Definition write_prop {event} (l : loc) (k : string) (v : Z) : M event unit :=
  w <- get_world ;;
  set_objects (<[l := obj_set k v (deref (objects w) l)]> (objects w)).

(** [for (const x of xs) body], threading the locals [s]. *)
Fixpoint for_each {event A S} (xs : list A) (body : A -> S -> M event S) (s : S)
    : M event S :=
  match xs with
  | [] => ret s
  | x :: xs' => s' <- body x s ;; for_each xs' body s'
  end.

(** ** CSSLint *)

Module CSSLint.

Definition EBMEDDED_RULE_VALUE_MAP : obj Z :=
  [ ("true", 2); ("2", 2);     (* error *)
    (EmptyString, 1); ("1", 1);       (* warning *)
    ("false", 0); ("0", 0) ].  (* ignore *)

(** The locals of [applyEmbeddedOverrides], with the [allow] and [ignore]
    objects that [verify] created for it to fill. *)
Record locals := {
  ignoreStart : option Z;
  ignoreEnd : option Z;
  lineno : Z;
  eol : Z;
  allow : gmap Z (gmap string bool);
  ignore : list (Z * Z);
}.

(** [cmd.trim()] where [cmd] is the array that [split] returned: an array
    has no method [trim], so the call throws. *)
Definition array_trim {event} (cmd : list string) : M event string :=
  throw (TypeError "cmd.trim is not a function").

Section engine.
Context {event : Type}.

(** The world [w] with the array [rules] of the elements [rs] and the named
    properties [named]. *)
Definition with_rules (w : World event) (rs : list (Rule.t event))
    (named : gmap string (Rule.t event)) : World event :=
  {| lastIndex := lastIndex w; rules := rs; rulesById := named;
     objects := objects w |}.

(** [rules.push(rule); rules[rule.id] = rule]: the two statements write to
    the one array.  [rules.push] is the method of [Array.prototype] unless
    a rule of the id ['push'] hides it, which is no function.  The second
    statement
    - throws for the id ['length'], a rule being no array length;
    - sets an element for the id of an index: the place of an earlier rule
      or of the rule just pushed, or the place behind it;
    - adds or replaces a named property for any other id.
    There is no result for a write that leaves the states of [World]: an
    element behind a hole, the prototype replaced by the id ['__proto__'],
    the method [slice] hidden by the id ['slice']. *)
Definition addRule (rule : Rule.t event) (w : World event)
    : option ((exn + unit) * World event) :=
  match rulesById w !! "push" with
  | Some _ => Some (inl (TypeError "rules.push is not a function"), w)
  | None =>
      let pushed := rules w ++ [rule] in
      let id := Rule.id rule in
      if String.eqb id "length" then
        Some (inl (RangeError "Invalid array length"),
              with_rules w pushed (rulesById w))
      else if String.eqb id "__proto__" || String.eqb id "slice" then None
      else
        match array_index id with
        | Some n =>
            if (N.to_nat n <? List.length pushed)%nat then
              Some (inr tt,
                    with_rules w (<[N.to_nat n := rule]> pushed) (rulesById w))
            else if (N.to_nat n =? List.length pushed)%nat then
              Some (inr tt, with_rules w (pushed ++ [rule]) (rulesById w))
            else None
        | None =>
            Some (inr tt, with_rules w pushed (<[id := rule]> (rulesById w)))
        end
  end.

(** [rules.length = 0]: the elements go, the named properties stay. *)
Definition clearRules : M event unit :=
  fun w => (inr tt, with_rules w [] (rulesById w)).

(** [a.id < b.id ? -1 : a.id > b.id ? 1 : 0] *)
Definition by_id (a b : Rule.t event) : option Z :=
  if String.ltb (Rule.id a) (Rule.id b) then Some (-1)
  else if String.ltb (Rule.id b) (Rule.id a) then Some 1
  else Some 0.

Definition getRules : M event (list (Rule.t event)) :=
  w <- get_world ;; ret (JS.sort by_id (rules w)).

Definition getRuleset : M event loc :=
  w <- get_world ;;
  alloc (fold_left (fun ruleset rule => obj_set (Rule.id rule) 1 ruleset)
                   (rules w) []).

(** The body of the [for] loop for the match [m]; the [lineno++] of the
    loop header is carried out by [overrides_iteration]. *)
Definition overrides_body (text : string) (ruleset : loc)
    (m : RX.rx_match) (s : locals) : M event locals :=
  let eol' :=
    JS.or_else (JS.indexOf text JS.LF (eol s) + 1) (JS.length text + 1) - 1 in
  let s := {| ignoreStart := ignoreStart s; ignoreEnd := ignoreEnd s;
              lineno := lineno s; eol := eol';
              allow := allow s; ignore := ignore s |} in
  if eol' <? RX.index m then ret s   (* continue *)
  else
    let ovr := JS.toLowerCase (RX.group1 m) in
    let cmd := JS.split ovr ":" (Some 1%nat) in
    let i := Z.of_nat (List.length cmd) + 1 in
    sel <- array_trim cmd ;;
    if String.eqb sel "allow" then
      let parts := JS.split (JS.slice ovr i) "," None in
      let allowRuleset :=
        fold_left (fun a allowRule => <[JS.trim allowRule := true]> a)
                  parts (∅ : gmap string bool) in
      let num := List.length parts in
      ret {| ignoreStart := ignoreStart s; ignoreEnd := ignoreEnd s;
             lineno := lineno s; eol := eol s;
             allow := match num with
                      | O => allow s
                      | S _ => <[lineno s + 1 := allowRuleset]> (allow s)
                      end;
             ignore := ignore s |}
    else if String.eqb sel "ignore" then
      if 0 <? JS.lastIndexOf ovr "start" i then
        ret {| ignoreStart := match ignoreStart s with
                              | None => Some (lineno s)
                              | Some st => Some st
                              end;
               ignoreEnd := ignoreEnd s;
               lineno := lineno s; eol := eol s;
               allow := allow s; ignore := ignore s |}
      else if 0 <? JS.lastIndexOf ovr "end" i then
        match ignoreStart s with
        | Some st =>
            ret {| ignoreStart := None; ignoreEnd := None;
                   lineno := lineno s; eol := eol s;
                   allow := allow s;
                   ignore := ignore s ++ [(st, lineno s)] |}
        | None =>
            ret {| ignoreStart := None; ignoreEnd := Some (lineno s);
                   lineno := lineno s; eol := eol s;
                   allow := allow s; ignore := ignore s |}
        end
      else ret s
    else
      for_each (JS.split (JS.slice ovr i) "," None)
        (fun rule (_ : unit) =>
           let pair := JS.split rule ":" None in
           let property := default EmptyString (pair !! 0%nat) in
           let value := default EmptyString (pair !! 1%nat) in
           let mapped := obj_get (JS.trim value) EBMEDDED_RULE_VALUE_MAP in
           write_prop ruleset (JS.trim property) (default 1 mapped))
        tt ;;;
      ret s.

(** One turn of the loop: [exec] has returned [m] and moved the cursor
    behind it; then the body, then [lineno++]. *)
Definition overrides_iteration (text : string) (ruleset : loc)
    (m : RX.rx_match) (s : locals) : M event locals :=
  set_lastIndex (RX.endIndex m) ;;;
  s' <- overrides_body text ruleset m s ;;
  ret {| ignoreStart := ignoreStart s'; ignoreEnd := ignoreEnd s';
         lineno := lineno s' + 1; eol := eol s';
         allow := allow s'; ignore := ignore s' |}.

Definition applyEmbeddedOverrides (text : string) (ruleset : loc)
    (allow0 : gmap Z (gmap string bool)) (ignore0 : list (Z * Z))
    : M event (gmap Z (gmap string bool) * list (Z * Z)) :=
  w <- get_world ;;
  s <- for_each (RX.matches text (lastIndex w))
         (overrides_iteration text ruleset)
         {| ignoreStart := None; ignoreEnd := None; lineno := 0; eol := 0;
            allow := allow0; ignore := ignore0 |} ;;
  (* the [exec] that returned null has reset the cursor *)
  set_lastIndex 0 ;;;
  (* Close remaining ignore block, if any *)
  ret (allow s,
       match ignoreStart s with
       | Some st => ignore s ++ [(st, lineno s)]
       | None => ignore s
       end).

(** A rule that [verify] has initialised, with the state of its
    listeners. *)
Definition active : Type := { r : Rule.t event & lstate (Rule.init r) }.

(** The reporter calls of one listener of the rule [r], in order, until
    one throws; the listener ends with that exception. *)
Fixpoint perform_calls (h : heap) (r : Rule.t event) (calls : list call)
    (reporter : Reporter.t event) : Reporter.t event * option exn :=
  match calls with
  | [] => (reporter, None)
  | c :: calls' =>
      match Reporter.perform h r reporter c with
      | inl x => (reporter, Some x)
      | inr reporter' => perform_calls h r calls' reporter'
      end
  end.

(** [parser.fire(e)]: the listeners run in the order they were added,
    until one throws. *)
Fixpoint fire (h : heap) (e : event) (acts : list active)
    (reporter : Reporter.t event)
    : list active * Reporter.t event * option exn :=
  match acts with
  | [] => ([], reporter, None)
  | existT r st :: rest =>
      let '(st', calls, ex) := lfire (Rule.init r) e st in
      let '(reporter', thrown) := perform_calls h r calls reporter in
      match (if thrown is Some x then Some x else ex) with
      | Some x => (existT r st' :: rest, reporter', Some x)
      | None =>
          let '(rest', reporter'', ex') := fire h e rest reporter' in
          (existT r st' :: rest', reporter'', ex')
      end
  end.

Fixpoint fire_all (h : heap) (evs : list event) (acts : list active)
    (reporter : Reporter.t event) : Reporter.t event * option exn :=
  match evs with
  | [] => (reporter, None)
  | e :: evs' =>
      let '(acts', reporter', ex) := fire h e acts reporter in
      match ex with
      | Some x => (reporter', Some x)
      | None => fire_all h evs' acts' reporter'
      end
  end.

(** [a.rollup && !b.rollup ? 1 : !a.rollup && b.rollup ? -1 :
    a.line - b.line]; the difference is [NaN] when a line is
    [undefined]. *)
Definition by_line (a b : Message.t event) : option Z :=
  if Message.rollup a && negb (Message.rollup b) then Some 1
  else if negb (Message.rollup a) && Message.rollup b then Some (-1)
  else match Message.line a, Message.line b with
       | Some x, Some y => Some (x - y)
       | _, _ => None
       end.

(** The cursor that [verify] gives [RX_EMBEDDED] before the scan:
    [text.lastIndexOf('/*', text.indexOf('csslint',
       text.indexOf('/*') + 1 || text.length) + 1)]. *)
Definition embedded_cursor (text : string) : Z :=
  JS.lastIndexOf text "/*"
    (JS.indexOf text "csslint"
       (JS.or_else (JS.indexOf text "/*" 0 + 1) (JS.length text)) + 1).

(** [verify] from its first statement to [ruleset.errors = 2]: the
    reporter of the run. *)
Definition setup (text : string) (ruleset : option loc)
    : M event (Reporter.t event) :=
  ruleset <- match ruleset with
             | Some l => ret l
             | None => getRuleset
             end ;;
  set_lastIndex (embedded_cursor text) ;;;
  w <- get_world ;;
  env <- (if 0 <=? lastIndex w then
            o <- read ruleset ;;
            ruleset' <- alloc (obj_assign [] o) ;;
            ai <- applyEmbeddedOverrides text ruleset' ∅ [] ;;
            ret (ruleset', ai)
          else ret (ruleset, (∅, []))) ;;
  let ruleset := fst env in
  let reporter := Reporter.new [] ruleset (fst (snd env)) (snd (snd env)) in
  (* always report parsing errors as errors *)
  write_prop ruleset "errors" 2 ;;;
  ret reporter.

(** What [rules[id]] finds: a rule, another value that is truthy, or a
    falsy value. *)
Inductive found :=
| ARule (r : Rule.t event)
| Truthy
| Falsy.

(** [rules[id]] on the array [rules]: an element under the name of an
    index, [undefined] behind the last one; the length under ['length'],
    falsy when there is no element; the prototype under ['__proto__']; a
    named property of the array; else what the array inherits from
    [Array.prototype] and [Object.prototype], functions all of them; else
    [undefined]. *)
Definition array_get (rs : list (Rule.t event))
    (named : gmap string (Rule.t event)) (id : string) : found :=
  match array_index id with
  | Some n =>
      match rs !! N.to_nat n with
      | Some r => ARule r
      | None => Falsy
      end
  | None =>
      if String.eqb id "length" then
        match rs with [] => Falsy | _ :: _ => Truthy end
      else if String.eqb id "__proto__" then Truthy
      else
        match named !! id with
        | Some r => ARule r
        | None =>
            if name_in id Array_prototype_names
               || name_in id Object_prototype_names
            then Truthy else Falsy
        end
  end.

(** [ids.forEach(id => ruleset[id] && rules[id] &&
    rules[id].init(parser, reporter))]: the rules initialised, in order.
    A value that is no rule has no method [init], and the call throws. *)
Fixpoint init_keys (rs : list (Rule.t event))
    (named : gmap string (Rule.t event)) (o : obj Z) (ids : list string)
    : exn + list active :=
  match ids with
  | [] => inr []
  | id :: ids' =>
      match obj_get id o with
      | Some 0 | None => init_keys rs named o ids'
      | Some _ =>
          match array_get rs named id with
          | Falsy => init_keys rs named o ids'
          | Truthy => inl (TypeError "rules[id].init is not a function")
          | ARule r =>
              match init_keys rs named o ids' with
              | inl x => inl x
              | inr acts => inr (existT r (lstart (Rule.init r)) :: acts)
              end
          end
      end
  end.

(** [Object.keys(ruleset).forEach(id => ruleset[id] && rules[id] &&
    rules[id].init(parser, reporter))] *)
Definition init_rules (rs : list (Rule.t event))
    (named : gmap string (Rule.t event)) (o : obj Z) : exn + list active :=
  init_keys rs named o (obj_keys o).

(** [parse text] is what [parser.parse(text)] does on the parser that
    [verify] builds: the events it fires and the exception it ends with,
    if any. *)
Variable parse : string -> list event * option exn.

(** The [try] statement of [verify]. *)
Definition parse_and_catch (h : heap) (text : string) (acts : list active)
    (reporter : Reporter.t event) : Reporter.t event :=
  let '(evs, ex) := parse text in
  let '(reporter, ex') := fire_all h evs acts reporter in
  match (if ex' is Some x then Some x else ex) with
  | Some x =>
      Reporter.error reporter
        ("Fatal error, cannot continue: " +:+ ex_message x)
        (ex_line x) (ex_col x) (PlainObj None)
  | None => reporter
  end.

(** The reporter as it stands when the [try] statement of [verify] is
    left, before the messages are sorted.  The rules are initialised in
    front of the [try] statement: an exception there leaves [verify]. *)
Definition collect (text : string) (ruleset : option loc)
    : M event (Reporter.t event) :=
  reporter <- setup text ruleset ;;
  w <- get_world ;;
  acts <- lift (init_rules (rules w) (rulesById w)
                  (deref (objects w) (Reporter.ruleset reporter))) ;;
  ret (parse_and_catch (objects w) text acts reporter).

Definition verify (text : string) (ruleset : option loc)
    : M event (Report.t event) :=
  reporter <- collect text ruleset ;;
  ret {| Report.messages := JS.sort by_line (Reporter.messages reporter);
         Report.stats := Reporter.stats reporter;
         Report.stats_length := Reporter.stats_length reporter;
         Report.ruleset := Reporter.ruleset reporter;
         Report.allow := Reporter.allow reporter;
         Report.ignore := Reporter.ignore reporter |}.

End engine.
End CSSLint.

(** ** The lint worker *)

Module Worker.

(** What crosses the worker boundary of a rule: its data fields. *)
Record RuleInfo := {
  info_id : string;
  info_name : string;
  info_desc : string;
  info_url : option string;
  info_browsers : option string;
  info_tags : list string;
}.

Section worker.
Context {event : Type} (parse : string -> list event * option exn).

(** [case 'getAllRuleIds'] *)
Definition getAllRuleIds : M event (list string) :=
  rs <- CSSLint.getRules ;; ret (map Rule.id rs).

(** [JSON.parse(JSON.stringify(rule))]: the fields of the rule without the
    function [init]. *)
Definition to_info (rule : Rule.t event) : RuleInfo :=
  {| info_id := Rule.id rule; info_name := Rule.name rule;
     info_desc := Rule.desc rule; info_url := Rule.url rule;
     info_browsers := Rule.browsers rule; info_tags := Rule.tags rule |}.

(** [case 'getAllRuleInfos'] *)
Definition getAllRuleInfos : M event (list RuleInfo) :=
  rs <- CSSLint.getRules ;; ret (map to_info rs).

(** [Object.assign(m, {rule: {id: m.rule.id}})] *)
Definition id_only (m : Message.t event) : Message.t event :=
  {| Message.type := Message.type m; Message.evidence := Message.evidence m;
     Message.line := Message.line m; Message.col := Message.col m;
     Message.message := Message.message m;
     Message.rule := PlainObj (rule_id (Message.rule m));
     Message.rollup := Message.rollup m |}.

(** [case 'run']: what is handed to [postMessage].  [config] arrives by
    structured clone, so it is an object of its own in the worker. *)
Definition run (code : string) (config : option (obj Z))
    : M event (list (Message.t event)) :=
  ruleset <- match config with
             | Some o => l <- alloc o ;; ret (Some l)
             | None => ret None
             end ;;
  report <- CSSLint.verify parse code ruleset ;;
  ret (map id_only
         (List.filter
            (fun m => negb (JS.includes (Message.message m) "/*[[")
                      && negb (JS.includes (Message.message m) "]]*/"))
            (Report.messages report))).
End worker.
End Worker.

(** The [CSSLint.addRule({...})] statements of a script, in order, up to
    the first that throws. *)
Fixpoint addRules {event} (rs : list (Rule.t event)) (w : World event)
    : option ((exn + unit) * World event) :=
  match rs with
  | [] => Some (inr tt, w)
  | rule :: rs' =>
      match CSSLint.addRule rule w with
      | Some (inr _, w') => addRules rs' w'
      | other => other
      end
  end.

(** ** Four rules of csslint.js and sample parser runs

    The events carry what the rules ['empty-rules'], ['errors'], ['import']
    and ['important'] read: [startrule] and [endrule] with the position of
    the first selector, a [property] event with its [important] flag and
    position, an [import] event, an [error] event with its message, and
    [endstylesheet]. *)

Module Sample.

Inductive event :=
| StartRule (line col : Z)
| Property (important : bool) (line col : Z)
| EndRule (line col : Z)
| Import (line col : Z)
| Error (message : string) (line col : Z)
| EndStyleSheet.

(** [CSSLint.addRule({id: 'empty-rules', ...})]; the state of its listeners
    is the local [count] of [init]. *)
Definition empty_rules : Rule.t event :=
  {| Rule.id := "empty-rules";
     Rule.name := "Disallow empty rules";
     Rule.desc := "Rules without any properties specified should be removed.";
     Rule.url := Some "https://github.com/CSSLint/csslint/wiki/Disallow-empty-rules";
     Rule.browsers := Some "All";
     Rule.tags := [];
     Rule.init :=
       {| lstate := Z;
          lstart := 0;
          lfire := fun e count =>
            match e with
            | StartRule _ _ => (0, [], None)
            | Property _ _ _ => (count + 1, [], None)
            | EndRule line col =>
                (count,
                 if count =? 0 then [CallReport "Rule is empty." line col] else [],
                 None)
            | _ => (count, [], None)
            end |} |}.

(** [CSSLint.addRule({id: 'errors', ...})] *)
Definition errors : Rule.t event :=
  {| Rule.id := "errors";
     Rule.name := "Parsing Errors";
     Rule.desc := "This rule looks for recoverable syntax errors.";
     Rule.url := None;
     Rule.browsers := Some "All";
     Rule.tags := [];
     Rule.init :=
       {| lstate := unit;
          lstart := tt;
          lfire := fun e st =>
            match e with
            | Error message line col => (st, [CallError message line col], None)
            | _ => (st, [], None)
            end |} |}.

(** [CSSLint.addRule({id: 'import', ...})] *)
Definition import : Rule.t event :=
  {| Rule.id := "import";
     Rule.name := "Disallow @import";
     Rule.desc := "Don't use @import, use <link> instead.";
     Rule.url := Some "https://github.com/CSSLint/csslint/wiki/Disallow-%40import";
     Rule.browsers := Some "All";
     Rule.tags := [];
     Rule.init :=
       {| lstate := unit;
          lstart := tt;
          lfire := fun e st =>
            match e with
            | Import line col =>
                (st,
                 [CallReport "@import prevents parallel downloads, use <link> instead."
                             line col],
                 None)
            | _ => (st, [], None)
            end |} |}.

(** [CSSLint.addRule({id: 'important', ...})]; the state of its listeners
    is the local [count] of [init]. *)
Definition important : Rule.t event :=
  {| Rule.id := "important";
     Rule.name := "Disallow !important";
     Rule.desc := "Be careful when using !important declaration";
     Rule.url := Some "https://github.com/CSSLint/csslint/wiki/Disallow-%21important";
     Rule.browsers := Some "All";
     Rule.tags := [];
     Rule.init :=
       {| lstate := Z;
          lstart := 0;
          lfire := fun e count =>
            match e with
            | Property imp line col =>
                if imp
                then (count + 1, [CallReport "Use of !important" line col], None)
                else (count, [], None)
            | EndStyleSheet =>
                (count,
                 CallStat "important" count ::
                 (if 10 <=? count
                  then [CallRollupWarn
                          ("Too many !important declarations (" +:+ pretty count
                           +:+ "), try to use less than 10 to avoid specificity issues.")]
                  else []),
                 None)
            | _ => (count, [], None)
            end |} |}.

(** A rule of a user script: the id [id] and no listener. *)
Definition custom (id : string) : Rule.t event :=
  {| Rule.id := id;
     Rule.name := id;
     Rule.desc := EmptyString;
     Rule.url := None;
     Rule.browsers := None;
     Rule.tags := [];
     Rule.init :=
       {| lstate := unit;
          lstart := tt;
          lfire := fun _ st => (st, [], None) |} |}.

(** A parser run that fires [evs] and ends with [ex]. *)
Definition fires (evs : list event) (ex : option exn)
    : string -> list event * option exn :=
  fun _ => (evs, ex).

(** Nothing registered yet, and an empty heap. *)
Definition blank : World event :=
  {| lastIndex := 0; rules := []; rulesById := ∅; objects := [] |}.

(** The four rules registered, in the order of csslint.js, and the object
    [o] at location [0] of the heap. *)
Definition world (o : obj Z) : World event :=
  {| lastIndex := 0;
     rules := [empty_rules; errors; import; important];
     rulesById := {[ "empty-rules" := empty_rules; "errors" := errors;
                     "import" := import; "important" := important ]};
     objects := [o] |}.

(** A style sheet with an [@import], a rule whose only declaration is
    broken, and ten [!important] declarations, two of them on line 6. *)
Definition sheet : string :=
  "@import 'b.css';" +:+ JS.LF +:+
  "a {" +:+ JS.LF +:+
  "  color red" +:+ JS.LF +:+
  "}" +:+ JS.LF +:+
  "b {" +:+ JS.LF +:+
  "  color: red !important; margin: 0 !important;" +:+ JS.LF +:+
  "  padding: 0 !important;" +:+ JS.LF +:+
  "  border: 0 !important;" +:+ JS.LF +:+
  "  top: 0 !important;" +:+ JS.LF +:+
  "  left: 0 !important;" +:+ JS.LF +:+
  "  right: 0 !important;" +:+ JS.LF +:+
  "  bottom: 0 !important;" +:+ JS.LF +:+
  "  width: 0 !important;" +:+ JS.LF +:+
  "  height: 0 !important;" +:+ JS.LF +:+
  "}".

(** The events of [sheet]: the broken declaration is an error of line 3,
    and the rule it stands in ends empty, which is reported at line 2 after
    the error. *)
Definition sheet_events : list event :=
  [Import 1 1;
   StartRule 2 1; Error "Expected COLON at line 3, col 9." 3 9; EndRule 2 1;
   StartRule 5 1;
   Property true 6 3; Property true 6 26; Property true 7 3; Property true 8 3;
   Property true 9 3; Property true 10 3; Property true 11 3;
   Property true 12 3; Property true 13 3; Property true 14 3;
   EndRule 5 1;
   EndStyleSheet].

(** The ruleset passed with [sheet]. *)
Definition sheet_ruleset : obj Z :=
  [("important", 1); ("import", 2); ("empty-rules", 1)].

(** An ignore span around the one declaration, on lines 2 to 4. *)
Definition wrapped : string :=
  JS.LF +:+ "/* csslint ignore:start */" +:+
  JS.LF +:+ "a { color: red !important; }" +:+
  JS.LF +:+ "/* csslint ignore:end */".

(** The events of [wrapped]: its one rule, on line 3. *)
Definition wrapped_events : list event :=
  [StartRule 3 1; Property true 3 5; EndRule 3 1; EndStyleSheet].

(** A directive in front of the rule of line 2, behind an empty rule. *)
Definition second_line (directive : string) : string :=
  "a {}" +:+ JS.LF +:+ directive +:+ " a { color: red !important; }".

(** The events of [second_line d] for a directive [d] of 29 characters. *)
Definition second_line_events : list event :=
  [StartRule 1 1; EndRule 1 1;
   StartRule 2 31; Property true 2 35; EndRule 2 31; EndStyleSheet].

(** A usercss placeholder where a value should be. *)
Definition placeholder : string := "a { color: /*[[accent]]*/ !important; }".

Definition placeholder_events : list event :=
  [StartRule 1 1;
   Error "Expected a value but found '/*[[accent]]*/' at line 1, col 12." 1 12;
   Property true 1 5; EndRule 1 1; EndStyleSheet].

(** A reporter with the rule ['important'] allowed on line 3 and the lines
    5 to 8 ignored; its ruleset is the object at location [0]. *)
Definition guarded : Reporter.t event :=
  Reporter.new [] 0%nat {[ 3 := {[ "important" := true ]} ]} [(5, 8)].

End Sample.


(** ** Vocabulary of the statements *)

(** [agrees cmp R x y]: comparing [x] with [y] places them as [R] wants. *)
Definition agrees {A} (cmp : A -> A -> option Z) (R : relation A) (x y : A) : Prop :=
  (0 < JS.sortCompare cmp x y -> R y x) /\
  (JS.sortCompare cmp x y <= 0 -> R x y).

(** Ascending order of the ids, code unit by code unit. *)
Definition id_le {event} (a b : Rule.t event) : Prop :=
  String.le (Rule.id a) (Rule.id b).

(** [rule.id] is a key of [AllowMap[line]]. *)
Definition allow_listed {event} (this : Reporter.t event) (line : option Z)
    (rule : rule_ref event) : Prop :=
  exists n ids, line = Some n /\ Reporter.allow this !! n = Some ids /\
                is_Some (ids !! prop_key (rule_id rule)).

(** [rule.id] is the name of a property that every object inherits, such
    as ['constructor']. *)
Definition inherited_name {event} (rule : rule_ref event) : Prop :=
  name_in (prop_key (rule_id rule)) Object_prototype_names = true.

(** [line in this.allow]: the allow map has an entry for the line. *)
Definition allow_has_line {event} (this : Reporter.t event) (line : option Z)
    : Prop :=
  exists n, line = Some n /\ is_Some (Reporter.allow this !! n).


(** Where [eol] stands after the first statement of the loop body. *)
Definition next_eol (text : string) (eol : Z) : Z :=
  JS.or_else (JS.indexOf text JS.LF eol + 1) (JS.length text + 1) - 1.

(** Does the loop over the matches [ms] reach [cmd.trim()]?  It does at the
    first match that does not start behind [eol]. *)
Fixpoint loop_throws (text : string) (ms : list RX.rx_match) (eol : Z) : bool :=
  match ms with
  | [] => false
  | m :: ms' =>
      if next_eol text eol <? RX.index m
      then loop_throws text ms' (next_eol text eol)
      else true
  end.

(** Does [verify] throw in the extractor for this text? *)
Definition extractor_throws (text : string) : bool :=
  (0 <=? CSSLint.embedded_cursor text)
  && loop_throws text (RX.matches text (CSSLint.embedded_cursor text)) 0.

(** The content of the ruleset that the reporter of a run consults, from
    the content [o] of the ruleset passed to [verify]. *)
Definition effective_ruleset (text : string) (o : obj Z) : obj Z :=
  if 0 <=? CSSLint.embedded_cursor text
  then obj_set "errors" 2 (obj_assign [] o)
  else obj_set "errors" 2 o.

(** The reporter calls that the listeners make while one event is fired,
    each with the rule that makes it, and the exception of the listener
    that throws by itself; [made] tells which of the calls are carried out
    when one of them throws. *)
Fixpoint fire_calls {event} (e : event) (acts : list (@CSSLint.active event))
    : list (@CSSLint.active event) * list (Rule.t event * call) * option exn :=
  match acts with
  | [] => ([], [], None)
  | existT r st :: rest =>
      let '(st', calls, ex) := lfire (Rule.init r) e st in
      match ex with
      | Some x => (existT r st' :: rest, map (pair r) calls, Some x)
      | None =>
          let '(rest', calls', ex') := fire_calls e rest in
          (existT r st' :: rest', map (pair r) calls ++ calls', ex')
      end
  end.

(** The reporter calls of a whole parse, and the exception of the listener
    that ended it, if any. *)
Fixpoint trace {event} (evs : list event) (acts : list (@CSSLint.active event))
    : list (Rule.t event * call) * option exn :=
  match evs with
  | [] => ([], None)
  | e :: evs' =>
      let '(acts', calls, ex) := fire_calls e acts in
      match ex with
      | Some x => (calls, Some x)
      | None => let '(calls', ex') := trace evs' acts' in (calls ++ calls', ex')
      end
  end.

(** The exception of a reporter call that throws: [stat] with the name
    ['length'] and a value that is no array length. *)
Definition call_error (c : call) : option exn :=
  match c with
  | CallStat name value =>
      if String.eqb name "length"
         && negb ((0 <=? value) && (value <? 4294967296))
      then Some (RangeError "Invalid array length")
      else None
  | _ => None
  end.

(** The calls of [calls] that are carried out, those in front of the first
    one that throws, and the exception of that one. *)
Fixpoint made {event} (calls : list (Rule.t event * call))
    : list (Rule.t event * call) * option exn :=
  match calls with
  | [] => ([], None)
  | rc :: calls' =>
      match call_error (snd rc) with
      | Some x => ([], Some x)
      | None => (rc :: fst (made calls'), snd (made calls'))
      end
  end.

(** The reporter after a call that returns. *)
Definition performed {event} (h : heap) (rc : Rule.t event * call)
    (reporter : Reporter.t event) : Reporter.t event :=
  match Reporter.perform h (fst rc) reporter (snd rc) with
  | inr reporter' => reporter'
  | inl _ => reporter
  end.

(** The reporter after the calls [calls], which return. *)
Definition perform_all {event} (h : heap) (calls : list (Rule.t event * call))
    (reporter : Reporter.t event) : Reporter.t event :=
  fold_left (fun r rc => performed h rc r) calls reporter.

(** The exception [a], or else [b]. *)
Definition or_exn (a b : option exn) : option exn :=
  match a with
  | Some x => Some x
  | None => b
  end.

(** A rollup, which has no line, or a message that has one. *)
Definition positioned {event} (m : Message.t event) : Prop :=
  if Message.rollup m then Message.line m = None
  else is_Some (Message.line m).

(** Messages with a line first, then those without, then the rollups. *)
Definition rank {event} (m : Message.t event) : nat :=
  if Message.rollup m then 2%nat
  else if Message.line m is Some _ then 0%nat else 1%nat.

Definition msg_le {event} (a b : Message.t event) : Prop :=
  (rank a <= rank b)%nat /\
  forall x y, Message.rollup a = false -> Message.rollup b = false ->
              Message.line a = Some x -> Message.line b = Some y -> x <= y.

(** Is [m] a message of line [n] that is not a rollup? *)
Definition at_line {event} (n : Z) (m : Message.t event) : bool :=
  negb (Message.rollup m) && bool_decide (Message.line m = Some n).

(** Two reporters that differ in the location of their ruleset at most. *)
Definition like {event} (r r' : Reporter.t event) : Prop :=
  Reporter.messages r = Reporter.messages r' /\
  Reporter.stats r = Reporter.stats r' /\
  Reporter.stats_length r = Reporter.stats_length r' /\
  Reporter.lines r = Reporter.lines r' /\
  Reporter.allow r = Reporter.allow r' /\
  Reporter.ignore r = Reporter.ignore r'.

(** Two reporters with the same ruleset, lines, allow map and ignore
    ranges. *)
Definition same_config {event} (r r' : Reporter.t event) : Prop :=
  Reporter.ruleset r' = Reporter.ruleset r /\
  Reporter.lines r' = Reporter.lines r /\
  Reporter.allow r' = Reporter.allow r /\
  Reporter.ignore r' = Reporter.ignore r.

(** What a caller can see of a result of [verify]: the exception, or the
    report with the properties and the length of its statistics and the
    content of its ruleset. *)
Definition observe {event} (r : (exn + Report.t event) * World event)
    : exn + (list (Message.t event) * (obj Z * Z) * obj Z
             * gmap Z (gmap string bool) * list (Z * Z)) :=
  match fst r with
  | inl e => inl e
  | inr rep =>
      inr (Report.messages rep, (Report.stats rep, Report.stats_length rep),
           deref (objects (snd r)) (Report.ruleset rep),
           Report.allow rep, Report.ignore rep)
  end.

Definition with_eol (s : CSSLint.locals) (e : Z) : CSSLint.locals :=
  {| CSSLint.ignoreStart := CSSLint.ignoreStart s;
     CSSLint.ignoreEnd := CSSLint.ignoreEnd s;
     CSSLint.lineno := CSSLint.lineno s; CSSLint.eol := e;
     CSSLint.allow := CSSLint.allow s; CSSLint.ignore := CSSLint.ignore s |}.

(** The world [w] with the cursor of [RX_EMBEDDED] at [i]. *)
Definition moved {event} (w : World event) (i : Z) : World event :=
  {| lastIndex := i; rules := rules w; rulesById := rulesById w;
     objects := objects w |}.

(** Two worlds that differ in the cursor at most. *)
Definition same_but_cursor {event} (w w' : World event) : Prop :=
  rules w' = rules w /\ rulesById w' = rulesById w /\ objects w' = objects w.

Definition same_tables (s s' : CSSLint.locals) : Prop :=
  CSSLint.allow s' = CSSLint.allow s /\ CSSLint.ignore s' = CSSLint.ignore s /\
  CSSLint.ignoreStart s' = CSSLint.ignoreStart s.

(** What a run of [verify] shows when the reporter consults a ruleset of
    content [o] and the rules [acts] are initialised: the sorted messages,
    the statistics, the ruleset, and the empty allow map and ignore
    ranges. *)
Definition outcome {event} (parse : string -> list event * option exn)
    (text : string) (acts : list (@CSSLint.active event)) (o : obj Z)
    : list (Message.t event) * (obj Z * Z) * obj Z
      * gmap Z (gmap string bool) * list (Z * Z) :=
  let r := CSSLint.parse_and_catch parse [o] text acts
             (Reporter.new [] 0%nat ∅ []) in
  (JS.sort CSSLint.by_line (Reporter.messages r),
   (Reporter.stats r, Reporter.stats_length r), o,
   (∅ : gmap Z (gmap string bool)), ([] : list (Z * Z))).

(** The result of [verify] behind the extractor, when the reporter consults
    a ruleset of content [o]. *)
Definition run_outcome_of {event} (parse : string -> list event * option exn)
    (text : string) (rs : list (Rule.t event))
    (named : gmap string (Rule.t event)) (o : obj Z)
    : exn + (list (Message.t event) * (obj Z * Z) * obj Z
             * gmap Z (gmap string bool) * list (Z * Z)) :=
  match CSSLint.init_rules rs named o with
  | inl x => inl x
  | inr acts => inr (outcome parse text acts o)
  end.

(** The rule that [verify] initialises for the key [id] of the ruleset
    [o], if any. *)
Definition init_of {event} (rs : list (Rule.t event))
    (named : gmap string (Rule.t event)) (o : obj Z) (id : string)
    : option (@CSSLint.active event) :=
  match obj_get id o with
  | Some 0 | None => None
  | Some _ =>
      match CSSLint.array_get rs named id with
      | CSSLint.ARule r => Some (existT r (lstart (Rule.init r)))
      | _ => None
      end
  end.

(** The rules that [verify] has initialised when it reaches the parse. *)
Definition initialised {event} (rs : list (Rule.t event))
    (named : gmap string (Rule.t event)) (o : obj Z)
    : list (@CSSLint.active event) :=
  match CSSLint.init_rules rs named o with
  | inr acts => acts
  | inl _ => []
  end.

(** The ids that [getAllRuleIds] returns after the script [rs], when no
    [addRule] of it throws. *)
Definition registered_ids {event} (rs : list (Rule.t event)) (w : World event)
    : option (list string) :=
  match addRules rs w with
  | Some (inr _, w') =>
      match fst (Worker.getAllRuleIds w') with
      | inr ids => Some ids
      | inl _ => None
      end
  | _ => None
  end.

(** An id that [addRule] stores as a named property of [rules], and that
    hides no method the registry calls. *)
Definition ordinary_id {event} (r : Rule.t event) : bool :=
  negb (bool_decide (is_Some (array_index (Rule.id r))))
  && negb (name_in (Rule.id r) ["length"; "__proto__"; "slice"; "push"]).

(** No key that the ruleset [o] enables is the name of an index. *)
Definition no_element_key (o : obj Z) : bool :=
  forallb (fun kv => negb (bool_decide (is_Some (array_index (fst kv))))
                     || (snd kv =? 0))
          o.

(** No key that the ruleset [o] enables is the name of an index or
    ['length']. *)
Definition no_array_key (o : obj Z) : bool :=
  forallb (fun kv => negb (bool_decide (is_Some (array_index (fst kv)))
                           || String.eqb (fst kv) "length")
                     || (snd kv =? 0))
          o.

(** The default ruleset of a registry: every registered id at [1]. *)
Definition default_ruleset {event} (rs : list (Rule.t event)) : obj Z :=
  fold_left (fun ruleset rule => obj_set (Rule.id rule) 1 ruleset) rs [].

(** [needle] occurs in [s], at some position [k]. *)
Definition contains (s needle : string) : Prop :=
  exists k : nat, String.substring k (String.length needle) s = needle.

(** The fields of a message that identify a finding. *)
Definition brief {event} (m : Message.t event)
    : string * option Z * string * option string * bool :=
  (Message.type m, Message.line m, Message.message m,
   rule_id (Message.rule m), Message.rollup m).

(** A result of [verify] in brief: the exception, or the findings, the
    statistics, the content of the ruleset, the allow map and the ignore
    ranges of the report. *)
Definition summary {event} (r : (exn + Report.t event) * World event)
    : exn + (list (string * option Z * string * option string * bool)
             * obj Z * obj Z * gmap Z (gmap string bool) * list (Z * Z)) :=
  match fst r with
  | inl e => inl e
  | inr rep =>
      inr (map brief (Report.messages rep), Report.stats rep,
           deref (objects (snd r)) (Report.ruleset rep),
           Report.allow rep, Report.ignore rep)
  end.

(** ** CSSLint.Util *)

Module Util.

Fixpoint indexOf_from (values : list string) (value : string) (i : Z) : Z :=
  match values with
  | [] => -1
  | v :: values' =>
      if String.eqb v value then i else indexOf_from values' value (i + 1)
  end.

(** [indexOf(values, value)] on an array of strings, as the rules call it:
    the loop of the second branch; [Array.prototype.indexOf], which the
    first branch calls, compares with [===] too and returns the same
    index. *)
Definition indexOf (values : list string) (value : string) : Z :=
  indexOf_from values value 0.

End Util.

(** ** More rules of csslint.js

    The events carry what these rules read: the number of selectors of a
    [startrule]; of a [property] event the name ([event.property.text]), the
    name as a string ([String(event.property)]), the value
    ([event.value.text]) and the position; the kinds of the other blocks.
    [Other] stands for the events that none of these rules listens to. *)

Module Rules.

Inductive event :=
| StartRule (selectors : Z)
| StartFontFace
| StartPage
| StartPageMargin
| StartKeyframeRule
| StartViewport
| Property (text str value : string) (line col : Z)
| Import
| EndStyleSheet
| Other.

(** [CSSLint.addRule({id: 'floats', ...})] *)
Definition floats : Rule.t event :=
  {| Rule.id := "floats";
     Rule.name := "Disallow too many floats";
     Rule.desc := "This rule tests if the float property is used too many times";
     Rule.url := Some "https://github.com/CSSLint/csslint/wiki/Disallow-too-many-floats";
     Rule.browsers := Some "All";
     Rule.tags := [];
     Rule.init :=
       {| lstate := Z;
          lstart := 0;
          lfire := fun e count =>
            match e with
            | Property text _ value _ _ =>
                if String.eqb (JS.toLowerCase text) "float"
                   && negb (String.eqb (JS.toLowerCase value) "none")
                then (count + 1, [], None)
                else (count, [], None)
            | EndStyleSheet =>
                (count,
                 CallStat "floats" count ::
                 (if 10 <=? count
                  then [CallRollupWarn
                          ("Too many floats (" +:+ pretty count
                           +:+ "), you're probably using them for layout. "
                           +:+ "Consider using a grid system instead.")]
                  else []),
                 None)
            | _ => (count, [], None)
            end |} |}.

(** [CSSLint.addRule({id: 'font-faces', ...})] *)
Definition font_faces : Rule.t event :=
  {| Rule.id := "font-faces";
     Rule.name := "Don't use too many web fonts";
     Rule.desc := "Too many different web fonts in the same stylesheet.";
     Rule.url := Some "https://github.com/CSSLint/csslint/wiki/Don%27t-use-too-many-web-fonts";
     Rule.browsers := Some "All";
     Rule.tags := [];
     Rule.init :=
       {| lstate := Z;
          lstart := 0;
          lfire := fun e count =>
            match e with
            | StartFontFace => (count + 1, [], None)
            | EndStyleSheet =>
                (count,
                 if 5 <? count
                 then [CallRollupWarn
                         ("Too many @font-face declarations (" +:+ pretty count
                          +:+ ").")]
                 else [],
                 None)
            | _ => (count, [], None)
            end |} |}.

(** [CSSLint.addRule({id: 'font-sizes', ...})] *)
Definition font_sizes : Rule.t event :=
  {| Rule.id := "font-sizes";
     Rule.name := "Disallow too many font sizes";
     Rule.desc := "Checks the number of font-size declarations.";
     Rule.url := Some "https://github.com/CSSLint/csslint/wiki/Don%27t-use-too-many-font-size-declarations";
     Rule.browsers := Some "All";
     Rule.tags := [];
     Rule.init :=
       {| lstate := Z;
          lstart := 0;
          lfire := fun e count =>
            match e with
            | Property _ str _ _ _ =>
                if String.eqb str "font-size"
                then (count + 1, [], None)
                else (count, [], None)
            | EndStyleSheet =>
                (count,
                 CallStat "font-sizes" count ::
                 (if 10 <=? count
                  then [CallRollupWarn
                          ("Too many font-size declarations (" +:+ pretty count
                           +:+ "), abstraction needed.")]
                  else []),
                 None)
            | _ => (count, [], None)
            end |} |}.

(** [CSSLint.addRule({id: 'import-ie-limit', ...})] *)
Definition MAX_IMPORT_COUNT : Z := 31.

Definition import_ie_limit : Rule.t event :=
  {| Rule.id := "import-ie-limit";
     Rule.name := "@import limit on IE6-IE9";
     Rule.desc := "IE6-9 supports up to 31 @import per stylesheet";
     Rule.url := None;
     Rule.browsers := Some "IE6, IE7, IE8, IE9";
     Rule.tags := [];
     Rule.init :=
       {| lstate := Z;
          lstart := 0;
          lfire := fun e count =>
            match e with
            | StartPage => (0, [], None)
            | Import => (count + 1, [], None)
            | EndStyleSheet =>
                (count,
                 if MAX_IMPORT_COUNT <? count
                 then [CallRollupError
                         ("Too many @import rules (" +:+ pretty count
                          +:+ "). IE6-9 supports up to 31 import per stylesheet.")]
                 else [],
                 None)
            | _ => (count, [], None)
            end |} |}.

(** [CSSLint.addRule({id: 'rules-count', ...})] *)
Definition rules_count : Rule.t event :=
  {| Rule.id := "rules-count";
     Rule.name := "Rules Count";
     Rule.desc := "Track how many rules there are.";
     Rule.url := None;
     Rule.browsers := Some "All";
     Rule.tags := [];
     Rule.init :=
       {| lstate := Z;
          lstart := 0;
          lfire := fun e count =>
            match e with
            | StartRule _ => (count + 1, [], None)
            | EndStyleSheet => (count, [CallStat "rule-count" count], None)
            | _ => (count, [], None)
            end |} |}.

(** The message of ['selector-max-approaching'] and ['selector-max']. *)
Definition selectors_message (count : Z) : string :=
  "You have " +:+ pretty count +:+ " selectors. "
  +:+ "Internet Explorer supports a maximum of 4095 selectors per stylesheet. "
  +:+ "Consider refactoring.".

(** [CSSLint.addRule({id: 'selector-max-approaching', ...})] *)
Definition selector_max_approaching : Rule.t event :=
  {| Rule.id := "selector-max-approaching";
     Rule.name := "Warn when approaching the 4095 selector limit for IE";
     Rule.desc := "Will warn when selector count is >= 3800 selectors.";
     Rule.url := None;
     Rule.browsers := Some "IE";
     Rule.tags := [];
     Rule.init :=
       {| lstate := Z;
          lstart := 0;
          lfire := fun e count =>
            match e with
            | StartRule selectors => (count + selectors, [], None)
            | EndStyleSheet =>
                (count,
                 if 3800 <=? count
                 then [CallReport (selectors_message count) 0 0]
                 else [],
                 None)
            | _ => (count, [], None)
            end |} |}.

(** [CSSLint.addRule({id: 'selector-max', ...})] *)
Definition selector_max : Rule.t event :=
  {| Rule.id := "selector-max";
     Rule.name := "Error when past the 4095 selector limit for IE";
     Rule.desc := "Will error when selector count is > 4095.";
     Rule.url := None;
     Rule.browsers := Some "IE";
     Rule.tags := [];
     Rule.init :=
       {| lstate := Z;
          lstart := 0;
          lfire := fun e count =>
            match e with
            | StartRule selectors => (count + selectors, [], None)
            | EndStyleSheet =>
                (count,
                 if 4095 <? count
                 then [CallReport (selectors_message count) 0 0]
                 else [],
                 None)
            | _ => (count, [], None)
            end |} |}.

(** The locals [properties] and [lastProperty] of ['duplicate-properties'];
    both are [undefined] after [init]. *)
Record duplicates := {
  properties : option (gmap string string);
  lastProperty : option string;
}.

(** [startRule] of ['duplicate-properties']: [properties = {}]. *)
Definition startRule (st : duplicates) : duplicates :=
  {| properties := Some ∅; lastProperty := lastProperty st |}.

(** What [properties[name]] finds on the object [{}] that [startRule]
    made: a value that the rule has stored, a value inherited from
    [Object.prototype], or [undefined].  [name] is in lower case, and the
    names of [Object.prototype] that are in lower case are ['constructor']
    and ['__proto__']; the latter is an accessor, it hides anything
    stored. *)
Inductive slot :=
| Own (v : string)
| Inherited
| Absent.

Definition get (props : gmap string string) (name : string) : slot :=
  if String.eqb name "__proto__" then Inherited
  else match props !! name with
       | Some v => Own v
       | None => if String.eqb name "constructor" then Inherited else Absent
       end.

(** [properties[name] = value]: the setter of ['__proto__'] ignores a
    string. *)
Definition set (props : gmap string string) (name value : string)
    : gmap string string :=
  if String.eqb name "__proto__" then props else <[name := value]> props.

(** [properties[name] && (lastProperty !== name ||
    properties[name] === event.value.text)]: an empty string is falsy, an
    inherited value is an object, truthy and equal to no string. *)
Definition duplicated (found : slot) (lastProperty : option string)
    (name value : string) : bool :=
  match found with
  | Own v =>
      negb (String.eqb v EmptyString)
      && (negb (bool_decide (lastProperty = Some name)) || String.eqb v value)
  | Inherited => negb (bool_decide (lastProperty = Some name))
  | Absent => false
  end.

Section engine.

(** The message that the engine gives the [TypeError] of a read of the
    property [name] of [undefined]; the language leaves it open. *)
Variable undefined_read_message : string -> string.

(** [CSSLint.addRule({id: 'duplicate-properties', ...})]; reading
    [properties[name]] while [properties] is [undefined] throws a
    [TypeError]. *)
Definition duplicate_properties : Rule.t event :=
  {| Rule.id := "duplicate-properties";
     Rule.name := "Disallow duplicate properties";
     Rule.desc := "Duplicate properties must appear one after the other.";
     Rule.url := Some "https://github.com/CSSLint/csslint/wiki/Disallow-duplicate-properties";
     Rule.browsers := Some "All";
     Rule.tags := [];
     Rule.init :=
       {| lstate := duplicates;
          lstart := {| properties := None; lastProperty := None |};
          lfire := fun e st =>
            match e with
            | StartRule _ | StartFontFace | StartPage | StartPageMargin
            | StartKeyframeRule | StartViewport => (startRule st, [], None)
            | Property text str value line col =>
                let name := JS.toLowerCase text in
                match properties st with
                | None =>
                    (st, [], Some (TypeError (undefined_read_message name)))
                | Some props =>
                    ({| properties := Some (set props name value);
                        lastProperty := Some name |},
                     if duplicated (get props name) (lastProperty st) name value
                     then [CallReport
                             ("Duplicate property '" +:+ str +:+ "' found.")
                             line col]
                     else [],
                     None)
                end
            | _ => (st, [], None)
            end |} |}.

End engine.

(** The message of V8 for a read of the property [name] of [undefined]. *)
Definition v8_undefined_read_message (name : string) : string :=
  "Cannot read properties of undefined (reading '" +:+ name +:+ "')".

End Rules.

(** ** Vocabulary of the further statements *)

(** The rule [r] alone, as [verify] has initialised it. *)
Definition solo {event} (r : Rule.t event) : list (@CSSLint.active event) :=
  [existT r (lstart (Rule.init r))].

(** The state of the listeners [L] after the events [evs]. *)
Fixpoint state_after {event} (L : Listener event) (evs : list event)
    (st : lstate L) : lstate L :=
  match evs with
  | [] => st
  | e :: evs' => state_after L evs' (fst (fst (lfire L e st)))
  end.

(** The reporter calls that the listeners [L] make on the events [evs], up
    to the first exception. *)
Fixpoint calls_from {event} (L : Listener event) (evs : list event)
    (st : lstate L) : list call * option exn :=
  match evs with
  | [] => ([], None)
  | e :: evs' =>
      match snd (lfire L e st) with
      | Some x => (snd (fst (lfire L e st)), Some x)
      | None =>
          (snd (fst (lfire L e st))
             ++ fst (calls_from L evs' (fst (fst (lfire L e st)))),
           snd (calls_from L evs' (fst (fst (lfire L e st)))))
      end
  end.

(** The number of events of [evs] that satisfy [P]. *)
Definition count_where {event} (P : event -> bool) (evs : list event) : Z :=
  Z.of_nat (List.length (List.filter P evs)).

(** The events behind the last one that satisfies [P]; all of them when
    there is none. *)
Fixpoint since_last {A} (P : A -> bool) (l : list A) : list A :=
  match l with
  | [] => []
  | x :: l' =>
      if existsb P l' then since_last P l'
      else if P x then l' else x :: l'
  end.

(** The exception that ends the parse of the run that returned [report] in
    the world [w']: the one of a listener, thrown by a call of the reporter
    or by the listener itself, or else the one of the parser. *)
Definition thrown_in_run {event} (parse : string -> list event * option exn)
    (text : string) (report : Report.t event) (w' : World event) : option exn :=
  let t := trace (fst (parse text))
             (initialised (rules w') (rulesById w')
                (deref (objects w') (Report.ruleset report))) in
  match snd (made (fst t)) with
  | Some x => Some x
  | None =>
      match snd t with
      | Some x => Some x
      | None => snd (parse text)
      end
  end.

(** The message that [verify] adds for the exception [x]. *)
Definition fatal {event} (x : exn) : Message.t event :=
  {| Message.type := "error"; Message.evidence := None;
     Message.line := ex_line x; Message.col := ex_col x;
     Message.message := "Fatal error, cannot continue: " +:+ ex_message x;
     Message.rule := PlainObj None; Message.rollup := false |}.

(** Where the first line of [text] ends: at its first line feed, or at the
    end of the text. *)
Definition first_line_end (text : string) : Z := next_eol text 0.

(** Does the extractor reach a directive?  It does when the first comment
    that [RX_EMBEDDED] finds from the cursor on starts on the first
    line. *)
Definition directive_on_first_line (text : string) (cursor : Z) : bool :=
  match RX.matches text cursor with
  | [] => false
  | m :: _ => RX.index m <=? first_line_end text
  end.

(** The reports of ['important']: one for each declaration that is
    [!important]. *)
Definition important_report (e : Sample.event) : option call :=
  match e with
  | Sample.Property true line col => Some (CallReport "Use of !important" line col)
  | _ => None
  end.

Definition is_important (e : Sample.event) : bool :=
  match e with Sample.Property true _ _ => true | _ => false end.

Definition is_sample_property (e : Sample.event) : bool :=
  match e with Sample.Property _ _ _ => true | _ => false end.

Definition is_sample_startrule (e : Sample.event) : bool :=
  match e with Sample.StartRule _ _ => true | _ => false end.

(** A declaration of [float] with a value other than [none], in any
    case. *)
Definition is_float (e : Rules.event) : bool :=
  match e with
  | Rules.Property text _ value _ _ =>
      String.eqb (JS.toLowerCase text) "float"
      && negb (String.eqb (JS.toLowerCase value) "none")
  | _ => false
  end.

(** A declaration whose name reads [font-size], in lower case. *)
Definition is_font_size (e : Rules.event) : bool :=
  match e with
  | Rules.Property _ str _ _ _ => String.eqb str "font-size"
  | _ => false
  end.

Definition is_font_face (e : Rules.event) : bool :=
  match e with Rules.StartFontFace => true | _ => false end.

Definition is_import (e : Rules.event) : bool :=
  match e with Rules.Import => true | _ => false end.

Definition is_page (e : Rules.event) : bool :=
  match e with Rules.StartPage => true | _ => false end.

Definition is_startrule (e : Rules.event) : bool :=
  match e with Rules.StartRule _ => true | _ => false end.

(** The number of selectors of the rules of [evs]. *)
Fixpoint selector_count (evs : list Rules.event) : Z :=
  match evs with
  | [] => 0
  | Rules.StartRule n :: evs' => n + selector_count evs'
  | _ :: evs' => selector_count evs'
  end.

(** The events that start a block for ['duplicate-properties']. *)
Definition starts_block (e : Rules.event) : bool :=
  match e with
  | Rules.StartRule _ | Rules.StartFontFace | Rules.StartPage
  | Rules.StartPageMargin | Rules.StartKeyframeRule | Rules.StartViewport => true
  | _ => false
  end.

Definition is_property (e : Rules.event) : bool :=
  match e with Rules.Property _ _ _ _ _ => true | _ => false end.

(** The value of the last declaration of [name] among [evs], and the name
    of the last declaration of [evs]. *)
Fixpoint last_value (evs : list Rules.event) (name : string) : option string :=
  match evs with
  | [] => None
  | e :: evs' =>
      match last_value evs' name with
      | Some v => Some v
      | None =>
          match e with
          | Rules.Property text _ value _ _ =>
              if String.eqb (JS.toLowerCase text) name then Some value else None
          | _ => None
          end
      end
  end.

Fixpoint last_name (evs : list Rules.event) : option string :=
  match evs with
  | [] => None
  | e :: evs' =>
      match last_name evs' with
      | Some n => Some n
      | None =>
          match e with
          | Rules.Property text _ _ _ _ => Some (JS.toLowerCase text)
          | _ => None
          end
      end
  end.

(** The end of the style sheet, for the two kinds of events. *)
Definition is_end (e : Rules.event) : bool :=
  match e with Rules.EndStyleSheet => true | _ => false end.

Definition is_sample_end (e : Sample.event) : bool :=
  match e with Sample.EndStyleSheet => true | _ => false end.

(** What [properties[name]] finds behind the declarations [body] of a
    block. *)
Definition seen (body : list Rules.event) (name : string) : Rules.slot :=
  if String.eqb name "__proto__" then Rules.Inherited
  else match last_value body name with
       | Some v => Rules.Own v
       | None =>
           if String.eqb name "constructor" then Rules.Inherited
           else Rules.Absent
       end.

(** The string [s] without its first [k] characters. *)
Fixpoint skip (k : nat) (s : string) : string :=
  match k, s with
  | O, _ => s
  | S k', String _ s' => skip k' s'
  | S _, EmptyString => EmptyString
  end.

(** The calls that the rules make during the parse of the run that
    returned [report] in the world [w'], up to the first that throws. *)
Definition calls_of_run {event} (parse : string -> list event * option exn)
    (text : string) (report : Report.t event) (w' : World event)
    : list (Rule.t event * call) :=
  fst (made
         (fst (trace (fst (parse text))
                 (initialised (rules w') (rulesById w')
                    (deref (objects w') (Report.ruleset report)))))).

(** The names and values of the calls of [stat] among [calls]. *)
Definition stat_calls {event} (calls : list (Rule.t event * call))
    : list (string * Z) :=
  omap (fun rc => match snd rc with
                  | CallStat name value => Some (name, value)
                  | _ => None
                  end)
       calls.

(** The array [stats] of a new reporter after the writes [writes]. *)
Definition stats_after {event} (writes : list (string * Z)) : Reporter.t event :=
  fold_left (fun this nv =>
               match Reporter.stat this (fst nv) (snd nv) with
               | inr this' => this'
               | inl _ => this
               end)
            writes (Reporter.new [] 0%nat ∅ []).

(** The statistics that a sequence of calls leaves behind. *)
Definition stats_of {event} (calls : list (Rule.t event * call)) : obj Z :=
  Reporter.stats (stats_after (event := event) (stat_calls calls)).

(** A name under which the array [stats] keeps a property like an object
    does. *)
Definition plain_name (name : string) : bool :=
  negb (bool_decide (is_Some (array_index name)))
  && negb (name_in name ["length"; "__proto__"]).

(** The value of the last call of [stat] for [name] among [writes]. *)
Fixpoint last_stat (name : string) (writes : list (string * Z)) : option Z :=
  match writes with
  | [] => None
  | nv :: writes' =>
      match last_stat name writes' with
      | Some v => Some v
      | None => if String.eqb (fst nv) name then Some (snd nv) else None
      end
  end.

(** Every named property of [rules] holds a rule of that id, as [addRule]
    does it. *)
Definition registry_ok {event} (w : World event) : Prop :=
  forall id r, rulesById w !! id = Some r -> Rule.id r = id.

(** The test of the worker on a message. *)
Definition kept {event} (m : Message.t event) : bool :=
  negb (JS.includes (Message.message m) "/*[[")
  && negb (JS.includes (Message.message m) "]]*/").

(** * Properties *)

(** ** The stable sort *)

Section sort_facts.
Context {A : Type} (cmp : A -> A -> option Z).

Lemma insert_perm x l : JS.insert cmp x l ≡ₚ x :: l.
Proof.
  induction l as [|y l IH]; simpl; [done|].
  destruct (0 <? JS.sortCompare cmp x y); [|done].
  rewrite IH. apply Permutation_swap.
Qed.

Lemma sort_perm l : JS.sort cmp l ≡ₚ l.
Proof.
  induction l as [|x l IH]; simpl; [done|].
  fold (JS.sort cmp l). by rewrite insert_perm, IH.
Qed.

(** Stability: an element never moves past one of its own class. *)
Lemma insert_filter (P : A -> bool) x l :
  (forall y, y ∈ l -> P x = true -> P y = true -> JS.sortCompare cmp x y <= 0) ->
  List.filter P (JS.insert cmp x l) = List.filter P (x :: l).
Proof.
  intros Hcls. induction l as [|y l IH]; simpl; [done|].
  destruct (0 <? JS.sortCompare cmp x y) eqn:Hgt; [|done].
  simpl in *. rewrite IH by (intros; apply Hcls; [by right|done..]).
  destruct (P x) eqn:Hx, (P y) eqn:Hy; try done.
  apply Z.ltb_lt in Hgt. specialize (Hcls y (list_elem_of_here _ _) eq_refl Hy).
  lia.
Qed.

Lemma sort_filter (P : A -> bool) l :
  (forall x y, x ∈ l -> y ∈ l -> P x = true -> P y = true ->
               JS.sortCompare cmp x y <= 0) ->
  List.filter P (JS.sort cmp l) = List.filter P l.
Proof.
  intros Hcls. induction l as [|x l IH]; simpl; [done|].
  fold (JS.sort cmp l). rewrite insert_filter.
  - simpl. rewrite IH; [done|]. intros a b Ha Hb. apply Hcls; by right.
  - intros y Hy. rewrite sort_perm in Hy. apply Hcls; [by left | by right].
Qed.

Lemma insert_sorted (R : relation A) `{!Transitive R} x l :
  StronglySorted R l -> Forall (agrees cmp R x) l ->
  StronglySorted R (JS.insert cmp x l).
Proof.
  induction 1 as [|y l Hl IH Hy]; intros Hx; simpl.
  { repeat constructor. }
  apply Forall_cons in Hx as [[Hgt Hle] Hx].
  destruct (0 <? JS.sortCompare cmp x y) eqn:Hc.
  - apply Z.ltb_lt in Hc. constructor; [by apply IH|].
    rewrite (insert_perm x l). constructor; [by apply Hgt | done].
  - apply Z.ltb_ge in Hc. constructor; [by constructor|].
    constructor; [by apply Hle|].
    eapply Forall_impl; [exact Hy|]. intros z Hz. simpl in Hz.
    etrans; [by apply Hle | done].
Qed.

Lemma sort_sorted (R : relation A) `{!Transitive R} l :
  StronglySorted (agrees cmp R) l -> StronglySorted R (JS.sort cmp l).
Proof.
  induction 1 as [|x l Hl IH Hx]; simpl; [constructor|].
  fold (JS.sort cmp l). apply insert_sorted; [done..|].
  by rewrite sort_perm.
Qed.
End sort_facts.

Lemma StronglySorted_all {A} (Q : relation A) (l : list A) :
  (forall x y, Q x y) -> StronglySorted Q l.
Proof.
  intros HQ. induction l; constructor; [done|]. by apply Forall_forall.
Qed.

(** ** The rule registry *)

Section registry_facts.
Context {event : Type}.
Implicit Types (w : World event) (rs : list (Rule.t event)).

#[local] Instance id_le_trans : Transitive (@id_le event).
Proof. intros a b c. unfold id_le. apply transitivity. Qed.

Lemma ltb_le (s t : string) : String.ltb s t = true -> String.le s t.
Proof.
  unfold String.ltb, String.le, String.leb.
  destruct (String.compare s t); simpl; intros; done.
Qed.

Lemma not_ltb_le (s t : string) : String.ltb t s = false -> String.le s t.
Proof.
  unfold String.ltb, String.le, String.leb.
  rewrite (String.compare_antisym t s).
  destruct (String.compare s t); simpl; intros; done.
Qed.

Lemma by_id_agrees (a b : Rule.t event) : agrees CSSLint.by_id id_le a b.
Proof.
  unfold agrees, JS.sortCompare, CSSLint.by_id, id_le.
  destruct (String.ltb (Rule.id a) (Rule.id b)) eqn:Hab.
  { split; [lia|]. intros _. by apply ltb_le. }
  destruct (String.ltb (Rule.id b) (Rule.id a)) eqn:Hba.
  { split; [|lia]. intros _. by apply ltb_le. }
  split; [lia|]. intros _. by apply not_ltb_le.
Qed.


Lemma getAllRuleIds_eq w :
  Worker.getAllRuleIds w
  = (inr (map Rule.id (JS.sort CSSLint.by_id (rules w))), w).
Proof. reflexivity. Qed.

Lemma getRules_sorted w :
  StronglySorted id_le (JS.sort CSSLint.by_id (rules w)).
Proof.
  apply sort_sorted; [apply _|].
  apply StronglySorted_all, by_id_agrees.
Qed.

Lemma sorted_ids rs :
  StronglySorted id_le rs -> StronglySorted String.le (map Rule.id rs).
Proof.
  induction 1 as [|r rs Hrs IH Hr]; simpl; constructor; [done|].
  by apply Forall_map.
Qed.

Lemma ordinary_id_spec (r : Rule.t event) :
  ordinary_id r = true ->
  array_index (Rule.id r) = None /\
  String.eqb (Rule.id r) "length" = false /\
  String.eqb (Rule.id r) "__proto__" = false /\
  String.eqb (Rule.id r) "slice" = false /\
  Rule.id r <> "push".
Proof.
  unfold ordinary_id, name_in. simpl.
  intros [H1 H2]%andb_true_iff.
  apply negb_true_iff, bool_decide_eq_false in H1.
  apply negb_true_iff in H2.
  repeat apply orb_false_iff in H2 as [? H2].
  split_and!; try done.
  - destruct (array_index (Rule.id r)); [|done]. exfalso. by apply H1.
  - intros E. rewrite E in *. done.
Qed.

Lemma addRule_ordinary (r : Rule.t event) w :
  rulesById w !! "push" = None -> ordinary_id r = true ->
  CSSLint.addRule r w
  = Some (inr tt,
          CSSLint.with_rules w (rules w ++ [r])
            (<[Rule.id r := r]> (rulesById w))).
Proof.
  intros Hp (Hi & Hl & Hq & Hs & _)%ordinary_id_spec.
  unfold CSSLint.addRule. by rewrite Hp, Hl, Hq, Hs, Hi.
Qed.



End registry_facts.

(** ** Reporter *)

Section reporter_facts.
Context {event : Type}.
Implicit Types (this : Reporter.t event) (rule : rule_ref event).

Lemma allowed_spec this line rule :
  Reporter.allowed this line rule = true <->
  allow_listed this line rule \/ (inherited_name rule /\ allow_has_line this line).
Proof.
  unfold Reporter.allowed, allow_listed, inherited_name, allow_has_line,
    has_property.
  split.
  - destruct line as [n|]; [|done].
    destruct (Reporter.allow this !! n) as [ids|] eqn:E; [|done].
    intros [H%bool_decide_eq_true|H]%orb_true_iff.
    + left. by exists n, ids.
    + right. split; [done|]. exists n. by rewrite E.
  - intros [(n & ids & -> & -> & H)|[H (n & -> & [ids ->])]];
      apply orb_true_iff; [left|right]; [by apply bool_decide_eq_true|done].
Qed.

(** For an id that is the name of an inherited property, [rule.id in
    this.allow[line]] holds as soon as the allow map has the line: the
    report is suppressed though the id is no key of the entry. *)
Lemma report_inherited_name (h : heap) this message line col rule :
  inherited_name rule -> allow_has_line this line ->
  Reporter.report h this message line col rule = this.
Proof.
  intros H1 H2. unfold Reporter.report.
  assert (Reporter.allowed this line rule = true) as ->; [|done].
  apply allowed_spec. by right.
Qed.



(** C4.  [error] and [info] append exactly one message, of type ['error']
    resp. ['info'], whatever the allow map, the ignore ranges and the
    ruleset of the reporter are; nothing else of the reporter changes. *)
Theorem error_info_unconditional this message line col rule :
  (exists m,
     Reporter.messages (Reporter.error this message line col rule)
       = Reporter.messages this ++ [m] /\
     Message.type m = "error" /\ Message.message m = message /\
     Message.line m = line /\ Message.col m = col /\ Message.rule m = rule) /\
  (exists m,
     Reporter.messages (Reporter.info this message line col rule)
       = Reporter.messages this ++ [m] /\
     Message.type m = "info" /\ Message.message m = message /\
     Message.line m = line /\ Message.col m = col /\ Message.rule m = rule) /\
  List.length (Reporter.messages (Reporter.error this message line col rule))
    = S (List.length (Reporter.messages this)) /\
  List.length (Reporter.messages (Reporter.info this message line col rule))
    = S (List.length (Reporter.messages this)).
Proof.
  split_and!; try (eexists; split; [reflexivity|done]).
  all: simpl; rewrite length_app; simpl; lia.
Qed.
End reporter_facts.

(** ** The override extractor *)

Section overrides_facts.
Context {event : Type}.
Implicit Types (w : World event) (s : CSSLint.locals) (m : RX.rx_match).

(** The body of the loop either skips the directive or throws at
    [cmd.trim()]; it never reaches the [switch]. *)
Lemma overrides_body_eq text (ruleset : loc) m s w :
  CSSLint.overrides_body text ruleset m s w =
    if next_eol text (CSSLint.eol s) <? RX.index m
    then (inr (with_eol s (next_eol text (CSSLint.eol s))), w)
    else (inl (TypeError "cmd.trim is not a function"), w).
Proof.
  unfold CSSLint.overrides_body. fold (next_eol text (CSSLint.eol s)).
  destruct (next_eol text (CSSLint.eol s) <? RX.index m); reflexivity.
Qed.

Lemma same_but_cursor_refl w : same_but_cursor w w.
Proof. by repeat split. Qed.

Lemma same_but_cursor_trans w1 w2 w3 :
  same_but_cursor w1 w2 -> same_but_cursor w2 w3 -> same_but_cursor w1 w3.
Proof. intros (?&?&?) (?&?&?). repeat split; congruence. Qed.

Lemma overrides_iteration_eq text (ruleset : loc) m s w :
  CSSLint.overrides_iteration text ruleset m s w =
    if next_eol text (CSSLint.eol s) <? RX.index m
    then (inr {| CSSLint.ignoreStart := CSSLint.ignoreStart s;
                 CSSLint.ignoreEnd := CSSLint.ignoreEnd s;
                 CSSLint.lineno := CSSLint.lineno s + 1;
                 CSSLint.eol := next_eol text (CSSLint.eol s);
                 CSSLint.allow := CSSLint.allow s;
                 CSSLint.ignore := CSSLint.ignore s |},
          moved w (RX.endIndex m))
    else (inl (TypeError "cmd.trim is not a function"),
          moved w (RX.endIndex m)).
Proof.
  unfold CSSLint.overrides_iteration, bind, set_lastIndex.
  rewrite overrides_body_eq.
  destruct (next_eol text (CSSLint.eol s) <? RX.index m); reflexivity.
Qed.

Lemma for_each_cons {A S} (x : A) xs (body : A -> S -> M event S) (s : S) w :
  for_each (x :: xs) body s w =
    match body x s w with
    | (inl e, w') => (inl e, w')
    | (inr s', w') => for_each xs body s' w'
    end.
Proof. reflexivity. Qed.

Lemma overrides_loop text (ruleset : loc) (ms : list RX.rx_match) s w :
  same_but_cursor w
    (snd (for_each ms (CSSLint.overrides_iteration text ruleset) s w)) /\
  match fst (for_each ms (CSSLint.overrides_iteration text ruleset) s w) with
  | inl e => e = TypeError "cmd.trim is not a function" /\
             loop_throws text ms (CSSLint.eol s) = true
  | inr s' => same_tables s s' /\ loop_throws text ms (CSSLint.eol s) = false
  end.
Proof.
  revert s w. induction ms as [|m ms IH]; intros s w.
  { simpl. split; [apply same_but_cursor_refl | by repeat split]. }
  rewrite for_each_cons, overrides_iteration_eq. simpl loop_throws.
  destruct (next_eol text (CSSLint.eol s) <? RX.index m).
  - match goal with |- context [for_each ms _ ?s1 ?w1] =>
      destruct (IH s1 w1) as [Hw Hs] end.
    split.
    + eapply same_but_cursor_trans; [|exact Hw]. by repeat split.
    + destruct (fst (for_each ms _ _ _)); [done|]. exact Hs.
  - simpl. by repeat split.
Qed.

(** Whatever the text, the extractor either throws the [TypeError] of
    [cmd.trim()] or returns the allow map and the ignore ranges it was
    given; it writes to no ruleset. *)
Lemma applyEmbeddedOverrides_inert text (ruleset : loc) allow0 ignore0 w :
  same_but_cursor w
    (snd (CSSLint.applyEmbeddedOverrides text ruleset allow0 ignore0 w)) /\
  fst (CSSLint.applyEmbeddedOverrides text ruleset allow0 ignore0 w)
    = if loop_throws text (RX.matches text (lastIndex w)) 0
      then inl (TypeError "cmd.trim is not a function")
      else inr (allow0, ignore0).
Proof.
  unfold CSSLint.applyEmbeddedOverrides, bind, get_world. simpl.
  match goal with |- context [for_each ?ms ?f ?s1 w] =>
    destruct (overrides_loop text ruleset ms s1 w) as [Hw Hs];
    destruct (for_each ms f s1 w) as [[e|s'] w'] end; simpl in *.
  - destruct Hs as [-> ->]. done.
  - destruct Hs as [(Ha & Hi & Hst) ->]. simpl in *.
    split; [done|]. by rewrite Hst, Ha, Hi.
Qed.
End overrides_facts.

(** ** [verify]: the ruleset of the run *)

Section setup_facts.
Context {event : Type}.
Implicit Types (w : World event) (o : obj Z) (l : loc).

Lemma deref_lookup (h : heap) l o : h !! l = Some o -> deref h l = o.
Proof. unfold deref. by intros ->. Qed.

Lemma deref_alloc (h : heap) o : deref (h ++ [o]) (List.length h) = o.
Proof.
  unfold deref. rewrite lookup_app_r by lia.
  by rewrite Nat.sub_diag.
Qed.

(** [verify] up to [ruleset.errors = 2], for a ruleset passed by the
    caller: without a directive-looking comment the caller's object is
    written to; with one, a clone is made, and the extractor throws or
    leaves everything as it was. *)
Lemma setup_spec text l w res w' :
  CSSLint.setup text (Some l) w = (res, w') ->
  rules w' = rules w /\ rulesById w' = rulesById w /\
  if 0 <=? CSSLint.embedded_cursor text then
    if loop_throws text (RX.matches text (CSSLint.embedded_cursor text)) 0 then
      res = inl (TypeError "cmd.trim is not a function") /\
      objects w' = objects w ++ [obj_assign [] (deref (objects w) l)]
    else
      res = inr (Reporter.new [] (List.length (objects w)) ∅ []) /\
      objects w' = objects w
                   ++ [obj_set "errors" 2 (obj_assign [] (deref (objects w) l))]
  else
    res = inr (Reporter.new [] l ∅ []) /\
    objects w' = <[l := obj_set "errors" 2 (deref (objects w) l)]> (objects w).
Proof.
  unfold CSSLint.setup.
  unfold bind at 1. unfold ret at 1. unfold bind at 1. unfold set_lastIndex at 1.
  unfold bind at 1. unfold get_world at 1. cbn [lastIndex].
  destruct (0 <=? CSSLint.embedded_cursor text) eqn:Hc.
  - unfold bind at 1. unfold bind at 1. unfold read at 1.
    unfold bind at 1. unfold get_world at 1. unfold ret at 1.
    cbn [objects].
    unfold bind at 1. unfold alloc at 1.
    unfold bind at 1. unfold get_world at 1.
    unfold bind at 1. unfold set_objects at 1. unfold ret at 1.
    cbn [objects lastIndex rules rulesById].
    unfold bind at 1.
    match goal with |- context [CSSLint.applyEmbeddedOverrides ?t ?r ?a ?i ?w0] =>
      destruct (applyEmbeddedOverrides_inert t r a i w0) as [(Hr & Hb & Ho) Hres];
      destruct (CSSLint.applyEmbeddedOverrides t r a i w0) as [res0 w0'] end.
    cbn [fst snd objects lastIndex rules rulesById] in *.
    destruct (loop_throws text _ 0).
    + subst res0. intros [= <- <-]. by rewrite Hr, Hb, Ho.
    + subst res0. unfold ret at 1. cbn [fst snd].
      unfold bind at 1. unfold write_prop at 1.
      unfold bind at 1. unfold get_world at 1. unfold set_objects at 1.
      unfold ret at 1. intros [= <- <-]. cbn [objects rules rulesById].
      rewrite Hr, Hb, Ho. split_and!; try done.
      rewrite deref_alloc.
      rewrite insert_app_r_alt by lia. by rewrite Nat.sub_diag.
  - unfold bind at 1. unfold ret at 1. cbn [fst snd].
    unfold bind at 1. unfold write_prop at 1.
    unfold bind at 1. unfold get_world at 1. unfold set_objects at 1.
    unfold ret at 1. intros [= <- <-]. by cbn [objects rules rulesById].
Qed.

(** Without a ruleset, [verify] goes on with the fresh default one. *)
Lemma setup_default text w :
  CSSLint.setup text None w =
    CSSLint.setup text (Some (List.length (objects w)))
      {| lastIndex := lastIndex w; rules := rules w; rulesById := rulesById w;
         objects := objects w
                    ++ [fold_left (fun ruleset rule => obj_set (Rule.id rule) 1 ruleset)
                                  (rules w) []] |}.
Proof. reflexivity. Qed.

Lemma setup_reporter text ruleset w reporter w' :
  CSSLint.setup text ruleset w = (inr reporter, w') ->
  exists l, reporter = Reporter.new [] l ∅ [].
Proof.
  assert (Hsome : forall l w,
            CSSLint.setup text (Some l) w = (inr reporter, w') ->
            exists l, reporter = Reporter.new [] l ∅ []).
  { intros l w0 H. apply setup_spec in H as (_ & _ & H).
    destruct (0 <=? _).
    - destruct (loop_throws _ _ _); destruct H as [[=] _]. by eexists.
    - destruct H as [[=] _]. by eexists. }
  destruct ruleset as [l|]; [|rewrite setup_default]; apply Hsome.
Qed.
End setup_facts.

(** ** [verify]: the calls of a parse *)

Section run_facts.
Context {event : Type}.
Implicit Types (r : Reporter.t event) (c : call) (rule : Rule.t event).

Lemma perform_all_app (h : heap) calls1 calls2 r :
  perform_all h (calls1 ++ calls2) r
  = perform_all h calls2 (perform_all h calls1 r).
Proof. unfold perform_all. apply fold_left_app. Qed.

(** A call throws exactly when [call_error] says so, whatever the
    reporter. *)
Lemma perform_error (h : heap) rule r c :
  match call_error c with
  | Some x => Reporter.perform h rule r c = inl x
  | None => exists r', Reporter.perform h rule r c = inr r'
  end.
Proof.
  destruct c; simpl; try by eexists.
  unfold Reporter.stat.
  destruct (String.eqb name "length"); simpl.
  - destruct ((0 <=? value) && (value <? 4294967296)); simpl; [by eexists|done].
  - destruct (array_index name); [by eexists|].
    destruct (String.eqb name "__proto__"); by eexists.
Qed.

Lemma performed_eq (h : heap) rule r c r' :
  Reporter.perform h rule r c = inr r' -> performed h (rule, c) r = r'.
Proof. unfold performed. simpl. by intros ->. Qed.

Lemma made_app (calls1 calls2 : list (Rule.t event * call)) :
  made (calls1 ++ calls2)
  = match snd (made calls1) with
    | Some x => made calls1
    | None => (fst (made calls1) ++ fst (made calls2), snd (made calls2))
    end.
Proof.
  induction calls1 as [|rc calls1 IH]; simpl.
  { by destruct (made calls2). }
  destruct (call_error (snd rc)); [done|]. simpl.
  rewrite IH. destruct (snd (made calls1)) eqn:E; simpl; [by rewrite E|done].
Qed.

Lemma made_safe (calls : list (Rule.t event * call)) :
  Forall (fun rc => call_error (snd rc) = None) calls ->
  made calls = (calls, None).
Proof.
  induction 1 as [|rc calls Hrc _ IH]; simpl; [done|].
  by rewrite Hrc, IH.
Qed.

Lemma perform_calls_eq (h : heap) rule (calls : list call) r :
  CSSLint.perform_calls h rule calls r
  = (perform_all h (fst (made (map (pair rule) calls))) r,
     snd (made (map (pair rule) calls))).
Proof.
  revert r. induction calls as [|c calls IH]; intros r; [done|].
  simpl. assert (H := perform_error h rule r c).
  destruct (call_error c) as [x|].
  - by rewrite H.
  - destruct H as [r' H]. rewrite H, IH. simpl.
    by rewrite (performed_eq _ _ _ _ _ H).
Qed.

Lemma fire_eq (h : heap) (e : event) acts r :
  snd (fst (CSSLint.fire h e acts r))
  = perform_all h (fst (made (snd (fst (fire_calls e acts))))) r /\
  snd (CSSLint.fire h e acts r)
  = or_exn (snd (made (snd (fst (fire_calls e acts)))))
           (snd (fire_calls e acts)) /\
  (snd (made (snd (fst (fire_calls e acts)))) = None ->
   fst (fst (CSSLint.fire h e acts r)) = fst (fst (fire_calls e acts))).
Proof.
  revert r. induction acts as [|[rule st] acts IH]; intros r; [done|].
  simpl. destruct (lfire (Rule.init rule) e st) as [[st' calls] ex].
  rewrite perform_calls_eq.
  destruct ex as [x|]; simpl.
  { destruct (snd (made (map (pair rule) calls))); done. }
  destruct (fire_calls e acts) as [[acts' calls'] ex'] eqn:Ef. simpl.
  rewrite made_app.
  destruct (snd (made (map (pair rule) calls))) as [x|] eqn:Em; simpl.
  { rewrite Em. done. }
  specialize (IH (perform_all h (fst (made (map (pair rule) calls))) r)).
  simpl in IH. destruct IH as (I1 & I2 & I3).
  destruct (CSSLint.fire h e acts _) as [[rest' r''] ex'']. simpl in *.
  rewrite perform_all_app. split_and!; [done..|].
  intros Hn. by rewrite I3.
Qed.

Lemma fire_all_eq (h : heap) (evs : list event) acts r :
  CSSLint.fire_all h evs acts r =
    (perform_all h (fst (made (fst (trace evs acts)))) r,
     or_exn (snd (made (fst (trace evs acts)))) (snd (trace evs acts))).
Proof.
  revert acts r. induction evs as [|e evs IH]; intros acts r; [done|].
  simpl. destruct (fire_eq h e acts r) as (F1 & F2 & F3).
  destruct (CSSLint.fire h e acts r) as [[acts1 r1] ex1].
  destruct (fire_calls e acts) as [[acts' calls] ex']. simpl in *.
  destruct (snd (made calls)) as [x|] eqn:Em.
  - simpl in F2. subst ex1 r1.
    destruct ex' as [y|]; simpl; [by rewrite Em|].
    destruct (trace evs acts') as [calls' ex'']. simpl.
    by rewrite made_app, Em, Em.
  - simpl in F2. subst ex1 r1. rewrite (F3 eq_refl).
    destruct ex' as [y|]; simpl; [by rewrite Em|].
    rewrite IH. destruct (trace evs acts') as [calls' ex'']. simpl.
    rewrite made_app, Em. simpl. by rewrite perform_all_app.
Qed.

(** Every call appends messages that are rollups or carry a line, and
    keeps the reporter's ruleset, allow map and ignore ranges. *)
Lemma perform_messages (h : heap) rule r c :
  exists ms,
    Reporter.messages (performed h (rule, c) r) = Reporter.messages r ++ ms /\
    Forall positioned ms.
Proof.
  assert (Hone : forall m : Message.t event,
             (Message.rollup m = true /\ Message.line m = None \/
              Message.rollup m = false /\ is_Some (Message.line m)) ->
             Forall positioned [m]).
  { intros m [[Hr Hm]|[Hr Hm]]; repeat constructor;
      unfold positioned; by rewrite Hr. }
  unfold performed. destruct c; simpl.
  - eexists; split; [reflexivity|]. apply Hone. right. split; [done|by eexists].
  - unfold Reporter.report.
    destruct (Reporter.allowed r (Some line) (RuleObj rule)
              || Reporter.ignored r (Some line)).
    + exists []. rewrite app_nil_r. split; [done|constructor].
    + eexists; split; [reflexivity|]. apply Hone. right. split; [done|by eexists].
  - eexists; split; [reflexivity|]. apply Hone. right. split; [done|by eexists].
  - eexists; split; [reflexivity|]. apply Hone. left. by split.
  - eexists; split; [reflexivity|]. apply Hone. left. by split.
  - exists []. rewrite app_nil_r. split; [|constructor].
    unfold Reporter.stat.
    repeat match goal with |- context [if ?b then _ else _] => destruct b end;
      try done.
    all: by destruct (array_index name).
Qed.

Lemma perform_all_messages (h : heap) calls r :
  exists ms,
    Reporter.messages (perform_all h calls r) = Reporter.messages r ++ ms /\
    Forall positioned ms.
Proof.
  revert r. induction calls as [|[rule c] calls IH]; intros r.
  { exists []. rewrite app_nil_r. split; [done|constructor]. }
  simpl. destruct (perform_messages h rule r c) as (ms1 & E1 & F1).
  destruct (IH (performed h (rule, c) r)) as (ms2 & E2 & F2).
  exists (ms1 ++ ms2). rewrite E2, E1, app_assoc. split; [done|].
  by apply Forall_app.
Qed.

(** The messages that the [try] statement adds: those of the calls, then
    at most the fatal error. *)
Lemma parse_and_catch_messages parse (h : heap) text acts r :
  exists ms fatal,
    Reporter.messages (CSSLint.parse_and_catch parse h text acts r)
      = Reporter.messages r ++ ms ++ fatal /\
    Forall positioned ms /\
    (fatal = [] \/ exists m, fatal = [m] /\ Message.rollup m = false).
Proof.
  unfold CSSLint.parse_and_catch. destruct (parse text) as [evs ex].
  rewrite fire_all_eq.
  destruct (perform_all_messages h (fst (made (fst (trace evs acts)))) r)
    as (ms & E & F).
  destruct (or_exn _ (snd (trace evs acts))) as [x|]; [|destruct ex as [x|]].
  3: { exists ms, []. rewrite app_nil_r. by eauto. }
  all: eexists ms, [_]; simpl; rewrite E, <- app_assoc;
       split_and!; [reflexivity|done|right; by eexists].
Qed.

Lemma perform_config (h : heap) rule r c :
  same_config r (performed h (rule, c) r).
Proof.
  unfold performed. destruct c; simpl; try by repeat split.
  - unfold Reporter.report.
    destruct (Reporter.allowed r (Some line) (RuleObj rule)
              || Reporter.ignored r (Some line)); by repeat split.
  - unfold Reporter.stat.
    repeat match goal with |- context [if ?b then _ else _] => destruct b end;
      try by repeat split.
    all: destruct (array_index name); by repeat split.
Qed.

Lemma perform_all_config (h : heap) calls r :
  same_config r (perform_all h calls r).
Proof.
  revert r. induction calls as [|[rule c] calls IH]; intros r.
  { by repeat split. }
  simpl. destruct (perform_config h rule r c) as (E1 & E2 & E3 & E4).
  destruct (IH (performed h (rule, c) r)) as (F1 & F2 & F3 & F4).
  repeat split; congruence.
Qed.

Lemma parse_and_catch_config parse (h : heap) text acts r :
  same_config r (CSSLint.parse_and_catch parse h text acts r).
Proof.
  unfold CSSLint.parse_and_catch. destruct (parse text) as [evs ex].
  rewrite fire_all_eq.
  destruct (perform_all_config h (fst (made (fst (trace evs acts)))) r)
    as (E1 & E2 & E3 & E4).
  destruct (or_exn _ (snd (trace evs acts))) as [x|]; [|destruct ex as [x|]];
    by repeat split.
Qed.

Lemma perform_like (h h' : heap) rule r r' c :
  deref h (Reporter.ruleset r) = deref h' (Reporter.ruleset r') ->
  like r r' ->
  like (performed h (rule, c) r) (performed h' (rule, c) r') /\
  Reporter.ruleset (performed h (rule, c) r) = Reporter.ruleset r /\
  Reporter.ruleset (performed h' (rule, c) r') = Reporter.ruleset r'.
Proof.
  intros Hd (Hm & Hs & Hn & Hl & Ha & Hi).
  unfold performed.
  destruct c; simpl;
    unfold Reporter.error, Reporter.info, Reporter.rollupError,
      Reporter.rollupWarn, Reporter.report, Reporter.push,
      Reporter.evidence_at, Reporter.allowed, Reporter.ignored, like; simpl;
    rewrite ?Hm, ?Hs, ?Hn, ?Hl, ?Ha, ?Hi, ?Hd; try done.
  - match goal with |- context [if ?b then _ else _] => destruct b end;
      simpl; by rewrite ?Hm, ?Hs, ?Hn, ?Hl, ?Ha, ?Hi.
  - unfold Reporter.stat. rewrite ?Hs, ?Hn.
    destruct (String.eqb name "length");
      [destruct ((0 <=? value) && (value <? 4294967296))
      |destruct (array_index name);
         [|destruct (String.eqb name "__proto__")]];
      simpl; by rewrite ?Hm, ?Hs, ?Hn, ?Hl, ?Ha, ?Hi.
Qed.

Lemma perform_all_like (h h' : heap) calls r r' :
  deref h (Reporter.ruleset r) = deref h' (Reporter.ruleset r') ->
  like r r' ->
  like (perform_all h calls r) (perform_all h' calls r') /\
  Reporter.ruleset (perform_all h calls r) = Reporter.ruleset r /\
  Reporter.ruleset (perform_all h' calls r') = Reporter.ruleset r'.
Proof.
  revert r r'. induction calls as [|[rule c] calls IH]; intros r r' Hd Hl; [done|].
  simpl. destruct (perform_like h h' rule r r' c Hd Hl) as (Hl1 & E1 & E1').
  destruct (IH (performed h (rule, c) r) (performed h' (rule, c) r'))
    as (Hl2 & E2 & E2'); [by rewrite E1, E1'|done|].
  split_and!; [done|congruence|congruence].
Qed.

Lemma parse_and_catch_like parse (h h' : heap) text acts r r' :
  deref h (Reporter.ruleset r) = deref h' (Reporter.ruleset r') ->
  like r r' ->
  like (CSSLint.parse_and_catch parse h text acts r)
       (CSSLint.parse_and_catch parse h' text acts r') /\
  Reporter.ruleset (CSSLint.parse_and_catch parse h text acts r)
    = Reporter.ruleset r /\
  Reporter.ruleset (CSSLint.parse_and_catch parse h' text acts r')
    = Reporter.ruleset r'.
Proof.
  intros Hd Hl. unfold CSSLint.parse_and_catch.
  destruct (parse text) as [evs ex]. rewrite !fire_all_eq.
  destruct (perform_all_like h h' (fst (made (fst (trace evs acts)))) r r' Hd Hl)
    as ((Hm & Hs & Hn & Hli & Ha & Hi) & E & E').
  destruct (or_exn _ (snd (trace evs acts))) as [x|]; [|destruct ex as [x|]];
    unfold like, Reporter.error, Reporter.push, Reporter.evidence_at; simpl;
    by rewrite ?Hm, ?Hs, ?Hn, ?Hli, ?Ha, ?Hi.
Qed.
End run_facts.

(** ** [verify] *)

Section verify_facts.
Context {event : Type} (parse : string -> list event * option exn).
Implicit Types (w : World event) (a b : Message.t event).

Lemma verify_eq text ruleset w :
  CSSLint.verify parse text ruleset w =
    match CSSLint.collect parse text ruleset w with
    | (inl e, w') => (inl e, w')
    | (inr reporter, w') =>
        (inr {| Report.messages :=
                  JS.sort CSSLint.by_line (Reporter.messages reporter);
                Report.stats := Reporter.stats reporter;
                Report.stats_length := Reporter.stats_length reporter;
                Report.ruleset := Reporter.ruleset reporter;
                Report.allow := Reporter.allow reporter;
                Report.ignore := Reporter.ignore reporter |}, w')
    end.
Proof.
  unfold CSSLint.verify, bind.
  by destruct (CSSLint.collect parse text ruleset w) as [[e|reporter] w'].
Qed.

Lemma collect_eq text ruleset w :
  CSSLint.collect parse text ruleset w =
    match CSSLint.setup text ruleset w with
    | (inl e, w') => (inl e, w')
    | (inr reporter, w') =>
        match CSSLint.init_rules (rules w') (rulesById w')
                (deref (objects w') (Reporter.ruleset reporter)) with
        | inl x => (inl x, w')
        | inr acts =>
            (inr (CSSLint.parse_and_catch parse (objects w') text acts reporter),
             w')
        end
    end.
Proof.
  unfold CSSLint.collect, bind, lift, get_world, ret.
  destruct (CSSLint.setup text ruleset w) as [[e|reporter] w']; [done|].
  by destruct (CSSLint.init_rules _ _ _).
Qed.

Lemma verify_world text ruleset w :
  snd (CSSLint.verify parse text ruleset w) = snd (CSSLint.setup text ruleset w).
Proof.
  rewrite verify_eq, collect_eq.
  destruct (CSSLint.setup text ruleset w) as [[e|reporter] w']; [done|].
  by destruct (CSSLint.init_rules _ _ _).
Qed.

#[local] Instance msg_le_trans : Transitive (@msg_le event).
Proof.
  intros a b c [R1 L1] [R2 L2]. split; [lia|].
  intros x z Ha Hc Hx Hz.
  assert (rank a = 0%nat) as Ra by (unfold rank; by rewrite Ha, Hx).
  assert (rank c = 0%nat) as Rc by (unfold rank; by rewrite Hc, Hz).
  assert (rank b = 0%nat) as Rb by lia.
  unfold rank in Rb.
  destruct (Message.rollup b) eqn:Hb; [done|].
  destruct (Message.line b) as [y|] eqn:Hy; [|done].
  specialize (L1 x y Ha eq_refl Hx eq_refl).
  specialize (L2 y z eq_refl Hc eq_refl Hz). lia.
Qed.

(** A rollup or a message with a line is compared consistently with every
    message. *)
Lemma by_line_agrees a b : positioned a -> agrees CSSLint.by_line msg_le a b.
Proof.
  unfold positioned, agrees, JS.sortCompare, CSSLint.by_line, msg_le, rank.
  destruct (Message.rollup a), (Message.rollup b),
    (Message.line a) as [x|], (Message.line b) as [y|];
    simpl; intros Hp; try done; try (by destruct Hp);
    (split; intros Hc; try lia; (split; [lia|]));
    intros ? ? ? ? [= <-] [= <-]; try done; lia.
Qed.

Lemma emitted_agree (ms fatal : list (Message.t event)) :
  Forall positioned ms ->
  (fatal = [] \/ exists m, fatal = [m] /\ Message.rollup m = false) ->
  StronglySorted (agrees CSSLint.by_line msg_le) (ms ++ fatal).
Proof.
  intros Hms Hf. induction Hms as [|m ms Hm Hms IH]; simpl.
  - destruct Hf as [->|(m & -> & _)]; repeat constructor.
  - constructor; [done|]. apply Forall_forall. intros b _.
    by apply by_line_agrees.
Qed.

Lemma StronglySorted_lookup {A} (R : relation A) (l : list A) i j x y :
  StronglySorted R l -> (i < j)%nat ->
  l !! i = Some x -> l !! j = Some y -> R x y.
Proof.
  intros Hl. revert i j. induction Hl as [|z l Hl IH Hz]; intros i j Hij Hi Hj.
  { done. }
  destruct j as [|j]; [lia|]. destruct i as [|i]; simpl in *.
  - injection Hi as ->. rewrite Forall_forall in Hz. apply Hz.
    by eapply list_elem_of_lookup_2.
  - eapply IH; [|done..]. lia.
Qed.

Lemma collect_messages text ruleset w reporter w' :
  CSSLint.collect parse text ruleset w = (inr reporter, w') ->
  exists ms fatal,
    Reporter.messages reporter = ms ++ fatal /\
    Forall positioned ms /\
    (fatal = [] \/ exists m, fatal = [m] /\ Message.rollup m = false).
Proof.
  rewrite collect_eq.
  destruct (CSSLint.setup text ruleset w) as [[e|r0] w0] eqn:Hs; [done|].
  destruct (CSSLint.init_rules _ _ _) as [x|acts0]; [done|].
  intros [= <- <-]. apply setup_reporter in Hs as [l ->].
  match goal with |- context [CSSLint.parse_and_catch parse ?h ?t ?acts ?r] =>
    destruct (parse_and_catch_messages parse h t acts r) as (ms & fatal & E & H)
  end.
  by exists ms, fatal.
Qed.

(** C1.  In the messages of a report no message that is not a rollup stands
    behind a rollup, and the lines of the non-rollup messages never
    decrease.  The messages are those that the run emitted, and the sort is
    stable: the non-rollup messages of one line, and the rollups, stand in
    the order in which they were emitted. *)
Theorem verify_messages_sorted text ruleset w report w' :
  CSSLint.verify parse text ruleset w = (inr report, w') ->
  exists reporter,
    CSSLint.collect parse text ruleset w = (inr reporter, w') /\
    Report.messages report ≡ₚ Reporter.messages reporter /\
    (forall i j a b,
        (i < j)%nat ->
        Report.messages report !! i = Some a ->
        Report.messages report !! j = Some b ->
        Message.rollup a = true -> Message.rollup b = true) /\
    (forall i j a b x y,
        (i < j)%nat ->
        Report.messages report !! i = Some a ->
        Report.messages report !! j = Some b ->
        Message.rollup a = false -> Message.rollup b = false ->
        Message.line a = Some x -> Message.line b = Some y -> x <= y) /\
    (forall n,
        List.filter (at_line n) (Report.messages report)
        = List.filter (at_line n) (Reporter.messages reporter)) /\
    List.filter Message.rollup (Report.messages report)
    = List.filter Message.rollup (Reporter.messages reporter).
Proof.
  rewrite verify_eq.
  destruct (CSSLint.collect parse text ruleset w) as [[e|reporter] w0] eqn:Hc;
    [done|].
  intros [= <- <-]. exists reporter. simpl.
  destruct (collect_messages _ _ _ _ _ Hc) as (ms & fatal & E & Hms & Hf).
  assert (Hsorted : StronglySorted msg_le
            (JS.sort CSSLint.by_line (Reporter.messages reporter))).
  { apply sort_sorted; [apply _|]. rewrite E. by apply emitted_agree. }
  split_and!; [done|apply sort_perm|..].
  - intros i j a b Hij Ha Hb Hra.
    destruct (StronglySorted_lookup _ _ _ _ _ _ Hsorted Hij Ha Hb) as [Hr _].
    unfold rank in Hr. rewrite Hra in Hr.
    destruct (Message.rollup b); [done|].
    destruct (Message.line b); lia.
  - intros i j a b x y Hij Ha Hb Hra Hrb Hx Hy.
    destruct (StronglySorted_lookup _ _ _ _ _ _ Hsorted Hij Ha Hb) as [_ Hl].
    by apply Hl.
  - intros n. apply sort_filter. intros a b _ _ Ha Hb.
    unfold at_line in Ha, Hb.
    apply andb_true_iff in Ha as [Ra La%bool_decide_eq_true].
    apply andb_true_iff in Hb as [Rb Lb%bool_decide_eq_true].
    apply negb_true_iff in Ra, Rb.
    unfold JS.sortCompare, CSSLint.by_line. rewrite Ra, Rb, La, Lb. simpl. lia.
  - assert (Hroll : forall m, m ∈ Reporter.messages reporter ->
                      Message.rollup m = true -> Message.line m = None).
    { intros m Hm Hr. rewrite E in Hm. apply elem_of_app in Hm as [Hm|Hm].
      - rewrite Forall_forall in Hms. specialize (Hms m Hm).
        unfold positioned in Hms. by rewrite Hr in Hms.
      - destruct Hf as [->|(m' & -> & Hm')]; [by apply not_elem_of_nil in Hm|].
        apply list_elem_of_singleton in Hm as ->. congruence. }
    apply sort_filter. intros a b Ia Ib Ha Hb.
    unfold JS.sortCompare, CSSLint.by_line.
    rewrite Ha, Hb, (Hroll a Ia Ha). simpl. lia.
Qed.
End verify_facts.

(** ** Objects *)

Lemma obj_get_set_eq {V} (k : string) (v : V) (o : obj V) :
  obj_get k (obj_set k v o) = Some v.
Proof.
  induction o as [|[k' v'] o IH]; simpl.
  { by rewrite String.eqb_refl. }
  destruct (String.eqb k' k) eqn:E; simpl; by rewrite E.
Qed.

Lemma obj_get_set_ne {V} (k k0 : string) (v : V) (o : obj V) :
  k0 <> k -> obj_get k0 (obj_set k v o) = obj_get k0 o.
Proof.
  intros Hne. induction o as [|[k' v'] o IH]; simpl.
  { destruct (String.eqb k k0) eqn:E; [|done].
    apply String.eqb_eq in E. congruence. }
  destruct (String.eqb k' k) eqn:E; simpl.
  - apply String.eqb_eq in E as ->.
    destruct (String.eqb k k0) eqn:E0; [|done].
    apply String.eqb_eq in E0. congruence.
  - by rewrite IH.
Qed.

Lemma obj_set_fresh {V} (k : string) (v : V) (o : obj V) :
  k ∉ obj_keys o -> obj_set k v o = o ++ [(k, v)].
Proof.
  induction o as [|[k' v'] o IH]; simpl; [done|].
  intros Hk. apply not_elem_of_cons in Hk as [Hne Hk].
  destruct (String.eqb k' k) eqn:E.
  { apply String.eqb_eq in E. congruence. }
  by rewrite IH.
Qed.

(** [Object.assign({}, o)] is a copy of [o], key order included. *)
Lemma obj_assign_copy {V} (o : obj V) :
  NoDup (obj_keys o) -> obj_assign [] o = o.
Proof.
  intros Hnd. unfold obj_assign.
  assert (H : forall t, NoDup (obj_keys (t ++ o)) ->
            fold_left (fun t kv => obj_set (fst kv) (snd kv) t) o t = t ++ o).
  { clear Hnd. induction o as [|[k v] o IH]; intros t Hnd; simpl.
    { by rewrite app_nil_r. }
    unfold obj_keys in Hnd. rewrite map_app in Hnd. simpl in Hnd.
    apply NoDup_app in Hnd as (Ht & Hd & Ho).
    rewrite obj_set_fresh.
    - rewrite IH; [by rewrite <- app_assoc|].
      unfold obj_keys. rewrite <- app_assoc, map_app. simpl.
      apply NoDup_app. done.
    - intros Hin. apply (Hd k Hin). by left. }
  by apply (H []).
Qed.

(** ** The rules that [verify] initialises *)

Section init_facts.
Context {event : Type}.
Implicit Types (rs : list (Rule.t event)) (named : gmap string (Rule.t event)).


Lemma init_keys_inr rs named o ids acts :
  CSSLint.init_keys rs named o ids = inr acts ->
  acts = omap (init_of rs named o) ids.
Proof.
  revert acts. induction ids as [|id ids IH]; intros acts; simpl.
  { by intros [= <-]. }
  unfold init_of at 1.
  destruct (obj_get id o) as [[|p|p]|]; try by apply IH.
  all: destruct (CSSLint.array_get rs named id); try done; try by apply IH.
  all: destruct (CSSLint.init_keys rs named o ids) as [x|acts0]; [done|];
    intros [= <-]; by rewrite (IH acts0).
Qed.

(** The keys that read a named property of [rules] find the same, whatever
    the elements are. *)
Lemma init_keys_elements rs rs' named o ids :
  (forall id v, id ∈ ids -> obj_get id o = Some v -> v <> 0 ->
                array_index id = None /\ id <> "length") ->
  CSSLint.init_keys rs named o ids = CSSLint.init_keys rs' named o ids.
Proof.
  induction ids as [|id ids IH]; intros H; simpl; [done|].
  rewrite IH by (intros id' v Hin; apply H; by right).
  destruct (obj_get id o) as [v|] eqn:E; [|done].
  destruct (decide (v = 0)) as [->|Hv]; [done|].
  destruct (H id v) as [Hi Hl]; [by left|done|done|].
  unfold CSSLint.array_get. rewrite Hi.
  apply String.eqb_neq in Hl. by rewrite Hl.
Qed.

Lemma obj_get_elem {V} (k : string) (v : V) (o : obj V) :
  obj_get k o = Some v -> (k, v) ∈ o.
Proof.
  induction o as [|[k' v'] o IH]; simpl; [done|].
  destruct (String.eqb k' k) eqn:E.
  - apply String.eqb_eq in E as ->. intros [= ->]. by left.
  - intros H. right. by apply IH.
Qed.

Lemma obj_get_set {V} (k k0 : string) (v : V) (o : obj V) :
  obj_get k0 (obj_set k v o) = if String.eqb k k0 then Some v else obj_get k0 o.
Proof.
  destruct (String.eqb k k0) eqn:E.
  - apply String.eqb_eq in E as ->. apply obj_get_set_eq.
  - apply String.eqb_neq in E. apply obj_get_set_ne. congruence.
Qed.

Lemma obj_get_assign {V} (k : string) (v : V) (o t : obj V) :
  obj_get k (obj_assign t o) = Some v -> (k, v) ∈ o \/ obj_get k t = Some v.
Proof.
  unfold obj_assign. revert t. induction o as [|[k' v'] o IH]; intros t; simpl.
  { by right. }
  intros H. apply IH in H as [H|H]; [left; by right|].
  rewrite obj_get_set in H. simpl in H.
  destruct (String.eqb k' k) eqn:E; [|by right].
  apply String.eqb_eq in E as ->. injection H as ->. left. by left.
Qed.

Lemma effective_ruleset_elem text (o : obj Z) id v :
  obj_get id (effective_ruleset text o) = Some v ->
  id = "errors" \/ (id, v) ∈ o.
Proof.
  unfold effective_ruleset.
  destruct (0 <=? CSSLint.embedded_cursor text); rewrite obj_get_set;
    (destruct (String.eqb "errors" id) eqn:E;
       [apply String.eqb_eq in E; by left|]); intros H; right.
  - by apply obj_get_assign in H as [H|H].
  - by apply obj_get_elem.
Qed.

Lemma no_array_key_spec (o : obj Z) id v :
  no_array_key o = true -> (id, v) ∈ o -> v <> 0 ->
  array_index id = None /\ id <> "length".
Proof.
  unfold no_array_key. rewrite forallb_forall.
  intros H Hin Hv. specialize (H (id, v) (proj1 (list_elem_of_In _ _) Hin)).
  simpl in H. apply orb_true_iff in H as [H|H%Z.eqb_eq]; [|done].
  apply negb_true_iff, orb_false_iff in H as [H1%bool_decide_eq_false H2].
  split.
  - destruct (array_index id); [|done]. exfalso. by apply H1.
  - by apply String.eqb_neq.
Qed.

Lemma no_element_key_spec (o : obj Z) id v :
  no_element_key o = true -> (id, v) ∈ o -> v <> 0 -> array_index id = None.
Proof.
  unfold no_element_key. rewrite forallb_forall.
  intros H Hin Hv. specialize (H (id, v) (proj1 (list_elem_of_In _ _) Hin)).
  simpl in H. apply orb_true_iff in H as [H|H%Z.eqb_eq]; [|done].
  apply negb_true_iff, bool_decide_eq_false in H.
  destruct (array_index id); [|done]. exfalso. by apply H.
Qed.

(** With a ruleset that enables no index and not ['length'], the rules
    that [verify] initialises do not depend on the elements of [rules]. *)
Lemma init_rules_elements text rs rs' named (o : obj Z) :
  no_array_key o = true ->
  CSSLint.init_rules rs named (effective_ruleset text o)
  = CSSLint.init_rules rs' named (effective_ruleset text o).
Proof.
  intros Hk. unfold CSSLint.init_rules. apply init_keys_elements.
  intros id v _ Hg Hv.
  apply effective_ruleset_elem in Hg as [->|Hin]; [done|].
  by eapply no_array_key_spec.
Qed.
End init_facts.

(** ** [verify] and the ruleset of its caller *)

Section caller_facts.
Context {event : Type} (parse : string -> list event * option exn).
Implicit Types (w : World event) (o : obj Z).

Lemma obj_set_idem {V} (k : string) (v : V) (o : obj V) :
  obj_set k v (obj_set k v o) = obj_set k v o.
Proof.
  induction o as [|[k' v'] o IH]; simpl.
  { by rewrite String.eqb_refl. }
  destruct (String.eqb k' k) eqn:E; simpl; rewrite E; [done|]. by rewrite IH.
Qed.

Lemma verify_registry text ruleset w :
  rules (snd (CSSLint.verify parse text ruleset w)) = rules w /\
  rulesById (snd (CSSLint.verify parse text ruleset w)) = rulesById w.
Proof.
  rewrite verify_world.
  destruct ruleset as [l|]; [|rewrite setup_default];
    match goal with |- context [CSSLint.setup text (Some ?l) ?w0] =>
      destruct (CSSLint.setup text (Some l) w0) as [res w'] eqn:Hs;
      apply setup_spec in Hs as (Hr & Hb & _) end; simpl; by rewrite Hr, Hb.
Qed.

Lemma caller_object_after text l w o :
  objects w !! l = Some o ->
  objects (snd (CSSLint.verify parse text (Some l) w)) !! l
  = Some (if 0 <=? CSSLint.embedded_cursor text then o
          else obj_set "errors" 2 o).
Proof.
  intros Hl. rewrite verify_world.
  destruct (CSSLint.setup text (Some l) w) as [res w'] eqn:Hs.
  apply setup_spec in Hs as (_ & _ & Hs). simpl.
  assert (l < List.length (objects w))%nat by by eapply lookup_lt_Some.
  destruct (0 <=? CSSLint.embedded_cursor text).
  - destruct (loop_throws _ _ _); destruct Hs as [_ ->];
      by rewrite lookup_app_l.
  - destruct Hs as [_ ->]. rewrite list_lookup_insert_eq by done.
    by rewrite (deref_lookup _ _ _ Hl).
Qed.

(** C2, as the code has it.  When the text has a comment that looks like a
    directive (the cursor is not negative), [verify] works on a clone and
    the object of the caller is the same after the call, also when the call
    throws; when it has none, [verify] writes [errors = 2] to the object of
    the caller and changes nothing else in it. *)
Theorem verify_caller_ruleset text l w o :
  objects w !! l = Some o ->
  (0 <= CSSLint.embedded_cursor text ->
     objects (snd (CSSLint.verify parse text (Some l) w)) !! l = Some o) /\
  (CSSLint.embedded_cursor text < 0 ->
     objects (snd (CSSLint.verify parse text (Some l) w)) !! l
     = Some (obj_set "errors" 2 o)).
Proof.
  intros Hl. rewrite (caller_object_after text l w o Hl).
  split; intros Hc.
  - apply Z.leb_le in Hc. by rewrite Hc.
  - apply Z.leb_gt in Hc. by rewrite Hc.
Qed.

(** A run on the heap [h] with the ruleset at [lo] shows what the run on
    the one-object heap shows. *)
Lemma run_outcome text (h : heap) lo acts oe :
  deref h lo = oe ->
  let r := CSSLint.parse_and_catch parse h text acts
             (Reporter.new [] lo ∅ []) in
  (JS.sort CSSLint.by_line (Reporter.messages r),
   (Reporter.stats r, Reporter.stats_length r),
   deref h (Reporter.ruleset r), Reporter.allow r, Reporter.ignore r)
  = outcome parse text acts oe.
Proof.
  intros Hoe r. unfold outcome.
  destruct (parse_and_catch_like parse h [oe] text acts
              (Reporter.new [] lo ∅ []) (Reporter.new [] 0%nat ∅ []))
    as ((Hm & Hst & Hn & _) & _).
  { simpl. by rewrite Hoe. }
  { by repeat split. }
  destruct (parse_and_catch_config parse h text acts
              (Reporter.new [] lo ∅ [])) as (E1 & _ & E3 & E4).
  subst r. rewrite Hm, Hst, Hn, E1, E3, E4. simpl. by rewrite Hoe.
Qed.

(** What the caller sees of a call of [verify] is a function of the text,
    the content of the ruleset and the registry. *)
Lemma verify_observe text l w o :
  objects w !! l = Some o ->
  observe (CSSLint.verify parse text (Some l) w)
  = if extractor_throws text
    then inl (TypeError "cmd.trim is not a function")
    else run_outcome_of parse text (rules w) (rulesById w)
           (effective_ruleset text o).
Proof.
  intros Hl. unfold observe, extractor_throws, effective_ruleset, run_outcome_of.
  rewrite verify_eq, collect_eq.
  assert (l < List.length (objects w))%nat by by eapply lookup_lt_Some.
  destruct (CSSLint.setup text (Some l) w) as [res w'] eqn:Hs.
  apply setup_spec in Hs as (Hr & Hb & Hs).
  rewrite (deref_lookup _ _ _ Hl) in Hs.
  destruct (0 <=? CSSLint.embedded_cursor text); simpl.
  - destruct (loop_throws _ _ _); destruct Hs as [-> Ho]; simpl; [done|].
    rewrite Hr, Hb, Ho, deref_alloc.
    destruct (CSSLint.init_rules _ _ _) as [x|acts]; simpl; [done|].
    rewrite Ho. f_equal.
    apply (run_outcome text _ _ _ _ (deref_alloc _ _)).
  - destruct Hs as [-> Ho]. simpl. rewrite Hr, Hb, Ho.
    assert (Hd : deref (<[l:=obj_set "errors" 2 o]> (objects w)) l
                 = obj_set "errors" 2 o).
    { unfold deref. by rewrite list_lookup_insert_eq. }
    rewrite Hd.
    destruct (CSSLint.init_rules _ _ _) as [x|acts]; simpl; [done|].
    rewrite Ho. f_equal.
    apply (run_outcome text _ _ _ _ Hd).
Qed.

Lemma verify_default text w :
  CSSLint.verify parse text None w =
    CSSLint.verify parse text (Some (List.length (objects w)))
      {| lastIndex := lastIndex w; rules := rules w; rulesById := rulesById w;
         objects := objects w ++ [default_ruleset (rules w)] |}.
Proof. reflexivity. Qed.

Lemma verify_observe_default text w :
  observe (CSSLint.verify parse text None w)
  = if extractor_throws text
    then inl (TypeError "cmd.trim is not a function")
    else run_outcome_of parse text (rules w) (rulesById w)
           (effective_ruleset text (default_ruleset (rules w))).
Proof.
  rewrite verify_default.
  rewrite (verify_observe text _ _ (default_ruleset (rules w))); [done|].
  simpl. rewrite lookup_app_r by lia. by rewrite Nat.sub_diag.
Qed.

(** C9.  What a caller sees of [verify(text, ruleset)] (the exception, or
    the messages in order, the statistics, the content of the ruleset, the
    allow map and the ignore ranges) is the same
    - for any two states of the engine with the same array [rules], its
      elements and its named properties, whatever the cursor of
      [RX_EMBEDDED] and the heap are, given rulesets of the same content;
    - for a second call made right after the first with the same ruleset
      object;
    - for a second call made right after the first with no ruleset;
    - for any two states with the same named properties of [rules],
      whatever its elements are, given rulesets of the same content that
      enable no key that is the name of an index or ['length']. *)
Theorem verify_deterministic text :
  (forall w1 w2 l1 l2 o,
      rules w1 = rules w2 -> rulesById w1 = rulesById w2 ->
      objects w1 !! l1 = Some o -> objects w2 !! l2 = Some o ->
      observe (CSSLint.verify parse text (Some l1) w1)
      = observe (CSSLint.verify parse text (Some l2) w2)) /\
  (forall w l o,
      objects w !! l = Some o ->
      observe (CSSLint.verify parse text (Some l)
                 (snd (CSSLint.verify parse text (Some l) w)))
      = observe (CSSLint.verify parse text (Some l) w)) /\
  (forall w,
      observe (CSSLint.verify parse text None
                 (snd (CSSLint.verify parse text None w)))
      = observe (CSSLint.verify parse text None w)) /\
  (forall w1 w2 l1 l2 o,
      rulesById w1 = rulesById w2 -> no_array_key o = true ->
      objects w1 !! l1 = Some o -> objects w2 !! l2 = Some o ->
      observe (CSSLint.verify parse text (Some l1) w1)
      = observe (CSSLint.verify parse text (Some l2) w2)).
Proof.
  split_and!.
  - intros w1 w2 l1 l2 o Hr Hb H1 H2.
    by rewrite (verify_observe _ _ _ _ H1), (verify_observe _ _ _ _ H2), Hr, Hb.
  - intros w l o Hl.
    rewrite (verify_observe _ _ _ _ (caller_object_after text l w o Hl)).
    rewrite (verify_observe _ _ _ _ Hl).
    destruct (verify_registry text (Some l) w) as [-> ->].
    unfold effective_ruleset.
    destruct (0 <=? CSSLint.embedded_cursor text); [done|].
    by rewrite obj_set_idem.
  - intros w. rewrite !verify_observe_default.
    by destruct (verify_registry text None w) as [-> ->].
  - intros w1 w2 l1 l2 o Hb Hk H1 H2.
    rewrite (verify_observe _ _ _ _ H1), (verify_observe _ _ _ _ H2), Hb.
    unfold run_outcome_of.
    by rewrite (init_rules_elements text (rules w1) (rules w2)).
Qed.
End caller_facts.

(** ** The worker *)

Section worker_facts.
Context {event : Type} (parse : string -> list event * option exn).

Lemma includes_spec (s needle : string) :
  needle <> EmptyString -> JS.includes s needle = true <-> contains s needle.
Proof.
  intros Hne. unfold JS.includes, JS.indexOf, contains.
  change (Z.to_nat (Z.max 0 0)) with 0%nat.
  destruct (String.index 0 needle s) as [k|] eqn:E.
  - split; [|intros _; apply Z.leb_le; lia].
    intros _. exists k. by eapply String.index_correct1.
  - split; [done|]. intros [k Hk]. exfalso.
    eapply (String.index_correct3 0 k); [exact E|done|lia|exact Hk].
Qed.

(** C10.  The ['run'] action posts a list of messages and nothing else of
    the report: the messages of the report of [verify], in their order,
    without those whose text contains ["/*[["] or ["]]*/"]; every posted
    message has, as its rule, an object with the id of the rule only, and
    is otherwise as it was. *)
Theorem run_posts_filtered_messages code config w posted w' :
  Worker.run parse code config w = (inr posted, w') ->
  exists ruleset w0 report keep,
    CSSLint.verify parse code ruleset w0 = (inr report, w') /\
    (forall m : Message.t event,
        keep m = true <->
        ~ contains (Message.message m) "/*[[" /\
        ~ contains (Message.message m) "]]*/") /\
    posted = map Worker.id_only (List.filter keep (Report.messages report)) /\
    (forall m : Message.t event,
        Message.rule (Worker.id_only m) = PlainObj (rule_id (Message.rule m)) /\
        Message.type (Worker.id_only m) = Message.type m /\
        Message.evidence (Worker.id_only m) = Message.evidence m /\
        Message.line (Worker.id_only m) = Message.line m /\
        Message.col (Worker.id_only m) = Message.col m /\
        Message.message (Worker.id_only m) = Message.message m /\
        Message.rollup (Worker.id_only m) = Message.rollup m).
Proof.
  unfold Worker.run. unfold bind at 1.
  destruct config as [o|].
  - unfold bind at 1. unfold alloc at 1. unfold bind at 1, get_world at 1.
    unfold bind at 1, set_objects at 1, ret at 1, ret at 1. cbn [objects].
    unfold bind at 1.
    match goal with |- context [CSSLint.verify parse code ?rs ?w0] =>
      destruct (CSSLint.verify parse code rs w0) as [[e|report] w1] eqn:Hv;
      [done|]; intros [= <- <-]; exists rs, w0, report end.
    eexists. split_and!; [done| |reflexivity|done].
    intros m. rewrite andb_true_iff, !negb_true_iff.
    rewrite <- !not_true_iff_false, !includes_spec by done. done.
  - unfold ret at 1. unfold bind at 1.
    match goal with |- context [CSSLint.verify parse code ?rs ?w0] =>
      destruct (CSSLint.verify parse code rs w0) as [[e|report] w1] eqn:Hv;
      [done|]; intros [= <- <-]; exists rs, w0, report end.
    eexists. split_and!; [done| |reflexivity|done].
    intros m. rewrite andb_true_iff, !negb_true_iff.
    rewrite <- !not_true_iff_false, !includes_spec by done. done.
Qed.
End worker_facts.

(** ** Ignore ranges *)

Section ignore_facts.
Context {event : Type} (parse : string -> list event * option exn).

(** The reporter of a run is built with an empty allow map and no ignore
    range, and no call changes them. *)
Lemma verify_tables text ruleset (w : World event) report w' :
  CSSLint.verify parse text ruleset w = (inr report, w') ->
  Report.allow report = ∅ /\ Report.ignore report = [].
Proof.
  rewrite verify_eq, collect_eq.
  destruct (CSSLint.setup text ruleset w) as [[x|reporter] w0] eqn:Hs; [done|].
  destruct (CSSLint.init_rules _ _ _) as [x|acts]; [done|].
  intros [= <- <-]. simpl.
  apply setup_reporter in Hs as [l ->].
  match goal with |- context [CSSLint.parse_and_catch parse ?h ?t ?acts ?r] =>
    destruct (parse_and_catch_config parse h t acts r) as (_ & _ & -> & ->)
  end.
  done.
Qed.
End ignore_facts.

(** ** The engine on sample inputs *)

(** C6.  No severity directive is ever applied.  For every text the
    extractor leaves every ruleset object as it was.  On the directive
    [important:false] of a first line, the loop body has [cmd] the
    one-element array that [split] returned, reaches [cmd.trim()] and
    throws: [verify] returns no report, and the clone of the ruleset still
    has ['important'] at [1].  On a later line the directive is skipped by
    the [continue] of the loop, and the finding is reported at the severity
    of the caller. *)
Theorem severity_directive_never_applied :
  (forall (event : Type) text (ruleset : loc) allow0 ignore0 (w : World event),
      objects (snd (CSSLint.applyEmbeddedOverrides text ruleset allow0 ignore0 w))
      = objects w) /\
  RX.matches "/* csslint important:false */" 0
  = [{| RX.index := 0; RX.group1 := "important:false "; RX.endIndex := 29 |}] /\
  JS.split (JS.toLowerCase "important:false ") ":" (Some 1%nat) = ["important"] /\
  fst (CSSLint.verify (Sample.fires [] None) "/* csslint important:false */"
         (Some 0%nat) (Sample.world [("important", 1)]))
  = inl (TypeError "cmd.trim is not a function") /\
  objects (snd (CSSLint.verify (Sample.fires [] None)
                  "/* csslint important:false */"
                  (Some 0%nat) (Sample.world [("important", 1)])))
  = [[("important", 1)]; [("important", 1)]] /\
  summary
    (CSSLint.verify (Sample.fires Sample.second_line_events None)
       (Sample.second_line "/* csslint important:false */")
       (Some 0%nat) (Sample.world [("important", 1)]))
  = inr ([("warning", Some 2, "Use of !important", Some "important", false)],
         [("important", 1)], [("important", 1); ("errors", 2)], ∅, []).
Proof.
  split_and!; [|vm_compute; reflexivity..].
  intros event text ruleset allow0 ignore0 w.
  by destruct (applyEmbeddedOverrides_inert text ruleset allow0 ignore0 w)
    as [(_ & _ & ?) _].
Qed.

(** C7.  No allow directive is ever recorded.  For every text, the allow map
    that the extractor returns is the allow map it was given.  [verify] on
    an allow directive of the first line throws the [TypeError] of
    [cmd.trim()]; on a later line the directive is skipped, the allow map of
    the report is empty and the finding of the allowed rule is reported. *)
Theorem allow_directive_never_recorded :
  (forall (event : Type) text (ruleset : loc) allow0 ignore0 (w : World event)
          res w',
      CSSLint.applyEmbeddedOverrides text ruleset allow0 ignore0 w = (inr res, w') ->
      fst res = allow0) /\
  RX.matches "/* csslint allow:important */ a { color: red !important; }" 0
  = [{| RX.index := 0; RX.group1 := "allow:important "; RX.endIndex := 29 |}] /\
  fst (CSSLint.verify (Sample.fires [] None)
         "/* csslint allow:important */ a { color: red !important; }"
         (Some 0%nat) (Sample.world [("important", 1)]))
  = inl (TypeError "cmd.trim is not a function") /\
  summary
    (CSSLint.verify (Sample.fires Sample.second_line_events None)
       (Sample.second_line "/* csslint allow:important */")
       (Some 0%nat) (Sample.world [("important", 1)]))
  = inr ([("warning", Some 2, "Use of !important", Some "important", false)],
         [("important", 1)], [("important", 1); ("errors", 2)], ∅, []).
Proof.
  split_and!; [|vm_compute; reflexivity..].
  intros event text ruleset allow0 ignore0 w res w' H.
  destruct (applyEmbeddedOverrides_inert text ruleset allow0 ignore0 w)
    as [_ Hres].
  rewrite H in Hres. simpl in Hres.
  destruct (loop_throws _ _ _); [done|]. by injection Hres as ->.
Qed.

(** C8.  No ignore range is ever produced, so none is reconciled with the
    lines of the findings and no finding is suppressed by one.  For every
    text, the ignore ranges that the extractor returns are the ranges it
    was given, and the report of every run has no ignore range.  [verify]
    on an [ignore:start] directive of the first line throws the
    [TypeError] of [cmd.trim()].  In [wrapped] the directives stand on the
    lines 2 and 4: [RX_EMBEDDED] matches both, the loop skips both, and the
    finding of line 3, inside the span, is reported. *)
Theorem ignore_directive_never_recorded :
  (forall (event : Type) text (ruleset : loc) allow0 ignore0 (w : World event)
          res w',
      CSSLint.applyEmbeddedOverrides text ruleset allow0 ignore0 w = (inr res, w') ->
      snd res = ignore0) /\
  (forall (event : Type) parse text ruleset (w : World event) report w',
      CSSLint.verify parse text ruleset w = (inr report, w') ->
      Report.ignore report = []) /\
  fst (CSSLint.verify (Sample.fires [] None)
         "/* csslint ignore:start */ a { color: red !important; }"
         (Some 0%nat) (Sample.world [("important", 1)]))
  = inl (TypeError "cmd.trim is not a function") /\
  JS.split Sample.wrapped (ascii_of_nat 10) None
  = [EmptyString; "/* csslint ignore:start */"; "a { color: red !important; }";
     "/* csslint ignore:end */"] /\
  map RX.group1
    (RX.matches Sample.wrapped (CSSLint.embedded_cursor Sample.wrapped))
  = ["ignore:start "; "ignore:end "] /\
  summary
    (CSSLint.verify (Sample.fires Sample.wrapped_events None) Sample.wrapped
       (Some 0%nat) (Sample.world [("important", 1)]))
  = inr ([("warning", Some 3, "Use of !important", Some "important", false)],
         [("important", 1)], [("important", 1); ("errors", 2)], ∅, []).
Proof.
  split_and!; [| |vm_compute; reflexivity..].
  - intros event text ruleset allow0 ignore0 w res w' H.
    destruct (applyEmbeddedOverrides_inert text ruleset allow0 ignore0 w)
      as [_ Hres].
    rewrite H in Hres. simpl in Hres.
    destruct (loop_throws _ _ _); [done|]. by injection Hres as ->.
  - intros event parse text ruleset w report w' H.
    by apply verify_tables in H as [_ ?].
Qed.

(** C2 as stated fails: without a directive-looking comment [verify] writes
    [errors = 2] to the object that the caller passed. *)
Lemma verify_writes_to_caller_ruleset :
  objects (Sample.world [("important", 1)]) !! 0%nat = Some [("important", 1)] /\
  objects (snd (CSSLint.verify (Sample.fires [] None) "a { color: red; }"
                  (Some 0%nat) (Sample.world [("important", 1)]))) !! 0%nat
  = Some [("important", 1); ("errors", 2)].
Proof. split; vm_compute; reflexivity. Qed.

(** ** The theorems at sample inputs *)

(** The report of [sheet]: the finding of line 2 was emitted after the one
    of line 3, the two findings of line 6 stay in their order, the rollup is
    last. *)
Lemma verify_messages_sorted_witness :
  match fst (CSSLint.verify (Sample.fires Sample.sheet_events None)
               Sample.sheet (Some 0%nat) (Sample.world Sample.sheet_ruleset)) with
  | inl _ => False
  | inr report =>
      map (fun m => (Message.line m, Message.col m, Message.rollup m))
          (Report.messages report)
      = [(Some 1, Some 1, false); (Some 2, Some 1, false);
         (Some 3, Some 9, false); (Some 6, Some 3, false);
         (Some 6, Some 26, false); (Some 7, Some 3, false);
         (Some 8, Some 3, false); (Some 9, Some 3, false);
         (Some 10, Some 3, false); (Some 11, Some 3, false);
         (Some 12, Some 3, false); (Some 13, Some 3, false);
         (Some 14, Some 3, false); (None, None, true)] /\
      (forall i j a b,
          (i < j)%nat ->
          Report.messages report !! i = Some a ->
          Report.messages report !! j = Some b ->
          Message.rollup a = true -> Message.rollup b = true) /\
      (forall i j a b x y,
          (i < j)%nat ->
          Report.messages report !! i = Some a ->
          Report.messages report !! j = Some b ->
          Message.rollup a = false -> Message.rollup b = false ->
          Message.line a = Some x -> Message.line b = Some y -> x <= y)
  end.
Proof.
  destruct (CSSLint.verify (Sample.fires Sample.sheet_events None)
              Sample.sheet (Some 0%nat) (Sample.world Sample.sheet_ruleset))
    as [[e|report] w'] eqn:Hv; cbn [fst].
  - vm_compute in Hv. discriminate Hv.
  - destruct (verify_messages_sorted _ _ _ _ _ _ Hv)
      as (reporter & _ & _ & H1 & H2 & _).
    split_and!; [|exact H1|exact H2].
    apply (f_equal fst) in Hv. cbn [fst] in Hv.
    vm_compute in Hv. injection Hv as <-. vm_compute. reflexivity.
Defined.

(** With a comment at its head the text leaves the caller's object as it
    was; without one the object gets [errors = 2]. *)
Lemma verify_caller_ruleset_witness :
  objects (snd (CSSLint.verify (Sample.fires [] None) "/* reset */ a {}"
                  (Some 0%nat) (Sample.world [("important", 1)]))) !! 0%nat
  = Some [("important", 1)] /\
  objects (snd (CSSLint.verify (Sample.fires [] None) "a {}"
                  (Some 0%nat) (Sample.world [("important", 1)]))) !! 0%nat
  = Some [("important", 1); ("errors", 2)].
Proof.
  split.
  - apply (verify_caller_ruleset (Sample.fires [] None) "/* reset */ a {}"
             0%nat (Sample.world [("important", 1)]) [("important", 1)]
             eq_refl).
    vm_compute. discriminate.
  - apply (verify_caller_ruleset (Sample.fires [] None) "a {}"
             0%nat (Sample.world [("important", 1)]) [("important", 1)]
             eq_refl).
    vm_compute. reflexivity.
Defined.



(** [verify] on [sheet] twice, with the same ruleset object. *)
Lemma verify_deterministic_witness :
  observe (CSSLint.verify (Sample.fires Sample.sheet_events None) Sample.sheet
             (Some 0%nat)
             (snd (CSSLint.verify (Sample.fires Sample.sheet_events None)
                     Sample.sheet (Some 0%nat)
                     (Sample.world Sample.sheet_ruleset))))
  = observe (CSSLint.verify (Sample.fires Sample.sheet_events None) Sample.sheet
               (Some 0%nat) (Sample.world Sample.sheet_ruleset)).
Proof.
  apply (proj1 (proj2 (verify_deterministic (Sample.fires Sample.sheet_events None)
                         Sample.sheet))
           (Sample.world Sample.sheet_ruleset) 0%nat Sample.sheet_ruleset).
  reflexivity.
Defined.

(** The ['run'] action on [placeholder]: the error that quotes the
    placeholder is not posted. *)
Lemma run_posts_filtered_messages_witness :
  match fst (Worker.run (Sample.fires Sample.placeholder_events None)
               Sample.placeholder (Some [("important", 1)])
               (Sample.world [])) with
  | inl _ => False
  | inr posted =>
      map Message.message posted = ["Use of !important"] /\
      map Message.rule posted = [PlainObj (Some "important")] /\
      exists report keep,
        posted = map Worker.id_only (List.filter keep (Report.messages report)) /\
        forall m : Message.t Sample.event,
          keep m = true <->
          ~ contains (Message.message m) "/*[[" /\
          ~ contains (Message.message m) "]]*/"
  end.
Proof.
  destruct (Worker.run (Sample.fires Sample.placeholder_events None)
              Sample.placeholder (Some [("important", 1)])
              (Sample.world []))
    as [[e|posted] w'] eqn:Hr; cbn [fst].
  - vm_compute in Hr. discriminate Hr.
  - destruct (run_posts_filtered_messages _ _ _ _ _ _ Hr)
      as (ruleset & w0 & report & keep & _ & Hk & Hp & _).
    split_and!; [| |by exists report, keep].
    all: apply (f_equal fst) in Hr; cbn [fst] in Hr; vm_compute in Hr;
      injection Hr as <-; vm_compute; reflexivity.
Defined.

(** * Further properties *)

(** ** Reporter.stat *)

Section stat_facts.
Context {event : Type}.

Lemma obj_get_set_element {V} n (k : string) (v : V) (o : obj V) :
  obj_get k (set_element n k v o) = Some v.
Proof.
  induction o as [|[k' v'] o IH]; simpl.
  { by rewrite String.eqb_refl. }
  destruct (String.eqb k' k) eqn:E; simpl; [by rewrite E|].
  destruct (array_index k') as [m|]; simpl; [|by rewrite String.eqb_refl].
  destruct (n <? m)%N; simpl; [by rewrite String.eqb_refl|].
  by rewrite E.
Qed.

Lemma obj_get_set_element_ne {V} n (k k0 : string) (v : V) (o : obj V) :
  k0 <> k -> obj_get k0 (set_element n k v o) = obj_get k0 o.
Proof.
  intros Hne.
  assert (Hk : String.eqb k k0 = false) by (apply String.eqb_neq; congruence).
  induction o as [|[k' v'] o IH]; simpl.
  { by rewrite Hk. }
  destruct (String.eqb k' k) eqn:E; simpl.
  { apply String.eqb_eq in E as ->. by rewrite Hk. }
  destruct (array_index k') as [m|]; simpl; [|by rewrite Hk].
  destruct (n <? m)%N; simpl; [by rewrite Hk|].
  by rewrite IH.
Qed.

Lemma obj_get_filter {V} (P : string -> bool) (k : string) (o : obj V) :
  obj_get k (List.filter (fun kv => P (fst kv)) o)
  = if P k then obj_get k o else None.
Proof.
  induction o as [|[k' v'] o IH]; simpl; [by destruct (P k)|].
  destruct (String.eqb k' k) eqn:E.
  - apply String.eqb_eq in E as ->.
    destruct (P k) eqn:Hp; simpl; [by rewrite String.eqb_refl|].
    exact IH.
  - destruct (P k'); simpl; by rewrite ?E, IH.
Qed.

Lemma plain_name_spec name :
  plain_name name = true ->
  array_index name = None /\
  String.eqb name "length" = false /\ String.eqb name "__proto__" = false.
Proof.
  unfold plain_name, name_in. simpl.
  intros [H1 H2]%andb_true_iff.
  apply negb_true_iff, bool_decide_eq_false in H1.
  apply negb_true_iff in H2.
  repeat apply orb_false_iff in H2 as [? H2].
  split_and!; try done.
  destruct (array_index name); [|done]. exfalso. by apply H1.
Qed.

Lemma index_not_length name n :
  array_index name = Some n -> String.eqb name "length" = false.
Proof.
  intros H. destruct (String.eqb name "length") eqn:E; [|done].
  apply String.eqb_eq in E as ->. vm_compute in H. discriminate H.
Qed.

Lemma stat_plain (this : Reporter.t event) name value :
  plain_name name = true ->
  Reporter.stat this name value
  = inr (Reporter.with_stats this (obj_set name value (Reporter.stats this))
           (Reporter.stats_length this)).
Proof.
  intros (Hi & Hl & Hp)%plain_name_spec.
  unfold Reporter.stat. by rewrite Hl, Hi, Hp.
Qed.

(** A write under another name leaves what [stats] has under a name that
    it keeps as an object does. *)
Lemma stat_keeps (this : Reporter.t event) name other value :
  plain_name name = true -> other <> name ->
  obj_get name
    (Reporter.stats
       match Reporter.stat this other value with
       | inr this' => this'
       | inl _ => this
       end)
  = obj_get name (Reporter.stats this).
Proof.
  intros (Hi & _ & _)%plain_name_spec Hne. unfold Reporter.stat.
  destruct (String.eqb other "length").
  - destruct ((0 <=? value) && (value <? 4294967296)); [|done]. simpl.
    rewrite (obj_get_filter
               (fun k => match array_index k with
                         | Some n => Z.of_N n <? value
                         | None => true
                         end)).
    by rewrite Hi.
  - destruct (array_index other); simpl.
    + apply obj_get_set_element_ne. congruence.
    + destruct (String.eqb other "__proto__"); [done|]. simpl.
      apply obj_get_set_ne. congruence.
Qed.

(** X1.  [stat(name, value)] writes to the array [stats].  Under a name
    that the array keeps as an object does (no index, not ['length'], not
    ['__proto__']) the statistics have [value] under [name] afterwards, so
    the last write wins, and the other statistics, the length, the messages
    and the rest of the reporter are as before.  Under the name of an index
    the element is set and the length is behind it.  Under ['length'] the
    write throws a [RangeError] when the value is no array length, and
    otherwise removes the elements from that index on. *)
Theorem stat_last_write_wins (this : Reporter.t event) name value :
  (plain_name name = true ->
   exists this',
     Reporter.stat this name value = inr this' /\
     obj_get name (Reporter.stats this') = Some value /\
     (forall other, other <> name ->
        obj_get other (Reporter.stats this')
        = obj_get other (Reporter.stats this)) /\
     Reporter.stats_length this' = Reporter.stats_length this /\
     Reporter.messages this' = Reporter.messages this /\
     same_config this this') /\
  (forall n, array_index name = Some n ->
   exists this',
     Reporter.stat this name value = inr this' /\
     obj_get name (Reporter.stats this') = Some value /\
     (forall other, other <> name ->
        obj_get other (Reporter.stats this')
        = obj_get other (Reporter.stats this)) /\
     Reporter.stats_length this'
     = Z.max (Reporter.stats_length this) (Z.of_N n + 1)) /\
  (~ 0 <= value < 4294967296 ->
   exists x, Reporter.stat this "length" value = inl x /\
             ex_name x = "RangeError") /\
  (0 <= value < 4294967296 ->
   exists this',
     Reporter.stat this "length" value = inr this' /\
     Reporter.stats_length this' = value /\
     forall k,
       obj_get k (Reporter.stats this')
       = match array_index k with
         | Some n =>
             if Z.of_N n <? value then obj_get k (Reporter.stats this)
             else None
         | None => obj_get k (Reporter.stats this)
         end).
Proof.
  split_and!.
  - intros Hp. rewrite (stat_plain _ _ _ Hp). eexists. split; [reflexivity|].
    simpl. split_and!; try done.
    + apply obj_get_set_eq.
    + intros other Hne. by apply obj_get_set_ne.
  - intros n Hn. unfold Reporter.stat.
    rewrite (index_not_length _ _ Hn), Hn.
    eexists. split; [reflexivity|]. simpl. split_and!; try done.
    + apply obj_get_set_element.
    + intros other Hne. by apply obj_get_set_element_ne.
  - intros Hv. unfold Reporter.stat. simpl.
    assert ((0 <=? value) && (value <? 4294967296) = false) as ->.
    { apply andb_false_iff.
      destruct (Z.leb_spec 0 value); [right|by left].
      apply Z.ltb_ge. lia. }
    by eexists.
  - intros Hv. unfold Reporter.stat. simpl.
    assert ((0 <=? value) && (value <? 4294967296) = true) as ->.
    { apply andb_true_iff. split; [apply Z.leb_le|apply Z.ltb_lt]; lia. }
    eexists. split; [reflexivity|]. simpl. split; [done|].
    intros k.
    rewrite (obj_get_filter
               (fun k => match array_index k with
                         | Some n => Z.of_N n <? value
                         | None => true
                         end)).
    by destruct (array_index k).
Qed.
End stat_facts.

(** ** The registry *)

Section registry_more.
Context {event : Type}.
Implicit Types (w : World event) (rs : list (Rule.t event)).

Lemma default_ruleset_fold rs (acc : obj Z) id :
  obj_get id (fold_left (fun ruleset rule => obj_set (Rule.id rule) 1 ruleset) rs acc)
  = if bool_decide (id ∈ map Rule.id rs) then Some 1 else obj_get id acc.
Proof.
  revert acc. induction rs as [|r rs IH]; intros acc; simpl; [done|].
  rewrite IH.
  destruct (bool_decide (id ∈ map Rule.id rs)) eqn:E.
  - apply bool_decide_eq_true in E.
    rewrite bool_decide_eq_true_2; [done|by right].
  - apply bool_decide_eq_false in E.
    destruct (decide (id = Rule.id r)) as [->|Hne].
    + rewrite bool_decide_eq_true_2 by by left. apply obj_get_set_eq.
    + rewrite bool_decide_eq_false_2.
      * by apply obj_get_set_ne.
      * intros [?|?]%elem_of_cons; done.
Qed.

Lemma getRuleset_eq w :
  CSSLint.getRuleset w
  = (inr (List.length (objects w)),
     {| lastIndex := lastIndex w; rules := rules w; rulesById := rulesById w;
        objects := objects w ++ [default_ruleset (rules w)] |}).
Proof. reflexivity. Qed.

(** X2.  [getRuleset] returns an object that has exactly the ids of the
    registered rules as keys, each with the value [1]. *)
Theorem getRuleset_all_warnings w :
  exists l,
    fst (CSSLint.getRuleset w) = inr l /\
    forall id,
      obj_get id (deref (objects (snd (CSSLint.getRuleset w))) l)
      = if bool_decide (id ∈ map Rule.id (rules w)) then Some 1 else None.
Proof.
  rewrite getRuleset_eq. eexists. split; [reflexivity|].
  intros id. simpl. rewrite deref_alloc. unfold default_ruleset.
  by rewrite default_ruleset_fold.
Qed.

Lemma write_prop_eq w (l : loc) k v :
  write_prop l k v w
  = (inr tt,
     {| lastIndex := lastIndex w; rules := rules w; rulesById := rulesById w;
        objects := <[l := obj_set k v (deref (objects w) l)]> (objects w) |}).
Proof. reflexivity. Qed.

(** X3.  Every call of [getRuleset] makes a new object: it is none of the
    objects that existed, those stay as they were, and what a caller writes
    to it does not show in the object that the next call returns. *)
Theorem getRuleset_fresh w k v :
  exists l1 l2,
    fst (CSSLint.getRuleset w) = inr l1 /\
    fst (CSSLint.getRuleset
           (snd (write_prop l1 k v (snd (CSSLint.getRuleset w))))) = inr l2 /\
    l1 <> l2 /\
    objects w !! l1 = None /\
    (let w2 := snd (CSSLint.getRuleset
                      (snd (write_prop l1 k v (snd (CSSLint.getRuleset w))))) in
     deref (objects w2) l1 = obj_set k v (default_ruleset (rules w)) /\
     deref (objects w2) l2 = default_ruleset (rules w) /\
     forall l o, objects w !! l = Some o -> objects w2 !! l = Some o).
Proof.
  exists (List.length (objects w)), (S (List.length (objects w))).
  rewrite (getRuleset_eq w). cbn [fst snd].
  rewrite write_prop_eq. cbn [fst snd objects lastIndex rules rulesById].
  rewrite deref_alloc, insert_app_r_alt by lia.
  replace (List.length (objects w) - List.length (objects w))%nat with 0%nat by lia.
  cbn [insert list_insert].
  rewrite getRuleset_eq. cbn [fst snd objects lastIndex rules rulesById].
  assert (Hlen : List.length (objects w ++ [obj_set k v (default_ruleset (rules w))])
                 = S (List.length (objects w))).
  { rewrite length_app. simpl. lia. }
  split_and!.
  - done.
  - by rewrite Hlen.
  - lia.
  - apply lookup_ge_None. lia.
  - unfold deref. rewrite lookup_app_l by lia.
    rewrite lookup_app_r by lia. by rewrite Nat.sub_diag.
  - rewrite <- Hlen. apply deref_alloc.
  - intros l o Hl.
    assert (l < List.length (objects w))%nat by by eapply lookup_lt_Some.
    rewrite lookup_app_l by lia. by rewrite lookup_app_l.
Qed.

Lemma last_filter_cons (P : Rule.t event -> bool) r rs :
  last (List.filter P (r :: rs))
  = match last (List.filter P rs) with
    | Some x => Some x
    | None => if P r then Some r else None
    end.
Proof.
  simpl. destruct (P r); [|by destruct (last (List.filter P rs))].
  destruct (List.filter P rs) as [|x l]; [done|].
  change (last (r :: x :: l)) with (last (x :: l)).
  by destruct (last (x :: l)) eqn:E; [|by apply last_None in E].
Qed.

Lemma addRules_named rs w id :
  rulesById w !! "push" = None -> forallb ordinary_id rs = true ->
  exists w',
    addRules rs w = Some (inr tt, w') /\
    rules w' = rules w ++ rs /\
    rulesById w' !! id
    = match last (List.filter (fun r => String.eqb (Rule.id r) id) rs) with
      | Some r => Some r
      | None => rulesById w !! id
      end.
Proof.
  revert w. induction rs as [|r rs IH]; intros w Hp Hrs.
  { exists w. simpl. by rewrite app_nil_r. }
  simpl in Hrs. apply andb_true_iff in Hrs as [Hr Hrs].
  cbn [addRules]. rewrite (addRule_ordinary r w Hp Hr).
  destruct (IH (CSSLint.with_rules w (rules w ++ [r])
                  (<[Rule.id r := r]> (rulesById w)))) as (w' & E & R & L);
    [|done|].
  { simpl. rewrite lookup_insert_ne; [done|].
    by apply ordinary_id_spec in Hr as (_ & _ & _ & _ & ?). }
  exists w'. split_and!; [done|..].
  - rewrite R. simpl. by rewrite <- app_assoc.
  - rewrite L, last_filter_cons.
    destruct (last _) as [x|]; [done|]. simpl.
    destruct (String.eqb (Rule.id r) id) eqn:Ei.
    + apply String.eqb_eq in Ei as <-. apply lookup_insert_eq.
    + apply String.eqb_neq in Ei. by apply lookup_insert_ne.
Qed.

Lemma index_not_named name n :
  array_index name = Some n ->
  String.eqb name "length" = false /\
  String.eqb name "__proto__" || String.eqb name "slice" = false.
Proof.
  intros H. split; [|apply orb_false_iff; split].
  all: match goal with |- String.eqb _ ?k = false =>
         destruct (String.eqb name k) eqn:E; [|done];
         apply String.eqb_eq in E as ->; vm_compute in H; discriminate H
       end.
Qed.

(** X4.  [addRule] writes to the one array [rules].  Rules whose ids are
    stored as named properties are appended to the elements, each of them,
    and a lookup by id finds the rule registered last under that id.  A
    rule whose id is the index of an earlier rule is appended and takes the
    place of that rule as well. *)
Theorem addRule_latest_wins w rs id :
  rulesById w !! "push" = None ->
  (forallb ordinary_id rs = true ->
   exists w',
     addRules rs w = Some (inr tt, w') /\
     rules w' = rules w ++ rs /\
     rulesById w' !! id
     = match last (List.filter (fun r => String.eqb (Rule.id r) id) rs) with
       | Some r => Some r
       | None => rulesById w !! id
       end) /\
  (forall r n,
     array_index (Rule.id r) = Some n ->
     (N.to_nat n < List.length (rules w))%nat ->
     CSSLint.addRule r w
     = Some (inr tt,
             CSSLint.with_rules w (<[N.to_nat n := r]> (rules w) ++ [r])
               (rulesById w))).
Proof.
  intros Hp. split; [by apply addRules_named|].
  intros r n Hn Hlt. unfold CSSLint.addRule.
  destruct (index_not_named _ _ Hn) as [-> ->]. rewrite Hp, Hn.
  assert ((N.to_nat n <? List.length (rules w ++ [r]))%nat = true) as ->.
  { apply Nat.ltb_lt. rewrite length_app. simpl. lia. }
  by rewrite insert_app_l.
Qed.

End registry_more.

(** Two writes under [floats]; a write under [length] that is no array
    length; a write under the index [2]; the length set to [0]. *)
Lemma stat_last_write_wins_witness :
  (exists this',
     Reporter.stat
       (Reporter.with_stats Sample.guarded [("floats", 3)] 0) "floats" 4
     = inr this' /\
     obj_get "floats" (Reporter.stats this') = Some 4) /\
  (exists x, Reporter.stat Sample.guarded "length" (-1) = inl x /\
             ex_name x = "RangeError") /\
  (exists this',
     Reporter.stat Sample.guarded "2" 7 = inr this' /\
     obj_get "2" (Reporter.stats this') = Some 7 /\
     Reporter.stats_length this' = 3) /\
  exists this',
    Reporter.stat
      (Reporter.with_stats Sample.guarded [("2", 7); ("floats", 3)] 3) "length" 0
    = inr this' /\
    Reporter.stats this' = [("floats", 3)].
Proof.
  split_and!.
  - destruct (proj1 (stat_last_write_wins
                       (Reporter.with_stats Sample.guarded [("floats", 3)] 0)
                       "floats" 4) eq_refl) as (this' & E & G & _).
    by exists this'.
  - apply (proj1 (proj2 (proj2 (stat_last_write_wins Sample.guarded "length" (-1))))).
    lia.
  - destruct (proj1 (proj2 (stat_last_write_wins Sample.guarded "2" 7)) 2%N eq_refl)
      as (this' & E & G & _ & L).
    exists this'. split_and!; [exact E|exact G|]. rewrite L. reflexivity.
  - destruct (proj2 (proj2 (proj2 (stat_last_write_wins
                (Reporter.with_stats Sample.guarded [("2", 7); ("floats", 3)] 3)
                "length" 0))))
      as (this' & E & _ & _); [lia|].
    exists this'. split; [exact E|].
    vm_compute in E. injection E as <-. reflexivity.
Defined.

(** The rules of the ids [b], [a] and [0] in two orders: registered last,
    the rule [0] takes the place of [b]. *)
Lemma addRule_latest_wins_witness :
  registered_ids [Sample.custom "b"; Sample.custom "a"; Sample.custom "0"]
    Sample.blank
  = Some ["0"; "0"; "a"] /\
  registered_ids [Sample.custom "0"; Sample.custom "a"; Sample.custom "b"]
    Sample.blank
  = Some ["0"; "a"; "b"] /\
  CSSLint.addRule (Sample.custom "0")
    (CSSLint.with_rules Sample.blank [Sample.custom "b"; Sample.custom "a"] ∅)
  = Some (inr tt,
          CSSLint.with_rules Sample.blank
            [Sample.custom "0"; Sample.custom "a"; Sample.custom "0"] ∅) /\
  exists w',
    addRules [Sample.custom "b"; Sample.custom "a"] Sample.blank
    = Some (inr tt, w') /\
    rules w' = [Sample.custom "b"; Sample.custom "a"].
Proof.
  assert (Hp : forall rs, rulesById (CSSLint.with_rules Sample.blank rs ∅)
                          !! "push" = None).
  { intros rs. vm_compute. reflexivity. }
  split_and!; [vm_compute; reflexivity..| |].
  - apply (proj2 (addRule_latest_wins
                    (CSSLint.with_rules Sample.blank
                       [Sample.custom "b"; Sample.custom "a"] ∅)
                    [] "b" (Hp _)) (Sample.custom "0") 0%N eq_refl).
    simpl. lia.
  - destruct (proj1 (addRule_latest_wins Sample.blank
                       [Sample.custom "b"; Sample.custom "a"] "b" (Hp []))
                eq_refl) as (w' & E & R & _).
    exists w'. by split.
Defined.


(** ** The cursor of [verify] *)

Lemma index_0_cons s1 c s2 :
  String.index 0 s1 (String c s2)
  = if String.prefix s1 (String c s2) then Some 0%nat
    else match String.index 0 s1 s2 with
         | Some n => Some (S n)
         | None => None
         end.
Proof. reflexivity. Qed.

Lemma index_S_cons n s1 c s2 :
  String.index (S n) s1 (String c s2)
  = match String.index n s1 s2 with
    | Some n => Some (S n)
    | None => None
    end.
Proof. reflexivity. Qed.

Lemma index_ge n s1 s2 m : String.index n s1 s2 = Some m -> (n <= m)%nat.
Proof.
  revert n m. induction s2 as [|c s2 IH]; intros [|n] m; cbn [String.index];
    try lia; try done.
  destruct (String.index n s1 s2) as [k|] eqn:E; [|done].
  intros [= <-]. apply IH in E. lia.
Qed.

(** An occurrence that [index] finds is one, and none starts between the
    start of the search and it. *)
Lemma index_some n s1 s2 m :
  String.index n s1 s2 = Some m ->
  (m <= String.length s2)%nat /\ String.prefix s1 (skip m s2) = true /\
  forall k, (n <= k < m)%nat -> String.prefix s1 (skip k s2) = false.
Proof.
  revert n m. induction s2 as [|c s2 IH]; intros [|n] m.
  - simpl. destruct s1; [|done]. intros [= <-]. split_and!; [done|done|lia].
  - done.
  - rewrite index_0_cons. destruct (String.prefix s1 (String c s2)) eqn:Ep.
    + intros [= <-]. split_and!; [simpl; lia|done|lia].
    + destruct (String.index 0 s1 s2) as [j|] eqn:E; [|done]. intros [= <-].
      destruct (IH _ _ E) as (H1 & H2 & H3).
      split_and!; [simpl; lia|done|]. intros [|k] Hk; [done|]. apply H3. lia.
  - rewrite index_S_cons.
    destruct (String.index n s1 s2) as [j|] eqn:E; [|done]. intros [= <-].
    destruct (IH _ _ E) as (H1 & H2 & H3).
    split_and!; [simpl; lia|done|]. intros [|k] Hk; [lia|]. apply H3. lia.
Qed.

Lemma index_none n s1 s2 :
  String.index n s1 s2 = None ->
  forall k, (n <= k <= String.length s2)%nat -> String.prefix s1 (skip k s2) = false.
Proof.
  revert n. induction s2 as [|c s2 IH]; intros [|n] Hn k Hk.
  - simpl in Hk. assert (k = 0%nat) as -> by lia. simpl in *. by destruct s1.
  - simpl in Hk. lia.
  - rewrite index_0_cons in Hn.
    destruct (String.prefix s1 (String c s2)) eqn:Ep; [done|].
    destruct (String.index 0 s1 s2) eqn:E; [done|].
    destruct k as [|k]; [done|]. simpl in Hk |- *. apply (IH 0%nat E). lia.
  - rewrite index_S_cons in Hn.
    destruct (String.index n s1 s2) eqn:E; [done|].
    destruct k as [|k]; [lia|]. simpl in Hk |- *. apply (IH n E). lia.
Qed.

Lemma lastIndexOf_go_found needle s pos bound acc :
  -1 <= acc ->
  0 <= JS.lastIndexOf_go needle s pos bound acc <->
  0 <= acc \/
  exists k, (pos + k <= bound)%nat /\ (k <= String.length s)%nat /\
            String.prefix needle (skip k s) = true.
Proof.
  revert pos acc. induction s as [|c s IH]; intros pos acc Hacc.
  - cbn [JS.lastIndexOf_go].
    destruct (String.prefix needle EmptyString && (pos <=? bound)%nat) eqn:E.
    + apply andb_true_iff in E as [E1 E2]. apply Nat.leb_le in E2.
      split; [|lia]. intros _. right. exists 0%nat. split_and!; [lia|done|done].
    + split; [by left|]. intros [?|(k & H1 & H2 & H3)]; [done|].
      simpl in H2. assert (k = 0%nat) as -> by lia. cbn [skip] in H3.
      rewrite H3 in E. simpl in E. apply Nat.leb_gt in E. lia.
  - cbn [JS.lastIndexOf_go]. rewrite IH.
    2:{ destruct (_ && _); lia. }
    destruct (String.prefix needle (String c s) && (pos <=? bound)%nat) eqn:E.
    + apply andb_true_iff in E as [E1 E2]. apply Nat.leb_le in E2.
      split; [|]. 
      * intros _. right. exists 0%nat. split_and!; [lia|simpl; lia|done].
      * intros _. left. lia.
    + split.
      * intros [?|(k & H1 & H2 & H3)]; [by left|]. right. exists (S k).
        split_and!; [lia|simpl; lia|done].
      * intros [?|(k & H1 & H2 & H3)]; [by left|].
        destruct k as [|k].
        -- cbn [skip] in H3. rewrite H3 in E. simpl in E. apply Nat.leb_gt in E. lia.
        -- right. exists k. split_and!; [lia|simpl in H2; lia|done].
Qed.

Lemma lastIndexOf_found s needle from :
  0 <= JS.lastIndexOf s needle from <->
  exists k, (k <= Z.to_nat (Z.max 0 from))%nat /\ (k <= String.length s)%nat /\
            String.prefix needle (skip k s) = true.
Proof.
  unfold JS.lastIndexOf. rewrite lastIndexOf_go_found by lia.
  split.
  - intros [?|(k & ? & ? & ?)]; [lia|]. exists k. by split_and!.
  - intros (k & ? & ? & ?). right. exists k. by split_and!.
Qed.

(** X5.  The cursor that [verify] computes is not negative, so that
    [verify] works on a copy of the ruleset and calls the extractor, exactly
    when the text has a comment opener and either starts with it or has the
    word [csslint] somewhere behind its first comment opener. *)
Theorem ruleset_copied_iff text :
  0 <= CSSLint.embedded_cursor text <->
  0 <= JS.indexOf text "/*" 0 /\
  (JS.indexOf text "/*" 0 = 0 \/
   0 <= JS.indexOf text "csslint" (JS.indexOf text "/*" 0 + 1)).
Proof.
  unfold CSSLint.embedded_cursor. rewrite lastIndexOf_found.
  assert (Hi : JS.indexOf text "/*" 0
               = match String.index 0 "/*" text with
                 | Some k => Z.of_nat k
                 | None => -1
                 end) by reflexivity.
  rewrite Hi. clear Hi.
  destruct (String.index 0 "/*" text) as [p|] eqn:Ep.
  - destruct (index_some _ _ _ _ Ep) as (Hp1 & Hp2 & Hp3).
    unfold JS.or_else.
    replace (Z.of_nat p + 1 =? 0) with false by (symmetry; apply Z.eqb_neq; lia).
    assert (Hq : JS.indexOf text "csslint" (Z.of_nat p + 1)
                 = match String.index (S p) "csslint" text with
                   | Some k => Z.of_nat k
                   | None => -1
                   end).
    { unfold JS.indexOf.
      by replace (Z.to_nat (Z.max 0 (Z.of_nat p + 1))) with (S p) by lia. }
    rewrite Hq. clear Hq.
    destruct (String.index (S p) "csslint" text) as [q|] eqn:Eq.
    + apply index_ge in Eq. split.
      * intros _. split; [lia|]. right. lia.
      * intros _. exists p. split_and!; [lia|done|done].
    + change (Z.to_nat (Z.max 0 (-1 + 1))) with 0%nat. split.
      * intros (k & Hk & _ & Hpre). assert (k = 0%nat) as -> by lia.
        split; [lia|]. left. destruct p as [|p]; [done|].
        rewrite Hp3 in Hpre by lia. done.
      * intros [_ [Hz|Hz]]; [|lia]. assert (p = 0%nat) as -> by lia.
        exists 0%nat. split_and!; [lia|lia|done].
  - split.
    + intros (k & _ & Hk & Hpre).
      rewrite (index_none _ _ _ Ep k) in Hpre by lia. done.
    + intros [? _]. lia.
Qed.

(** ** The extractor stops at the first line *)

Lemma index_fixed n s1 s2 m :
  String.index n s1 s2 = Some m -> String.index m s1 s2 = Some m.
Proof.
  revert n m. induction s2 as [|c s2 IH]; intros [|n] m.
  - simpl. destruct s1; [|done]. by intros [= <-].
  - done.
  - rewrite index_0_cons.
    destruct (String.prefix s1 (String c s2)) eqn:Ep.
    + intros [= <-]. by rewrite index_0_cons, Ep.
    + destruct (String.index 0 s1 s2) as [k|] eqn:E; [|done].
      intros [= <-]. by rewrite index_S_cons, (IH _ _ E).
  - rewrite index_S_cons.
    destruct (String.index n s1 s2) as [k|] eqn:E; [|done].
    intros [= <-]. by rewrite index_S_cons, (IH _ _ E).
Qed.

Lemma index_none_from n s1 s2 :
  String.index 0 s1 s2 = None -> String.index n s1 s2 = None.
Proof.
  revert n. induction s2 as [|c s2 IH]; intros [|n]; try done.
  rewrite index_0_cons, index_S_cons.
  destruct (String.prefix s1 (String c s2)); [done|].
  destruct (String.index 0 s1 s2) eqn:E; [done|]. intros _.
  by rewrite IH.
Qed.

Lemma next_eol_fixed text : next_eol text (first_line_end text) = first_line_end text.
Proof.
  unfold first_line_end, next_eol, JS.indexOf, JS.or_else, JS.length.
  change (Z.to_nat (Z.max 0 0)) with 0%nat.
  destruct (String.index 0 JS.LF text) as [k|] eqn:E.
  - assert (Hf : (Z.of_nat k + 1 =? 0) = false) by (apply Z.eqb_neq; lia).
    rewrite Hf.
    replace (Z.to_nat (Z.max 0 (Z.of_nat k + 1 - 1))) with k by lia.
    by rewrite (index_fixed _ _ _ _ E), Hf.
  - change (-1 + 1 =? 0) with true. cbn match.
    by rewrite index_none_from.
Qed.

Lemma scan_indices s pos skip :
  Forall (fun m => Z.of_nat (pos + skip) <= RX.index m) (RX.scan s pos skip).
Proof.
  revert pos skip. induction s as [|c s IH]; intros pos skip; [constructor|].
  cbn [RX.scan]. destruct skip as [|k].
  - destruct (RX.match_here (String c s)) as [[g len]|].
    + constructor; [simpl; lia|].
      eapply Forall_impl; [apply IH|]. simpl. intros m Hm. lia.
    + eapply Forall_impl; [apply IH|]. simpl. intros m Hm. lia.
  - eapply Forall_impl; [apply IH|]. simpl. intros m Hm. lia.
Qed.

Lemma scan_sorted s pos skip :
  StronglySorted (fun a b => RX.index a < RX.index b) (RX.scan s pos skip).
Proof.
  revert pos skip. induction s as [|c s IH]; intros pos skip; [constructor|].
  cbn [RX.scan]. destruct skip as [|k]; [|apply IH].
  destruct (RX.match_here (String c s)) as [[g len]|]; [|apply IH].
  constructor; [apply IH|].
  eapply Forall_impl; [apply scan_indices|]. simpl. intros m Hm. lia.
Qed.

Lemma loop_skips text ms e :
  next_eol text e = e -> Forall (fun m => e < RX.index m) ms ->
  loop_throws text ms e = false.
Proof.
  intros He. induction 1 as [|m ms Hm _ IH]; [done|].
  simpl. rewrite He. by rewrite (proj2 (Z.ltb_lt _ _) Hm).
Qed.

Lemma loop_throws_first text ms :
  StronglySorted (fun a b => RX.index a < RX.index b) ms ->
  loop_throws text ms 0
  = match ms with
    | [] => false
    | m :: _ => RX.index m <=? first_line_end text
    end.
Proof.
  destruct 1 as [|m ms Hs Hm]; [done|].
  cbn [loop_throws]. fold (first_line_end text).
  destruct (first_line_end text <? RX.index m) eqn:E.
  - apply Z.ltb_lt in E. rewrite loop_skips.
    + symmetry. apply Z.leb_gt. lia.
    + apply next_eol_fixed.
    + eapply Forall_impl; [exact Hm|]. simpl. intros. lia.
  - apply Z.ltb_ge in E. symmetry. by apply Z.leb_le.
Qed.


Section first_line.
Context {event : Type} (parse : string -> list event * option exn).

(** X6.  [applyEmbeddedOverrides] reaches a directive exactly when the first
    comment that [RX_EMBEDDED] finds from the cursor on starts on the first
    line of the text, and then it throws; in every other case it returns with
    the allow map and the ignore ranges as it got them.  The rules and the
    objects of the store are as before either way. *)
Theorem extractor_first_line text (ruleset : loc) allow0 ignore0 (w : World event) :
  fst (CSSLint.applyEmbeddedOverrides text ruleset allow0 ignore0 w)
  = (if directive_on_first_line text (lastIndex w)
     then inl (TypeError "cmd.trim is not a function")
     else inr (allow0, ignore0)) /\
  same_but_cursor w
    (snd (CSSLint.applyEmbeddedOverrides text ruleset allow0 ignore0 w)).
Proof.
  destruct (applyEmbeddedOverrides_inert text ruleset allow0 ignore0 w) as [Hw ->].
  split; [|done]. unfold directive_on_first_line.
  by rewrite loop_throws_first by apply scan_sorted.
Qed.

End first_line.

(** ** Where the messages of a report come from *)

Section origin_facts.
Context {event : Type} (parse : string -> list event * option exn).
Implicit Types (r : Reporter.t event) (m : Message.t event).

Lemma evidence_at_nil r line :
  Reporter.lines r = [] -> Reporter.evidence_at r line = None.
Proof.
  intros Hl. unfold Reporter.evidence_at. rewrite Hl.
  destruct line as [n|]; [|done]. by destruct (1 <=? n).
Qed.

Lemma perform_origin (h : heap) rule r c :
  Reporter.lines r = [] ->
  exists ms,
    Reporter.messages (performed h (rule, c) r) = Reporter.messages r ++ ms /\
    Forall (fun m => Message.evidence m = None /\ Message.rule m = RuleObj rule) ms.
Proof.
  intros Hl. unfold performed. destruct c; cbn [Reporter.perform fst snd].
  - eexists [_]. split; [reflexivity|]. repeat constructor. by apply evidence_at_nil.
  - unfold Reporter.report.
    destruct (Reporter.allowed r (Some line) (RuleObj rule)
              || Reporter.ignored r (Some line)).
    + exists []. by rewrite app_nil_r.
    + eexists [_]. split; [reflexivity|]. repeat constructor.
      by apply evidence_at_nil.
  - eexists [_]. split; [reflexivity|]. repeat constructor. by apply evidence_at_nil.
  - eexists [_]. split; [reflexivity|]. by repeat constructor.
  - eexists [_]. split; [reflexivity|]. by repeat constructor.
  - exists []. rewrite app_nil_r. split; [|done].
    unfold Reporter.stat.
    destruct (String.eqb name "length");
      [destruct ((0 <=? value) && (value <? 4294967296))
      |destruct (array_index name);
         [|destruct (String.eqb name "__proto__")]];
      done.
Qed.

Lemma perform_all_origin (h : heap) calls r :
  Reporter.lines r = [] ->
  exists ms,
    Reporter.messages (perform_all h calls r) = Reporter.messages r ++ ms /\
    Forall (fun m => Message.evidence m = None /\
                     exists rule, Message.rule m = RuleObj rule) ms.
Proof.
  revert r. induction calls as [|[rule c] calls IH]; intros r Hl.
  { exists []. by rewrite app_nil_r. }
  cbn [perform_all fold_left].
  destruct (perform_origin h rule r c Hl) as (ms1 & E1 & F1).
  destruct (IH (performed h (rule, c) r)) as (ms2 & E2 & F2).
  { destruct (perform_config h rule r c) as (_ & -> & _). done. }
  exists (ms1 ++ ms2). unfold perform_all in E2. rewrite E2, E1, app_assoc.
  split; [done|]. apply Forall_app. split; [|done].
  eapply Forall_impl; [exact F1|]. intros m [? ?]. by eauto.
Qed.

Lemma parse_and_catch_origin (h : heap) text acts r :
  Reporter.lines r = [] ->
  exists ms,
    Reporter.messages (CSSLint.parse_and_catch parse h text acts r)
    = Reporter.messages r ++ ms
      ++ match or_exn (snd (made (fst (trace (fst (parse text)) acts))))
                 (or_exn (snd (trace (fst (parse text)) acts))
                    (snd (parse text))) with
         | Some x => [fatal x]
         | None => []
         end /\
    Forall (fun m => Message.evidence m = None /\
                     exists rule, Message.rule m = RuleObj rule) ms.
Proof.
  intros Hl. unfold CSSLint.parse_and_catch. destruct (parse text) as [evs ex].
  rewrite fire_all_eq. cbn [fst snd].
  destruct (perform_all_origin h (fst (made (fst (trace evs acts)))) r Hl)
    as (ms & E & F).
  assert (Hl' : Reporter.lines
                  (perform_all h (fst (made (fst (trace evs acts)))) r) = []).
  { destruct (perform_all_config h (fst (made (fst (trace evs acts)))) r)
      as (_ & -> & _). done. }
  exists ms. split; [|done].
  destruct (snd (made (fst (trace evs acts)))) as [x|];
    [|destruct (snd (trace evs acts)) as [x|]; [|destruct ex as [x|]]].
  4: { cbn [or_exn]. by rewrite app_nil_r. }
  all: cbn [or_exn Reporter.error Reporter.push Reporter.messages];
    rewrite evidence_at_nil by done; by rewrite E, <- app_assoc.
Qed.

(** A call of [verify] that returns a report has initialised the rules
    without an exception. *)
Lemma verify_initialised text ruleset w report w' :
  CSSLint.verify parse text ruleset w = (inr report, w') ->
  exists acts l,
    CSSLint.init_rules (rules w') (rulesById w')
      (deref (objects w') (Report.ruleset report)) = inr acts /\
    Report.ruleset report = l /\
    CSSLint.collect parse text ruleset w
    = (inr (CSSLint.parse_and_catch parse (objects w') text acts
              (Reporter.new [] l ∅ [])), w').
Proof.
  rewrite verify_eq, collect_eq.
  destruct (CSSLint.setup text ruleset w) as [[e|r0] w0] eqn:Hs; [done|].
  destruct (CSSLint.init_rules _ _ _) as [x|acts] eqn:Hi; [done|].
  intros [= <- <-]. apply setup_reporter in Hs as [l ->].
  cbn [Report.ruleset].
  destruct (parse_and_catch_config parse (objects w0) text acts
              (Reporter.new [] l ∅ [])) as (-> & _).
  by exists acts, l.
Qed.

Lemma thrown_in_run_eq text report w' acts :
  CSSLint.init_rules (rules w') (rulesById w')
    (deref (objects w') (Report.ruleset report)) = inr acts ->
  thrown_in_run parse text report w'
  = or_exn (snd (made (fst (trace (fst (parse text)) acts))))
      (or_exn (snd (trace (fst (parse text)) acts)) (snd (parse text))).
Proof.
  intros Hi. unfold thrown_in_run, initialised. rewrite Hi.
  destruct (snd (made _)); [done|]. by destruct (snd (trace _ _)).
Qed.

Lemma verify_origin text ruleset w report w' :
  CSSLint.verify parse text ruleset w = (inr report, w') ->
  exists ms,
    Report.messages report
    ≡ₚ ms ++ match thrown_in_run parse text report w' with
             | Some x => [fatal x]
             | None => []
             end /\
    Forall (fun m => Message.evidence m = None /\
                     exists rule, Message.rule m = RuleObj rule) ms.
Proof.
  intros Hv. destruct (verify_initialised _ _ _ _ _ Hv) as (acts & l & Hi & _ & Hc).
  rewrite (thrown_in_run_eq _ _ _ _ Hi).
  revert Hv. rewrite verify_eq, Hc. intros [= <-]. cbn [Report.messages].
  destruct (parse_and_catch_origin (objects w') text acts
              (Reporter.new [] l ∅ []) eq_refl) as (ms & E & F).
  exists ms. split; [|done].
  rewrite sort_perm, E. done.
Qed.
End origin_facts.

Section more_verify.
Context {event : Type} (parse : string -> list event * option exn).

(** X8.  When the parse ends with an exception, of a listener or of the
    parser, the report has the message ["Fatal error, cannot continue: "]
    followed by the message of the exception, of type [error], at the line
    and column of the exception and with the rule [{}].  Every other message
    of a report has the rule object that made it. *)
Theorem verify_fatal_error text ruleset (w : World event) report w' :
  CSSLint.verify parse text ruleset w = (inr report, w') ->
  (forall x, thrown_in_run parse text report w' = Some x ->
             fatal x ∈ Report.messages report) /\
  (forall m, m ∈ Report.messages report ->
             (exists rule, Message.rule m = RuleObj rule) \/
             (exists x, thrown_in_run parse text report w' = Some x /\ m = fatal x)).
Proof.
  intros Hv. destruct (verify_origin parse _ _ _ _ _ Hv) as (ms & Hp & F).
  split.
  - intros x Hx. rewrite Hx in Hp. rewrite Hp. apply elem_of_app. right.
    apply list_elem_of_singleton. done.
  - intros m Hm. rewrite Hp in Hm. apply elem_of_app in Hm as [Hm|Hm].
    + left. rewrite Forall_forall in F. by destruct (F m Hm).
    + right. destruct (thrown_in_run parse text report w') as [x|].
      * apply list_elem_of_singleton in Hm. by exists x.
      * by apply elem_of_nil in Hm.
Qed.

(** X9.  [verify] gives its reporter an empty array of lines, so no
    message of a report has evidence. *)
Theorem verify_no_evidence text ruleset (w : World event) report w' :
  CSSLint.verify parse text ruleset w = (inr report, w') ->
  Forall (fun m => Message.evidence m = None) (Report.messages report).
Proof.
  intros Hv. destruct (verify_origin parse _ _ _ _ _ Hv) as (ms & Hp & F).
  rewrite Hp. apply Forall_app. split.
  - eapply Forall_impl; [exact F|]. by intros m [? _].
  - destruct (thrown_in_run parse text report w'); by repeat constructor.
Qed.

(** X10.  After [clearRules] the array [rules] has no element: [getRules]
    and the worker's list of ids are empty and [getRuleset] returns [{}].
    The named properties are not cleared: for a ruleset that enables no
    key that is the name of an index or ['length'], [verify] gives what it
    gave before, and [verify] without a ruleset gives what it gives for
    the ruleset [{}]. *)
Theorem clearRules_keeps_lookups text l (w : World event) o :
  objects w !! l = Some o ->
  fst (CSSLint.getRules (snd (CSSLint.clearRules w))) = inr [] /\
  fst (Worker.getAllRuleIds (snd (CSSLint.clearRules w))) = inr [] /\
  deref (objects (snd (CSSLint.getRuleset (snd (CSSLint.clearRules w)))))
        (List.length (objects w)) = [] /\
  rulesById (snd (CSSLint.clearRules w)) = rulesById w /\
  (no_array_key o = true ->
   observe (CSSLint.verify parse text (Some l) (snd (CSSLint.clearRules w)))
   = observe (CSSLint.verify parse text (Some l) w)) /\
  (o = [] ->
   observe (CSSLint.verify parse text None (snd (CSSLint.clearRules w)))
   = observe (CSSLint.verify parse text (Some l) w)).
Proof.
  intros Hl. split_and!; try done.
  - cbn. apply deref_alloc.
  - intros Hk. rewrite !(verify_observe parse text l _ o) by done.
    destruct (extractor_throws text); [done|]. unfold run_outcome_of.
    cbn [CSSLint.clearRules snd rules rulesById CSSLint.with_rules].
    by rewrite (init_rules_elements text [] (rules w)).
  - intros ->. rewrite verify_observe_default, (verify_observe parse text l w []) by done.
    destruct (extractor_throws text); [done|]. unfold run_outcome_of.
    cbn [CSSLint.clearRules snd rules rulesById CSSLint.with_rules
         default_ruleset fold_left].
    by rewrite (init_rules_elements text [] (rules w)).
Qed.

Lemma report_ruleset_content text l (w : World event) o report w' :
  objects w !! l = Some o -> NoDup (obj_keys o) ->
  CSSLint.verify parse text (Some l) w = (inr report, w') ->
  deref (objects w') (Report.ruleset report) = obj_set "errors" 2 o.
Proof.
  intros Hl Hnd Hv. pose proof (verify_observe parse text l w o Hl) as Ho.
  unfold observe, run_outcome_of in Ho. rewrite Hv in Ho. cbn [fst snd] in Ho.
  destruct (extractor_throws text); [done|].
  destruct (CSSLint.init_rules _ _ _); [done|].
  injection Ho as _ _ _ Ho _ _.
  rewrite Ho. unfold effective_ruleset. rewrite obj_assign_copy by done.
  by destruct (0 <=? CSSLint.embedded_cursor text).
Qed.

End more_verify.

(** ** CSSLint.Util.indexOf *)

Lemma indexOf_from_spec values value (i : Z) :
  0 <= i ->
  (Util.indexOf_from values value i = -1 /\ (value ∉ values)) \/
  (exists k : nat,
     Util.indexOf_from values value i = i + Z.of_nat k /\
     values !! k = Some value /\
     forall j : nat, (j < k)%nat -> values !! j <> Some value).
Proof.
  revert i. induction values as [|v values IH]; intros i Hi.
  { left. split; [done|apply not_elem_of_nil]. }
  simpl. destruct (String.eqb v value) eqn:E.
  - apply String.eqb_eq in E as ->. right. exists 0%nat.
    split_and!; [lia|done|intros j; lia].
  - apply String.eqb_neq in E.
    destruct (IH (i + 1)) as [(H1 & H2)|(k & H1 & H2 & H3)]; [lia| |].
    + left. split; [done|].
      intros [?|?]%elem_of_cons; congruence.
    + right. exists (S k). split_and!; [lia|done|].
      intros [|j] Hj; simpl; [congruence|]. apply H3. lia.
Qed.

(** X12.  [CSSLint.Util.indexOf] returns [-1] exactly when the value is not
    in the array, and otherwise the index of its first occurrence. *)
Theorem Util_indexOf_first values value :
  (Util.indexOf values value = -1 <-> value ∉ values) /\
  (value ∈ values ->
   exists k : nat,
     Util.indexOf values value = Z.of_nat k /\
     values !! k = Some value /\
     forall j : nat, (j < k)%nat -> values !! j <> Some value).
Proof.
  unfold Util.indexOf.
  destruct (indexOf_from_spec values value 0)
    as [(H1 & H2)|(k & H1 & H2 & H3)]; [lia| |].
  - split; [done|]. intros. done.
  - rewrite Z.add_0_l in H1. split.
    + rewrite H1. split; [lia|]. intros Hn. destruct Hn.
      by eapply list_elem_of_lookup_2.
    + intros _. by exists k.
Qed.

(** ** The worker: rule infos *)

Section infos.
Context {event : Type}.

(** X13.  The action [getAllRuleInfos] posts the data fields of every
    registered rule, in ascending order of the ids, the same order as the
    ids that [getAllRuleIds] posts, and leaves the registry as it is. *)
Theorem getAllRuleInfos_sorted (w : World event) :
  exists infos,
    Worker.getAllRuleInfos w = (inr infos, w) /\
    infos ≡ₚ map Worker.to_info (rules w) /\
    StronglySorted String.le (map Worker.info_id infos) /\
    fst (Worker.getAllRuleIds w) = inr (map Worker.info_id infos).
Proof.
  exists (map Worker.to_info (JS.sort CSSLint.by_id (rules w))).
  split_and!.
  - done.
  - by rewrite sort_perm.
  - rewrite <- list_fmap_compose.
    change (Worker.info_id ∘ Worker.to_info) with (@Rule.id event).
    apply sorted_ids, getRules_sorted.
  - rewrite getAllRuleIds_eq. cbn [fst]. by rewrite <- list_fmap_compose.
Qed.
End infos.

Section alias.
Context {event : Type} (parse : string -> list event * option exn).

(** X14.  The [ruleset] of a report is the very object that was passed to
    [verify] exactly when the cursor is negative; otherwise it is an object
    that did not exist before the call, the copy with [errors] set. *)
Theorem report_ruleset_alias text l (w : World event) o report w' :
  objects w !! l = Some o ->
  CSSLint.verify parse text (Some l) w = (inr report, w') ->
  (Report.ruleset report = l <-> CSSLint.embedded_cursor text < 0) /\
  (0 <= CSSLint.embedded_cursor text ->
   objects w !! Report.ruleset report = None /\
   objects w' = objects w ++ [obj_set "errors" 2 (obj_assign [] o)]).
Proof.
  intros Hl. rewrite verify_eq, collect_eq.
  destruct (CSSLint.setup text (Some l) w) as [[e|r0] w0] eqn:Hs; [done|].
  destruct (CSSLint.init_rules _ _ _) as [x|acts0]; [done|].
  intros [= <- <-]. cbn [Report.ruleset].
  match goal with |- context [CSSLint.parse_and_catch parse ?h ?t ?acts ?r] =>
    destruct (parse_and_catch_config parse h t acts r) as (-> & _)
  end.
  apply setup_spec in Hs as (_ & _ & Hs).
  assert (Hlt : (l < List.length (objects w))%nat) by by eapply lookup_lt_Some.
  rewrite (deref_lookup _ _ _ Hl) in Hs.
  destruct (0 <=? CSSLint.embedded_cursor text) eqn:Ec;
    [apply Z.leb_le in Ec|apply Z.leb_gt in Ec].
  - destruct (loop_throws _ _ _); destruct Hs as [Hr Ho]; [done|].
    injection Hr as ->. cbn [Reporter.ruleset Reporter.new]. split.
    + split; lia.
    + intros _. split; [|done]. apply lookup_ge_None. lia.
  - destruct Hs as [Hr Ho]. injection Hr as ->.
    cbn [Reporter.ruleset Reporter.new]. split; [done|]. lia.
Qed.
End alias.

(** ** A rule on its own *)

Section solo_facts.
Context {event : Type}.

Lemma trace_one (r : Rule.t event) (evs : list event) (st : lstate (Rule.init r)) :
  trace evs [existT r st]
  = (map (pair r) (fst (calls_from (Rule.init r) evs st)),
     snd (calls_from (Rule.init r) evs st)).
Proof.
  revert st. induction evs as [|e evs IH]; intros st; [done|].
  simpl. destruct (lfire (Rule.init r) e st) as [[st' calls] [x|]]; simpl.
  - done.
  - rewrite IH. simpl. by rewrite app_nil_r, map_app.
Qed.

Lemma trace_solo (r : Rule.t event) (evs : list event) :
  trace evs (solo r)
  = (map (pair r) (fst (calls_from (Rule.init r) evs (lstart (Rule.init r)))),
     snd (calls_from (Rule.init r) evs (lstart (Rule.init r)))).
Proof. apply trace_one. Qed.

Lemma calls_from_app (L : Listener event) (evs1 evs2 : list event) st :
  snd (calls_from L evs1 st) = None ->
  calls_from L (evs1 ++ evs2) st
  = (fst (calls_from L evs1 st)
       ++ fst (calls_from L evs2 (state_after L evs1 st)),
     snd (calls_from L evs2 (state_after L evs1 st))).
Proof.
  revert st. induction evs1 as [|e evs1 IH]; intros st Hno; simpl.
  { by destruct (calls_from L evs2 st). }
  simpl in Hno. destruct (snd (lfire L e st)) as [x|]; [done|].
  simpl in Hno. rewrite IH by done. simpl. by rewrite app_assoc.
Qed.

Lemma count_where_cons (P : event -> bool) e evs :
  count_where P (e :: evs) = (if P e then 1 else 0) + count_where P evs.
Proof. unfold count_where. simpl. destruct (P e); simpl length; lia. Qed.

Lemma count_where_nonneg (P : event -> bool) evs : 0 <= count_where P evs.
Proof. unfold count_where. lia. Qed.
End solo_facts.

Lemma since_last_none {A} (P : A -> bool) (l : list A) :
  existsb P l = false -> since_last P l = l.
Proof.
  induction l as [|x l IH]; [done|]. simpl. intros H.
  apply orb_false_iff in H as [Hx Hl]. by rewrite Hl, Hx.
Qed.

(** ** Rules that count *)

Section counting_rules.
Import Rules.

Ltac finish IH :=
  rewrite ?IH by done; rewrite ?Z.add_0_l, ?Z.add_assoc; done.

Lemma floats_calls evs (count : Z) :
  existsb is_end evs = false ->
  calls_from (Rule.init floats) (evs ++ [EndStyleSheet]) count
  = (CallStat "floats" (count + count_where is_float evs)
       :: (if 10 <=? count + count_where is_float evs
           then [CallRollupWarn
                   ("Too many floats (" +:+ pretty (count + count_where is_float evs)
                    +:+ "), you're probably using them for layout. "
                    +:+ "Consider using a grid system instead.")]
           else []),
     None).
Proof.
  revert count. induction evs as [|e evs IH]; intros count Hend.
  { unfold count_where. cbn -[pretty String.append Z.add Z.leb Z.ltb].
    by rewrite Z.add_0_r, ?app_nil_r. }
  apply orb_false_iff in Hend as [Hne Hend]. fold (existsb is_end evs) in Hend.
  rewrite count_where_cons.
  change ((e :: evs) ++ [EndStyleSheet]) with (e :: (evs ++ [EndStyleSheet])).
  destruct e; try done;
    cbn [calls_from lfire Rule.init floats is_float fst snd app];
    try finish IH.
  destruct (_ && _); cbn [fst snd app]; finish IH.
Qed.

Lemma font_sizes_calls evs (count : Z) :
  existsb is_end evs = false ->
  calls_from (Rule.init font_sizes) (evs ++ [EndStyleSheet]) count
  = (CallStat "font-sizes" (count + count_where is_font_size evs)
       :: (if 10 <=? count + count_where is_font_size evs
           then [CallRollupWarn
                   ("Too many font-size declarations ("
                    +:+ pretty (count + count_where is_font_size evs)
                    +:+ "), abstraction needed.")]
           else []),
     None).
Proof.
  revert count. induction evs as [|e evs IH]; intros count Hend.
  { unfold count_where. cbn -[pretty String.append Z.add Z.leb Z.ltb].
    by rewrite Z.add_0_r, ?app_nil_r. }
  apply orb_false_iff in Hend as [Hne Hend]. fold (existsb is_end evs) in Hend.
  rewrite count_where_cons.
  change ((e :: evs) ++ [EndStyleSheet]) with (e :: (evs ++ [EndStyleSheet])).
  destruct e; try done;
    cbn [calls_from lfire Rule.init font_sizes is_font_size fst snd app];
    try finish IH.
  destruct (String.eqb _ _); cbn [fst snd app]; finish IH.
Qed.

Lemma font_faces_calls evs (count : Z) :
  existsb is_end evs = false ->
  calls_from (Rule.init font_faces) (evs ++ [EndStyleSheet]) count
  = (if 5 <? count + count_where is_font_face evs
     then [CallRollupWarn
             ("Too many @font-face declarations ("
              +:+ pretty (count + count_where is_font_face evs) +:+ ").")]
     else [],
     None).
Proof.
  revert count. induction evs as [|e evs IH]; intros count Hend.
  { unfold count_where. cbn -[pretty String.append Z.add Z.leb Z.ltb].
    by rewrite Z.add_0_r, ?app_nil_r. }
  apply orb_false_iff in Hend as [Hne Hend]. fold (existsb is_end evs) in Hend.
  rewrite count_where_cons.
  change ((e :: evs) ++ [EndStyleSheet]) with (e :: (evs ++ [EndStyleSheet])).
  destruct e; try done;
    cbn [calls_from lfire Rule.init font_faces is_font_face fst snd app];
    finish IH.
Qed.

Lemma rules_count_calls evs (count : Z) :
  existsb is_end evs = false ->
  calls_from (Rule.init rules_count) (evs ++ [EndStyleSheet]) count
  = ([CallStat "rule-count" (count + count_where is_startrule evs)], None).
Proof.
  revert count. induction evs as [|e evs IH]; intros count Hend.
  { unfold count_where. cbn -[pretty String.append Z.add Z.leb Z.ltb].
    by rewrite Z.add_0_r, ?app_nil_r. }
  apply orb_false_iff in Hend as [Hne Hend]. fold (existsb is_end evs) in Hend.
  rewrite count_where_cons.
  change ((e :: evs) ++ [EndStyleSheet]) with (e :: (evs ++ [EndStyleSheet])).
  destruct e; try done;
    cbn [calls_from lfire Rule.init rules_count is_startrule fst snd app];
    finish IH.
Qed.

Lemma selector_max_calls evs (count : Z) :
  existsb is_end evs = false ->
  calls_from (Rule.init selector_max) (evs ++ [EndStyleSheet]) count
  = (if 4095 <? count + selector_count evs
     then [CallReport (selectors_message (count + selector_count evs)) 0 0]
     else [],
     None).
Proof.
  revert count. induction evs as [|e evs IH]; intros count Hend.
  { cbn -[pretty String.append Z.add Z.leb Z.ltb selectors_message].
    by rewrite Z.add_0_r, ?app_nil_r. }
  apply orb_false_iff in Hend as [Hne Hend]. fold (existsb is_end evs) in Hend.
  change ((e :: evs) ++ [EndStyleSheet]) with (e :: (evs ++ [EndStyleSheet])).
  destruct e; try done;
    cbn [calls_from lfire Rule.init selector_max selector_count fst snd app];
    finish IH.
Qed.

Lemma selector_max_approaching_calls evs (count : Z) :
  existsb is_end evs = false ->
  calls_from (Rule.init selector_max_approaching) (evs ++ [EndStyleSheet]) count
  = (if 3800 <=? count + selector_count evs
     then [CallReport (selectors_message (count + selector_count evs)) 0 0]
     else [],
     None).
Proof.
  revert count. induction evs as [|e evs IH]; intros count Hend.
  { cbn -[pretty String.append Z.add Z.leb Z.ltb selectors_message].
    by rewrite Z.add_0_r, ?app_nil_r. }
  apply orb_false_iff in Hend as [Hne Hend]. fold (existsb is_end evs) in Hend.
  change ((e :: evs) ++ [EndStyleSheet]) with (e :: (evs ++ [EndStyleSheet])).
  destruct e; try done;
    cbn [calls_from lfire Rule.init selector_max_approaching selector_count
         fst snd app];
    finish IH.
Qed.

Lemma import_ie_limit_calls evs (count : Z) :
  existsb is_end evs = false ->
  calls_from (Rule.init import_ie_limit) (evs ++ [EndStyleSheet]) count
  = (if MAX_IMPORT_COUNT
        <? (if existsb is_page evs then 0 else count)
           + count_where is_import (since_last is_page evs)
     then [CallRollupError
             ("Too many @import rules ("
              +:+ pretty ((if existsb is_page evs then 0 else count)
                          + count_where is_import (since_last is_page evs))
              +:+ "). IE6-9 supports up to 31 import per stylesheet.")]
     else [],
     None).
Proof.
  revert count. induction evs as [|e evs IH]; intros count Hend.
  { unfold count_where. cbn -[pretty String.append Z.add Z.leb Z.ltb].
    by rewrite Z.add_0_r, ?app_nil_r. }
  apply orb_false_iff in Hend as [Hne Hend]. fold (existsb is_end evs) in Hend.
  change ((e :: evs) ++ [EndStyleSheet]) with (e :: (evs ++ [EndStyleSheet])).
  assert (Hs : existsb is_page evs = false -> since_last is_page evs = evs)
    by apply since_last_none.
  destruct e; try done;
    cbn [calls_from lfire Rule.init import_ie_limit fst snd app];
    rewrite IH by done;
    cbn [existsb since_last is_page is_import orb];
    destruct (existsb is_page evs) eqn:E; rewrite ?Hs by done;
    rewrite ?count_where_cons; cbn [is_import]; rewrite ?Z.add_0_l, ?Z.add_assoc;
    done.
Qed.
End counting_rules.

Lemma count_where_zero {A} (P : A -> bool) (l : list A) :
  (count_where P l =? 0) = negb (existsb P l).
Proof.
  induction l as [|x l IH]; [done|].
  rewrite count_where_cons. simpl. destruct (P x); simpl.
  - pose proof (count_where_nonneg P l). apply Z.eqb_neq. lia.
  - by rewrite Z.add_0_l.
Qed.

Section sample_rules.
Import Sample.

Lemma important_calls evs (count : Z) :
  existsb is_sample_end evs = false ->
  calls_from (Rule.init important) (evs ++ [EndStyleSheet]) count
  = (omap important_report evs
       ++ CallStat "important" (count + count_where is_important evs)
       :: (if 10 <=? count + count_where is_important evs
           then [CallRollupWarn
                   ("Too many !important declarations ("
                    +:+ pretty (count + count_where is_important evs)
                    +:+ "), try to use less than 10 to avoid specificity issues.")]
           else []),
     None).
Proof.
  revert count. induction evs as [|e evs IH]; intros count Hend.
  { unfold count_where. cbn -[pretty String.append Z.add Z.leb Z.ltb].
    by rewrite Z.add_0_r, ?app_nil_r. }
  apply orb_false_iff in Hend as [Hne Hend]. fold (existsb is_sample_end evs) in Hend.
  rewrite count_where_cons.
  change ((e :: evs) ++ [EndStyleSheet]) with (e :: (evs ++ [EndStyleSheet])).
  destruct e as [| [|] | | | |]; try done;
    cbn [calls_from lfire Rule.init important is_important important_report
         omap list_omap fst snd app];
    rewrite ?IH by done; rewrite ?Z.add_0_l, ?Z.add_assoc; done.
Qed.

Lemma empty_rules_quiet evs (count : Z) :
  snd (calls_from (Rule.init empty_rules) evs count) = None.
Proof.
  revert count. induction evs as [|e evs IH]; intros count; [done|].
  destruct e; cbn [calls_from lfire Rule.init empty_rules fst snd]; apply IH.
Qed.

Lemma empty_rules_state evs (count : Z) :
  state_after (Rule.init empty_rules) evs count
  = (if existsb is_sample_startrule evs then 0 else count)
    + count_where is_sample_property (since_last is_sample_startrule evs).
Proof.
  revert count. induction evs as [|e evs IH]; intros count.
  { unfold count_where. simpl. lia. }
  assert (Hs : existsb is_sample_startrule evs = false ->
               since_last is_sample_startrule evs = evs)
    by apply since_last_none.
  destruct e; cbn [state_after lfire Rule.init empty_rules fst snd];
    rewrite IH;
    cbn [existsb since_last is_sample_startrule is_sample_property orb];
    destruct (existsb is_sample_startrule evs) eqn:E; rewrite ?Hs by done;
    rewrite ?count_where_cons; cbn [is_sample_property]; lia.
Qed.

(** X15.  The rule [important] reports every declaration that is
    [!important], in order; at the end of the style sheet it records their
    number as the statistic [important] and adds a rollup warning exactly
    when there are ten or more. *)
Theorem important_counted evs :
  existsb is_sample_end evs = false ->
  trace (evs ++ [EndStyleSheet]) (solo important)
  = (map (pair important) (omap important_report evs)
       ++ (important, CallStat "important" (count_where is_important evs))
       :: (if 10 <=? count_where is_important evs
           then [(important,
                  CallRollupWarn
                    ("Too many !important declarations ("
                     +:+ pretty (count_where is_important evs)
                     +:+ "), try to use less than 10 to avoid specificity issues."))]
           else []),
     None).
Proof.
  intros Hend. rewrite trace_solo.
  change (lstart (Rule.init important)) with 0.
  rewrite important_calls by done. rewrite Z.add_0_l. cbn [fst snd].
  rewrite map_app. cbn [map]. by destruct (10 <=? _).
Qed.

Lemma important_counted_witness :
  map snd (fst (trace ([StartRule 1 1; Property true 1 5; Property false 1 20;
                        Property true 2 5; EndRule 1 1] ++ [EndStyleSheet])
                      (solo important)))
  = [CallReport "Use of !important" 1 5; CallReport "Use of !important" 2 5;
     CallStat "important" 2].
Proof.
  rewrite (important_counted
             [StartRule 1 1; Property true 1 5; Property false 1 20;
              Property true 2 5; EndRule 1 1] eq_refl).
  vm_compute. reflexivity.
Defined.

(** X16.  The rule [empty-rules] reports at the end of a rule exactly when
    there was no declaration since the last start of a rule, or since the
    start of the parse when no rule has started; it never throws. *)
Theorem empty_rules_reported pre line col :
  trace (pre ++ [EndRule line col]) (solo empty_rules)
  = (fst (trace pre (solo empty_rules))
       ++ (if existsb is_sample_property (since_last is_sample_startrule pre)
           then []
           else [(empty_rules, CallReport "Rule is empty." line col)]),
     None).
Proof.
  rewrite !trace_solo. cbn [fst snd].
  rewrite calls_from_app by apply empty_rules_quiet. cbn [fst snd].
  change (lstart (Rule.init empty_rules)) with 0.
  rewrite empty_rules_state.
  replace (if existsb is_sample_startrule pre then 0 else 0) with 0
    by by destruct (existsb is_sample_startrule pre).
  rewrite Z.add_0_l.
  cbn [calls_from lfire Rule.init empty_rules fst snd].
  rewrite count_where_zero, app_nil_r, map_app.
  by destruct (existsb is_sample_property _).
Qed.
End sample_rules.

Section listener_facts.
Context {event : Type}.

Lemma state_after_app (L : Listener event) (evs1 evs2 : list event) st :
  state_after L (evs1 ++ evs2) st = state_after L evs2 (state_after L evs1 st).
Proof. revert st. induction evs1 as [|e evs1 IH]; intros st; [done|]. apply IH. Qed.

Lemma state_after_cons (L : Listener event) e (evs : list event) st :
  state_after L (e :: evs) st = state_after L evs (fst (fst (lfire L e st))).
Proof. reflexivity. Qed.

Lemma calls_from_cons (L : Listener event) e (evs : list event) st :
  calls_from L (e :: evs) st
  = match snd (lfire L e st) with
    | Some x => (snd (fst (lfire L e st)), Some x)
    | None =>
        (snd (fst (lfire L e st))
           ++ fst (calls_from L evs (fst (fst (lfire L e st)))),
         snd (calls_from L evs (fst (fst (lfire L e st)))))
    end.
Proof. reflexivity. Qed.
End listener_facts.

Section duplicate_facts.
Import Rules.
Variable undefined_read_message : string -> string.
#[local] Abbreviation duplicate_properties :=
  (Rules.duplicate_properties undefined_read_message).

Lemma get_set props n v name :
  get (set props n v) name
  = if String.eqb name "__proto__" then Inherited
    else if String.eqb n name then Own v else get props name.
Proof.
  unfold get, set. destruct (String.eqb name "__proto__") eqn:Ep; [done|].
  destruct (String.eqb n name) eqn:En.
  - apply String.eqb_eq in En as ->. rewrite Ep. by rewrite lookup_insert_eq.
  - apply String.eqb_neq in En.
    destruct (String.eqb n "__proto__"); [done|].
    by rewrite lookup_insert_ne.
Qed.

Lemma duplicate_fire_property text str value line col props lp :
  lfire (Rule.init duplicate_properties) (Property text str value line col)
    {| properties := Some props; lastProperty := lp |}
  = ({| properties := Some (set props (JS.toLowerCase text) value);
        lastProperty := Some (JS.toLowerCase text) |},
     if duplicated (get props (JS.toLowerCase text)) lp (JS.toLowerCase text) value
     then [CallReport ("Duplicate property '" +:+ str +:+ "' found.") line col]
     else [],
     None).
Proof. reflexivity. Qed.

Lemma duplicate_fire_other e st :
  starts_block e = false -> is_property e = false ->
  lfire (Rule.init duplicate_properties) e st = (st, [], None).
Proof. by destruct e. Qed.

Lemma duplicate_fire_start e st :
  starts_block e = true ->
  lfire (Rule.init duplicate_properties) e st = (startRule st, [], None).
Proof. by destruct e. Qed.

Lemma duplicate_body body props lp :
  existsb starts_block body = false ->
  snd (calls_from (Rule.init duplicate_properties) body
         {| properties := Some props; lastProperty := lp |}) = None /\
  exists props',
    state_after (Rule.init duplicate_properties) body
      {| properties := Some props; lastProperty := lp |}
    = {| properties := Some props';
         lastProperty := match last_name body with
                         | Some n => Some n
                         | None => lp
                         end |} /\
    forall name,
      get props' name
      = if String.eqb name "__proto__" then Inherited
        else match last_value body name with
             | Some v => Own v
             | None => get props name
             end.
Proof.
  revert props lp. induction body as [|e body IH]; intros props lp Hb.
  { split; [done|]. exists props. split; [done|]. intros name. simpl.
    unfold get. by destruct (String.eqb name "__proto__"). }
  apply orb_false_iff in Hb as [He Hb]. fold (existsb starts_block body) in Hb.
  rewrite calls_from_cons, state_after_cons.
  destruct (is_property e) eqn:Ep.
  - destruct e; try done. rewrite duplicate_fire_property. cbn [fst snd].
    destruct (IH (set props (JS.toLowerCase text) value)
                (Some (JS.toLowerCase text)) Hb) as (Hq & props' & Hs & Hg).
    split; [done|]. exists props'. split.
    + rewrite Hs. cbn [last_name]. by destruct (last_name body).
    + intros name. rewrite Hg, get_set. cbn [last_value].
      destruct (String.eqb name "__proto__"); [done|].
      by destruct (last_value body name), (String.eqb (JS.toLowerCase text) name).
  - rewrite duplicate_fire_other by done. cbn [fst snd].
    destruct (IH props lp Hb) as (Hq & props' & Hs & Hg).
    split; [done|]. exists props'. split.
    + rewrite Hs. cbn [last_name]. by destruct (last_name body), e.
    + intros name. rewrite Hg. cbn [last_value].
      by destruct (last_value body name), e.
Qed.

Lemma duplicate_last evs st :
  snd (calls_from (Rule.init duplicate_properties) evs st) = None ->
  lastProperty (state_after (Rule.init duplicate_properties) evs st)
  = match last_name evs with
    | Some n => Some n
    | None => lastProperty st
    end.
Proof.
  revert st. induction evs as [|e evs IH]; intros st Hq; [done|].
  rewrite calls_from_cons in Hq. rewrite state_after_cons. cbn [last_name].
  destruct (is_property e) eqn:Ep.
  - destruct e; try done. destruct st as [[props|] lp]; [|done].
    rewrite duplicate_fire_property in Hq |- *. cbn [fst snd] in Hq |- *.
    rewrite IH by done. by destruct (last_name evs).
  - destruct (starts_block e) eqn:Es.
    + rewrite duplicate_fire_start in Hq |- * by done. cbn [fst snd] in Hq |- *.
      rewrite IH by done. by destruct (last_name evs), e.
    + rewrite duplicate_fire_other in Hq |- * by done. cbn [fst snd] in Hq |- *.
      rewrite IH by done. by destruct (last_name evs), e.
Qed.

Lemma duplicate_before_block pre text str value line col post :
  existsb starts_block pre = false ->
  exists x,
    calls_from (Rule.init duplicate_properties)
      (pre ++ Property text str value line col :: post)
      (lstart (Rule.init duplicate_properties))
    = ([], Some x) /\
    ex_name x = "TypeError" /\ ex_line x = None /\ ex_col x = None /\
    (existsb is_property pre = false ->
     ex_message x = undefined_read_message (JS.toLowerCase text)).
Proof.
  intros Hpre. induction pre as [|e' pre IH].
  { eexists. split; [reflexivity|]. done. }
  apply orb_false_iff in Hpre as [He' Hpre].
  fold (existsb starts_block pre) in Hpre.
  change ((e' :: pre) ++ ?e :: post) with (e' :: (pre ++ e :: post)).
  rewrite calls_from_cons.
  destruct (is_property e') eqn:Ep.
  - destruct e'; try done. eexists. split; [reflexivity|]. done.
  - rewrite duplicate_fire_other by done. cbn [fst snd].
    destruct (IH Hpre) as (x & -> & Hn & Hl & Hc & Hm).
    exists x. split_and!; try done.
    intros [_ Hp]%orb_false_iff. by apply Hm.
Qed.
End duplicate_facts.

Section rule_theorems.
Import Rules.
Variable undefined_read_message : string -> string.
#[local] Abbreviation duplicate_properties :=
  (Rules.duplicate_properties undefined_read_message).

(** X17.  The rule [floats] counts the declarations of [float], in any
    case, with a value other than [none], in any case; at the end of the
    style sheet it records the count as the statistic [floats] and adds a
    rollup warning exactly when the count is ten or more. *)
Theorem floats_counted evs :
  existsb is_end evs = false ->
  trace (evs ++ [EndStyleSheet]) (solo floats)
  = ((floats, CallStat "floats" (count_where is_float evs))
       :: (if 10 <=? count_where is_float evs
           then [(floats,
                  CallRollupWarn
                    ("Too many floats (" +:+ pretty (count_where is_float evs)
                     +:+ "), you're probably using them for layout. "
                     +:+ "Consider using a grid system instead."))]
           else []),
     None).
Proof.
  intros Hend. rewrite trace_solo.
  change (lstart (Rule.init floats)) with 0.
  rewrite floats_calls by done. rewrite Z.add_0_l. cbn [fst snd map].
  by destruct (10 <=? _).
Qed.

Lemma floats_counted_witness :
  map snd (fst (trace (replicate 9 (Property "float" "float" "left" 1 1)
                         ++ [Property "FLOAT" "FLOAT" "Right" 2 1;
                             Property "float" "float" "NONE" 3 1;
                             Property "color" "color" "red" 4 1]
                         ++ [EndStyleSheet])
                      (solo floats)))
  = [CallStat "floats" 10;
     CallRollupWarn
       ("Too many floats (10), you're probably using them for layout. "
        +:+ "Consider using a grid system instead.")].
Proof.
  rewrite app_assoc.
  rewrite (floats_counted
             (replicate 9 (Property "float" "float" "left" 1 1)
                ++ [Property "FLOAT" "FLOAT" "Right" 2 1;
                    Property "float" "float" "NONE" 3 1;
                    Property "color" "color" "red" 4 1]) eq_refl).
  vm_compute. reflexivity.
Defined.

(** X18.  The rule [font-sizes] counts the declarations whose name reads
    [font-size] in lower case, records the count as the statistic
    [font-sizes] and adds a rollup warning exactly when the count is ten or
    more. *)
Theorem font_sizes_counted evs :
  existsb is_end evs = false ->
  trace (evs ++ [EndStyleSheet]) (solo font_sizes)
  = ((font_sizes, CallStat "font-sizes" (count_where is_font_size evs))
       :: (if 10 <=? count_where is_font_size evs
           then [(font_sizes,
                  CallRollupWarn
                    ("Too many font-size declarations ("
                     +:+ pretty (count_where is_font_size evs)
                     +:+ "), abstraction needed."))]
           else []),
     None).
Proof.
  intros Hend. rewrite trace_solo.
  change (lstart (Rule.init font_sizes)) with 0.
  rewrite font_sizes_calls by done. rewrite Z.add_0_l. cbn [fst snd map].
  by destruct (10 <=? _).
Qed.

Lemma font_sizes_counted_witness :
  map snd (fst (trace (replicate 9 (Property "font-size" "font-size" "12px" 1 1)
                         ++ [Property "FONT-SIZE" "FONT-SIZE" "12px" 2 1]
                         ++ [EndStyleSheet])
                      (solo font_sizes)))
  = [CallStat "font-sizes" 9].
Proof.
  rewrite app_assoc.
  rewrite (font_sizes_counted
             (replicate 9 (Property "font-size" "font-size" "12px" 1 1)
                ++ [Property "FONT-SIZE" "FONT-SIZE" "12px" 2 1]) eq_refl).
  vm_compute. reflexivity.
Defined.

(** X19.  The rule [font-faces] records no statistic; it adds a rollup
    warning exactly when the style sheet has more than five [@font-face]
    blocks. *)
Theorem font_faces_counted evs :
  existsb is_end evs = false ->
  trace (evs ++ [EndStyleSheet]) (solo font_faces)
  = (if 5 <? count_where is_font_face evs
     then [(font_faces,
            CallRollupWarn
              ("Too many @font-face declarations ("
               +:+ pretty (count_where is_font_face evs) +:+ ")."))]
     else [],
     None).
Proof.
  intros Hend. rewrite trace_solo.
  change (lstart (Rule.init font_faces)) with 0.
  rewrite font_faces_calls by done. rewrite Z.add_0_l. cbn [fst snd].
  by destruct (5 <? _).
Qed.

Lemma font_faces_counted_witness :
  map snd (fst (trace (replicate 5 StartFontFace ++ [EndStyleSheet])
                      (solo font_faces)))
  = [] /\
  map snd (fst (trace (replicate 6 StartFontFace ++ [EndStyleSheet])
                      (solo font_faces)))
  = [CallRollupWarn "Too many @font-face declarations (6)."].
Proof.
  split.
  - rewrite (font_faces_counted (replicate 5 StartFontFace) eq_refl).
    vm_compute. reflexivity.
  - rewrite (font_faces_counted (replicate 6 StartFontFace) eq_refl).
    vm_compute. reflexivity.
Defined.

(** X20.  The rule [rules-count] makes one reporter call: the statistic
    [rule-count] with the number of rules started. *)
Theorem rules_count_counted evs :
  existsb is_end evs = false ->
  trace (evs ++ [EndStyleSheet]) (solo rules_count)
  = ([(rules_count, CallStat "rule-count" (count_where is_startrule evs))], None).
Proof.
  intros Hend. rewrite trace_solo.
  change (lstart (Rule.init rules_count)) with 0.
  rewrite rules_count_calls by done. by rewrite Z.add_0_l.
Qed.

Lemma rules_count_counted_witness :
  map snd (fst (trace ([StartRule 2; Property "color" "color" "red" 1 5;
                        StartFontFace; StartRule 1] ++ [EndStyleSheet])
                      (solo rules_count)))
  = [CallStat "rule-count" 2].
Proof.
  rewrite (rules_count_counted
             [StartRule 2; Property "color" "color" "red" 1 5; StartFontFace;
              StartRule 1] eq_refl).
  vm_compute. reflexivity.
Defined.

(** X21.  The rule [import-ie-limit] counts the [@import] rules behind the
    last [@page] block, or all of them when there is no [@page] block, and
    adds a rollup error exactly when that count is above 31. *)
Theorem import_ie_limit_counted evs :
  existsb is_end evs = false ->
  trace (evs ++ [EndStyleSheet]) (solo import_ie_limit)
  = (if MAX_IMPORT_COUNT <? count_where is_import (since_last is_page evs)
     then [(import_ie_limit,
            CallRollupError
              ("Too many @import rules ("
               +:+ pretty (count_where is_import (since_last is_page evs))
               +:+ "). IE6-9 supports up to 31 import per stylesheet."))]
     else [],
     None).
Proof.
  intros Hend. rewrite trace_solo.
  change (lstart (Rule.init import_ie_limit)) with 0.
  rewrite import_ie_limit_calls by done.
  replace (if existsb is_page evs then 0 else 0) with 0
    by by destruct (existsb is_page evs).
  rewrite Z.add_0_l. cbn [fst snd]. by destruct (_ <? _).
Qed.

Lemma import_ie_limit_counted_witness :
  map snd (fst (trace (replicate 32 Import ++ [EndStyleSheet])
                      (solo import_ie_limit)))
  = [CallRollupError
       "Too many @import rules (32). IE6-9 supports up to 31 import per stylesheet."] /\
  map snd (fst (trace ((replicate 32 Import ++ [StartPage; Import])
                         ++ [EndStyleSheet])
                      (solo import_ie_limit)))
  = [].
Proof.
  split.
  - rewrite (import_ie_limit_counted (replicate 32 Import) eq_refl).
    vm_compute. reflexivity.
  - rewrite (import_ie_limit_counted (replicate 32 Import ++ [StartPage; Import])
               eq_refl).
    vm_compute. reflexivity.
Defined.

(** X22.  [selector-max] reports when the rules of the style sheet have
    more than 4095 selectors in all, [selector-max-approaching] when they
    have 3800 or more, both at line 0 and column 0 with the same message; so
    whenever [selector-max] reports, [selector-max-approaching] does. *)
Theorem selector_limits evs :
  existsb is_end evs = false ->
  trace (evs ++ [EndStyleSheet]) (solo selector_max)
  = (if 4095 <? selector_count evs
     then [(selector_max, CallReport (selectors_message (selector_count evs)) 0 0)]
     else [],
     None) /\
  trace (evs ++ [EndStyleSheet]) (solo selector_max_approaching)
  = (if 3800 <=? selector_count evs
     then [(selector_max_approaching,
            CallReport (selectors_message (selector_count evs)) 0 0)]
     else [],
     None) /\
  (fst (trace (evs ++ [EndStyleSheet]) (solo selector_max)) <> [] ->
   fst (trace (evs ++ [EndStyleSheet]) (solo selector_max_approaching)) <> []).
Proof.
  intros Hend. rewrite !trace_solo.
  change (lstart (Rule.init selector_max)) with 0.
  change (lstart (Rule.init selector_max_approaching)) with 0.
  rewrite selector_max_calls, selector_max_approaching_calls by done.
  rewrite Z.add_0_l. cbn [fst snd].
  split_and!.
  - by destruct (4095 <? _).
  - by destruct (3800 <=? _).
  - destruct (4095 <? selector_count evs) eqn:E1; [|done]. intros _.
    apply Z.ltb_lt in E1.
    destruct (3800 <=? selector_count evs) eqn:E2; [done|].
    apply Z.leb_gt in E2. lia.
Qed.

Lemma selector_limits_witness :
  map snd (fst (trace ([StartRule 3000; StartRule 800] ++ [EndStyleSheet])
                      (solo selector_max)))
  = [] /\
  map snd (fst (trace ([StartRule 3000; StartRule 800] ++ [EndStyleSheet])
                      (solo selector_max_approaching)))
  = [CallReport
       ("You have 3800 selectors. "
        +:+ "Internet Explorer supports a maximum of 4095 selectors per stylesheet. "
        +:+ "Consider refactoring.") 0 0].
Proof.
  destruct (selector_limits [StartRule 3000; StartRule 800] eq_refl)
    as (H1 & H2 & _).
  split.
  - rewrite H1. vm_compute. reflexivity.
  - rewrite H2. vm_compute. reflexivity.
Defined.

(** X23.  The rule [duplicate-properties] decides on a declaration from the
    declarations of the same block and from the name of the declaration
    before it, which may stand in an earlier block: it reports when the
    block has given the name a non-empty value before and either another
    declaration came in between or the value is the same again; for the
    names [constructor] and [__proto__] the value inherited from
    [Object.prototype] counts as given. *)
Theorem duplicate_properties_reported before start body text str value line col :
  snd (trace before (solo duplicate_properties)) = None ->
  starts_block start = true ->
  existsb starts_block body = false ->
  trace ((before ++ start :: body) ++ [Property text str value line col])
        (solo duplicate_properties)
  = (fst (trace (before ++ start :: body) (solo duplicate_properties))
       ++ (if duplicated (seen body (JS.toLowerCase text))
                (last_name (before ++ start :: body))
                (JS.toLowerCase text) value
           then [(duplicate_properties,
                  CallReport ("Duplicate property '" +:+ str +:+ "' found.")
                             line col)]
           else []),
     None).
Proof.
  intros Hbefore Hstart Hbody. rewrite trace_solo in Hbefore. cbn [snd] in Hbefore.
  rewrite !trace_solo. cbn [fst snd].
  set (L := Rule.init duplicate_properties) in *.
  set (st0 := lstart L) in *.
  assert (Hstate : state_after L (before ++ [start]) st0
                   = {| properties := Some ∅;
                        lastProperty := lastProperty (state_after L before st0) |}).
  { rewrite state_after_app. cbn [state_after]. unfold L.
    by rewrite duplicate_fire_start. }
  destruct (duplicate_body undefined_read_message body ∅
              (lastProperty (state_after L before st0)) Hbody)
    as (Hq & props' & Hs & Hg). fold L in Hq, Hs.
  assert (Hquiet : snd (calls_from L (before ++ start :: body) st0) = None).
  { change (start :: body) with ([start] ++ body). rewrite app_assoc.
    rewrite calls_from_app.
    - cbn [snd]. by rewrite Hstate.
    - rewrite calls_from_app by done. cbn [snd calls_from]. unfold L.
      by rewrite duplicate_fire_start. }
  rewrite calls_from_app by done. cbn [fst snd].
  assert (Hafter : state_after L (before ++ start :: body) st0
                   = {| properties := Some props';
                        lastProperty := last_name (before ++ start :: body) |}).
  { change (start :: body) with ([start] ++ body).
    rewrite app_assoc, state_after_app, Hstate, Hs. f_equal.
    rewrite <- app_assoc.
    transitivity (lastProperty (state_after L (before ++ [start] ++ body) st0)).
    - by rewrite app_assoc, state_after_app, Hstate, Hs.
    - unfold L. rewrite duplicate_last by done.
      by destruct (last_name (before ++ [start] ++ body)). }
  rewrite Hafter. rewrite calls_from_cons. unfold L.
  rewrite duplicate_fire_property. cbn [fst snd calls_from].
  rewrite app_nil_r, map_app. f_equal. f_equal.
  rewrite Hg. unfold seen.
  replace (get ∅ (JS.toLowerCase text))
    with (if String.eqb (JS.toLowerCase text) "__proto__" then Inherited
          else if String.eqb (JS.toLowerCase text) "constructor" then Inherited
               else Absent).
  2:{ unfold get. rewrite lookup_empty. done. }
  destruct (String.eqb (JS.toLowerCase text) "__proto__") eqn:Ep.
  - by destruct (duplicated _ _ _ _).
  - destruct (last_value body (JS.toLowerCase text));
      by destruct (duplicated _ _ _ _).
Qed.

(** X24.  A declaration that comes before any block has started makes the
    listener of [duplicate-properties] throw a [TypeError]: no call has
    been made until then and the parse ends there.  The message is the one
    that the engine has for a read of a property of [undefined], for the
    first declaration that the listener meets. *)
Theorem duplicate_properties_before_block pre text str value line col post :
  existsb starts_block pre = false ->
  exists x,
    trace (pre ++ Property text str value line col :: post)
          (solo duplicate_properties)
    = ([], Some x) /\
    ex_name x = "TypeError" /\ ex_line x = None /\ ex_col x = None /\
    (existsb is_property pre = false ->
     ex_message x = undefined_read_message (JS.toLowerCase text)).
Proof.
  intros Hpre. rewrite trace_solo.
  destruct (duplicate_before_block undefined_read_message
              pre text str value line col post Hpre) as (x & -> & H).
  by exists x.
Qed.
End rule_theorems.

(** ** Statistics, disabled rules, and the order of what the worker posts *)

Lemma StronglySorted_filter {A} (R : relation A) (P : A -> bool) (l : list A) :
  StronglySorted R l -> StronglySorted R (List.filter P l).
Proof.
  induction 1 as [|x l Hs IH Hx]; simpl; [constructor|].
  destruct (P x); [|done]. constructor; [done|].
  rewrite Forall_forall in Hx |- *. intros y Hy.
  apply Hx. apply list_elem_of_In. apply list_elem_of_In in Hy.
  apply filter_In in Hy. tauto.
Qed.

Section run_more.
Context {event : Type} (parse : string -> list event * option exn).
Implicit Types (r : Reporter.t event) (m : Message.t event).

(** A call changes the array [stats] as its write does, if it is a call
    of [stat], and not at all otherwise. *)
Lemma perform_stats (h : heap) rule r r' c :
  Reporter.stats r = Reporter.stats r' ->
  Reporter.stats_length r = Reporter.stats_length r' ->
  let r1 := performed h (rule, c) r in
  let r1' := match c with
             | CallStat name value =>
                 match Reporter.stat r' name value with
                 | inr this' => this'
                 | inl _ => r'
                 end
             | _ => r'
             end in
  Reporter.stats r1 = Reporter.stats r1' /\
  Reporter.stats_length r1 = Reporter.stats_length r1'.
Proof.
  intros Hs Hn. unfold performed.
  destruct c; cbn [Reporter.perform fst snd]; try done.
  - unfold Reporter.report. by destruct (_ || _).
  - unfold Reporter.stat. rewrite Hs, Hn.
    destruct (String.eqb name "length");
      [destruct ((0 <=? value) && (value <? 4294967296))
      |destruct (array_index name);
         [|destruct (String.eqb name "__proto__")]];
      done.
Qed.

Lemma perform_all_stats (h : heap) calls r r' :
  Reporter.stats r = Reporter.stats r' ->
  Reporter.stats_length r = Reporter.stats_length r' ->
  Reporter.stats (perform_all h calls r)
  = Reporter.stats
      (fold_left (fun this nv =>
                    match Reporter.stat this (fst nv) (snd nv) with
                    | inr this' => this'
                    | inl _ => this
                    end)
                 (stat_calls calls) r').
Proof.
  revert r r'. induction calls as [|[rule c] calls IH]; intros r r' Hs Hn; [done|].
  cbn [perform_all fold_left]. unfold perform_all in IH.
  destruct (perform_stats h rule r r' c Hs Hn) as [Hs1 Hn1].
  rewrite (IH _ _ Hs1 Hn1). by destruct c.
Qed.

Lemma parse_and_catch_stats (h : heap) text acts r :
  Reporter.stats (CSSLint.parse_and_catch parse h text acts r)
  = Reporter.stats
      (perform_all h (fst (made (fst (trace (fst (parse text)) acts)))) r).
Proof.
  unfold CSSLint.parse_and_catch. destruct (parse text) as [evs ex].
  rewrite fire_all_eq. cbn [fst snd].
  by destruct (or_exn _ (snd (trace evs acts))) as [x|]; [|destruct ex as [x|]].
Qed.

Lemma last_stat_spec name (writes : list (string * Z)) (this : Reporter.t event) :
  plain_name name = true ->
  obj_get name
    (Reporter.stats
       (fold_left (fun this nv =>
                     match Reporter.stat this (fst nv) (snd nv) with
                     | inr this' => this'
                     | inl _ => this
                     end)
                  writes this))
  = match last_stat name writes with
    | Some v => Some v
    | None => obj_get name (Reporter.stats this)
    end.
Proof.
  intros Hp. revert this. induction writes as [|[k v] writes IH]; intros this.
  { done. }
  cbn [fold_left last_stat fst snd]. rewrite IH.
  destruct (last_stat name writes); [done|].
  destruct (String.eqb k name) eqn:E.
  - apply String.eqb_eq in E as ->. rewrite (stat_plain _ _ _ Hp). simpl.
    apply obj_get_set_eq.
  - apply String.eqb_neq in E. by apply stat_keeps.
Qed.

(** X25.  The statistics of a report are what the calls of [stat] that the
    rules made during the parse leave in the array [stats] of a new
    reporter, in order; neither the messages nor an exception that ends
    the parse changes them.  For a name that the array keeps as an object
    does, the report has the value of the last call of [stat] for it. *)
Theorem report_stats_from_calls text ruleset (w : World event) report w' :
  CSSLint.verify parse text ruleset w = (inr report, w') ->
  Report.stats report = stats_of (calls_of_run parse text report w') /\
  (forall name,
     plain_name name = true ->
     obj_get name (Report.stats report)
     = last_stat name (stat_calls (calls_of_run parse text report w'))).
Proof.
  intros Hv.
  destruct (verify_initialised parse _ _ _ _ _ Hv) as (acts & l & Hi & _ & Hc).
  assert (Hst : Report.stats report
                = stats_of (calls_of_run parse text report w')).
  { unfold calls_of_run, stats_of, stats_after, initialised. rewrite Hi.
    revert Hv. rewrite verify_eq, Hc. intros [= <-]. cbn [Report.stats].
    rewrite parse_and_catch_stats.
    by apply perform_all_stats. }
  split; [done|].
  intros name Hp. rewrite Hst. unfold stats_of, stats_after.
  rewrite (last_stat_spec _ _ _ Hp). cbn [Reporter.stats Reporter.new obj_get].
  by destruct (last_stat _ _).
Qed.

Lemma verify_sorted text ruleset (w : World event) report w' :
  CSSLint.verify parse text ruleset w = (inr report, w') ->
  StronglySorted msg_le (Report.messages report).
Proof.
  rewrite verify_eq.
  destruct (CSSLint.collect parse text ruleset w) as [[e|reporter] w0] eqn:Hc;
    [done|].
  intros [= <- <-]. cbn [Report.messages].
  destruct (collect_messages _ _ _ _ _ _ Hc) as (ms & fatal & E & Hms & Hf).
  apply (sort_sorted _ msg_le (Transitive0 := msg_le_trans)).
  rewrite E. by apply emitted_agree.
Qed.

Lemma run_eq code config (w : World event) posted w' :
  Worker.run parse code config w = (inr posted, w') ->
  exists ruleset w0 report,
    CSSLint.verify parse code ruleset w0 = (inr report, w') /\
    posted = map Worker.id_only (List.filter kept (Report.messages report)).
Proof.
  unfold Worker.run. unfold bind at 1.
  destruct config as [o|].
  - unfold bind at 1. unfold alloc at 1. unfold bind at 1, get_world at 1.
    unfold bind at 1, set_objects at 1, ret at 1, ret at 1. cbn [objects].
    unfold bind at 1.
    match goal with |- context [CSSLint.verify parse code ?rs ?w0] =>
      destruct (CSSLint.verify parse code rs w0) as [[e|report] w1] eqn:Hv;
      [done|]; intros [= <- <-]; by exists rs, w0, report end.
  - unfold ret at 1. unfold bind at 1.
    match goal with |- context [CSSLint.verify parse code ?rs ?w0] =>
      destruct (CSSLint.verify parse code rs w0) as [[e|report] w1] eqn:Hv;
      [done|]; intros [= <- <-]; by exists rs, w0, report end.
Qed.

(** X26.  What the action [run] of the worker posts is still in the order
    of the report: no message that is not a rollup stands behind a rollup,
    and the lines of the other messages never decrease. *)
Theorem run_posts_sorted code config (w : World event) posted w' :
  Worker.run parse code config w = (inr posted, w') ->
  (forall i j a b,
      (i < j)%nat -> posted !! i = Some a -> posted !! j = Some b ->
      Message.rollup a = true -> Message.rollup b = true) /\
  (forall i j a b x y,
      (i < j)%nat -> posted !! i = Some a -> posted !! j = Some b ->
      Message.rollup a = false -> Message.rollup b = false ->
      Message.line a = Some x -> Message.line b = Some y -> x <= y).
Proof.
  intros Hr. destruct (run_eq _ _ _ _ _ Hr) as (ruleset & w0 & report & Hv & ->).
  assert (Hsorted : StronglySorted msg_le
            (map Worker.id_only (List.filter kept (Report.messages report)))).
  { eapply StronglySorted_fmap;
      [|apply StronglySorted_filter, (verify_sorted _ _ _ _ _ Hv)].
    intros a b Hab. exact Hab. }
  split.
  - intros i j a b Hij Ha Hb Hra.
    destruct (StronglySorted_lookup _ _ _ _ _ _ Hsorted Hij Ha Hb) as [Hk _].
    unfold rank in Hk. rewrite Hra in Hk.
    destruct (Message.rollup b); [done|].
    destruct (Message.line b); lia.
  - intros i j a b x y Hij Ha Hb Hra Hrb Hx Hy.
    destruct (StronglySorted_lookup _ _ _ _ _ _ Hsorted Hij Ha Hb) as [_ Hl].
    by apply Hl.
Qed.

Lemma perform_all_sources (h : heap) calls r :
  Reporter.lines r = [] ->
  exists ms,
    Reporter.messages (perform_all h calls r) = Reporter.messages r ++ ms /\
    Forall (fun m => exists rule, Message.rule m = RuleObj rule /\
                                  rule ∈ map fst calls) ms.
Proof.
  revert r. induction calls as [|[rule c] calls IH]; intros r Hl.
  { exists []. by rewrite app_nil_r. }
  cbn [perform_all fold_left].
  destruct (perform_origin h rule r c Hl) as (ms1 & E1 & F1).
  destruct (IH (performed h (rule, c) r)) as (ms2 & E2 & F2).
  { destruct (perform_config h rule r c) as (_ & -> & _). done. }
  exists (ms1 ++ ms2). unfold perform_all in E2. rewrite E2, E1, app_assoc.
  split; [done|]. apply Forall_app. split.
  - eapply Forall_impl; [exact F1|]. intros m [_ Hm]. exists rule.
    split; [done|]. by left.
  - eapply Forall_impl; [exact F2|]. intros m (rule' & Hm & Hin). exists rule'.
    split; [done|]. by right.
Qed.

Lemma made_Forall (P : Rule.t event * call -> Prop) calls :
  Forall P calls -> Forall P (fst (made calls)).
Proof.
  induction 1 as [|rc calls Hrc _ IH]; simpl; [constructor|].
  destruct (call_error (snd rc)); [constructor|]. by constructor.
Qed.

Lemma fire_calls_rules (e : event) acts :
  map (fun a : CSSLint.active => projT1 a) (fst (fst (fire_calls e acts)))
  = map (fun a : CSSLint.active => projT1 a) acts /\
  Forall (fun rc => fst rc ∈ map (fun a : CSSLint.active => projT1 a) acts)
         (snd (fst (fire_calls e acts))).
Proof.
  induction acts as [|[rule st] acts [IH1 IH2]]; [by split|].
  cbn [fire_calls]. destruct (lfire (Rule.init rule) e st) as [[st' calls] [x|]].
  - cbn [fst snd map projT1]. split; [done|].
    apply Forall_fmap, Forall_true. intros c. by left.
  - destruct (fire_calls e acts) as [[rest' calls'] ex'].
    cbn [fst snd map projT1] in *. split; [by rewrite IH1|].
    apply Forall_app. split.
    + apply Forall_fmap, Forall_true. intros c. by left.
    + eapply Forall_impl; [exact IH2|]. intros rc Hrc. by right.
Qed.

Lemma trace_rules (evs : list event) acts :
  Forall (fun rc => fst rc ∈ map (fun a : CSSLint.active => projT1 a) acts)
         (fst (trace evs acts)).
Proof.
  revert acts. induction evs as [|e evs IH]; intros acts; [constructor|].
  cbn [trace]. destruct (fire_calls_rules e acts) as [H1 H2].
  destruct (fire_calls e acts) as [[acts' calls] [x|]]; cbn [fst snd] in *.
  - done.
  - specialize (IH acts'). destruct (trace evs acts') as [calls' ex'].
    cbn [fst] in *. apply Forall_app. split; [done|]. by rewrite <- H1.
Qed.

Lemma init_rules_enabled rs (named : gmap string (Rule.t event)) (o : obj Z)
    acts rule :
  CSSLint.init_rules rs named o = inr acts ->
  rule ∈ map (fun a : CSSLint.active => projT1 a) acts ->
  exists id v, obj_get id o = Some v /\ v <> 0 /\
               CSSLint.array_get rs named id = CSSLint.ARule rule.
Proof.
  intros Hi Hin. apply init_keys_inr in Hi as ->.
  apply list_elem_of_fmap in Hin as ([rule' st] & -> & Hin).
  apply list_elem_of_omap in Hin as (id & _ & Hid).
  unfold init_of in Hid.
  destruct (obj_get id o) as [v|] eqn:Ev; [|done].
  exists id, v.
  destruct (CSSLint.array_get rs named id) as [r0| |] eqn:Er.
  - destruct v; try done; injection Hid as ->; by split_and!.
  - by destruct v.
  - by destruct v.
Qed.

Lemma array_get_named rs (named : gmap string (Rule.t event)) id rule :
  array_index id = None ->
  CSSLint.array_get rs named id = CSSLint.ARule rule ->
  named !! id = Some rule.
Proof.
  unfold CSSLint.array_get. intros ->.
  destruct (String.eqb id "length"); [by destruct rs|].
  destruct (String.eqb id "__proto__"); [done|].
  destruct (named !! id); [by intros [= ->]|].
  by destruct (_ || _).
Qed.

(** X27.  With every named property of [rules] holding a rule of that id,
    and a ruleset that enables no key that is the name of an index, a rule
    other than [errors] whose id has the value [0] in the ruleset, or is
    no key of it, has no message in the report. *)
Theorem disabled_rule_silent text l (w : World event) o report w' id :
  objects w !! l = Some o -> NoDup (obj_keys o) -> registry_ok w ->
  no_element_key o = true ->
  CSSLint.verify parse text (Some l) w = (inr report, w') ->
  id <> "errors" ->
  obj_get id o = Some 0 \/ obj_get id o = None ->
  forall m, m ∈ Report.messages report -> rule_id (Message.rule m) <> Some id.
Proof.
  intros Hl Hnd Hok Hkeys Hv Hid Hoff m Hm Hrule.
  assert (Hcontent := report_ruleset_content parse _ _ _ _ _ _ Hl Hnd Hv).
  destruct (verify_registry parse text (Some l) w) as [_ Hb].
  rewrite Hv in Hb. cbn [snd] in Hb.
  destruct (verify_initialised parse _ _ _ _ _ Hv) as (acts & l0 & Hi & _ & Hc).
  rewrite Hcontent in Hi.
  revert Hv. rewrite verify_eq, Hc. intros [= <-].
  cbn [Report.messages] in Hm.
  pose proof (made_Forall _ _ (trace_rules (fst (parse text)) acts)) as Hacts.
  revert Hm. unfold CSSLint.parse_and_catch.
  destruct (parse text) as [evs ex]. rewrite fire_all_eq. cbn [fst snd] in *.
  destruct (perform_all_sources (objects w')
              (fst (made (fst (trace evs acts))))
              (Reporter.new [] l0 ∅ []) eq_refl) as (ms & E & F).
  cbn [Reporter.messages Reporter.new] in E.
  intros Hm.
  assert (Hin : m ∈ ms \/ Message.rule m = PlainObj None).
  { apply list_elem_of_In, (Permutation_in _ (sort_perm _ _)), list_elem_of_In in Hm.
    revert Hm.
    destruct (or_exn _ (snd (trace evs _))) as [x|]; [|destruct ex as [x|]];
      cbn [Reporter.error Reporter.push Reporter.messages]; rewrite E;
      cbn [app]; intros Hm; try by left.
    all: apply elem_of_app in Hm as [Hm|Hm]; [by left|];
      apply list_elem_of_singleton in Hm as ->; by right. }
  destruct Hin as [Hin|Hplain]; [|by rewrite Hplain in Hrule].
  rewrite Forall_forall in F. destruct (F m Hin) as (rule & Hr & Hcalls).
  rewrite Hr in Hrule. cbn [rule_id] in Hrule. injection Hrule as Hrule.
  apply list_elem_of_fmap in Hcalls as (rc & -> & Hrc).
  rewrite Forall_forall in Hacts. specialize (Hacts rc Hrc).
  destruct (init_rules_enabled _ _ _ _ _ Hi Hacts) as (id' & v & Hget & Hv0 & Hreg).
  assert (Hidx : array_index id' = None).
  { rewrite obj_get_set in Hget.
    destruct (String.eqb "errors" id') eqn:Ee.
    - apply String.eqb_eq in Ee as <-. done.
    - apply obj_get_elem in Hget. by eapply no_element_key_spec. }
  apply (array_get_named _ _ _ _ Hidx) in Hreg.
  rewrite Hb in Hreg. apply Hok in Hreg. rewrite Hrule in Hreg. subst id'.
  rewrite obj_get_set_ne in Hget by done.
  destruct Hoff as [Hoff|Hoff]; rewrite Hoff in Hget; congruence.
Qed.
End run_more.

(** ** Sample runs for the further properties *)

(** [margin], [color], [margin] in one block: the second [margin] is
    reported; so is the first declaration of a property named
    [constructor]. *)
Lemma duplicate_properties_reported_witness :
  map snd
    (fst (trace (([Rules.StartRule 1; Rules.Property "color" "color" "red" 1 5]
                    ++ Rules.StartRule 1
                    :: [Rules.Property "margin" "margin" "0" 2 5;
                        Rules.Property "Color" "Color" "blue" 2 15])
                   ++ [Rules.Property "MARGIN" "MARGIN" "1px" 2 30])
                (solo (Rules.duplicate_properties
                         Rules.v8_undefined_read_message))))
  = [CallReport "Duplicate property 'MARGIN' found." 2 30] /\
  map snd
    (fst (trace (([] ++ Rules.StartRule 1 :: [])
                   ++ [Rules.Property "constructor" "constructor" "x" 1 5])
                (solo (Rules.duplicate_properties
                         Rules.v8_undefined_read_message))))
  = [CallReport "Duplicate property 'constructor' found." 1 5].
Proof.
  split.
  - rewrite (duplicate_properties_reported Rules.v8_undefined_read_message
               [Rules.StartRule 1; Rules.Property "color" "color" "red" 1 5]
               (Rules.StartRule 1)
               [Rules.Property "margin" "margin" "0" 2 5;
                Rules.Property "Color" "Color" "blue" 2 15]
               "MARGIN" "MARGIN" "1px" 2 30 eq_refl eq_refl eq_refl).
    vm_compute. reflexivity.
  - rewrite (duplicate_properties_reported Rules.v8_undefined_read_message
               [] (Rules.StartRule 1) []
               "constructor" "constructor" "x" 1 5 eq_refl eq_refl eq_refl).
    vm_compute. reflexivity.
Defined.

(** A declaration in front of the first rule. *)
Lemma duplicate_properties_before_block_witness :
  exists x,
    trace ([Rules.Import; Rules.Other]
             ++ Rules.Property "Color" "Color" "red" 1 1 :: [Rules.StartRule 1])
          (solo (Rules.duplicate_properties Rules.v8_undefined_read_message))
    = ([], Some x) /\
    ex_name x = "TypeError" /\
    ex_message x = "Cannot read properties of undefined (reading 'color')".
Proof.
  destruct (duplicate_properties_before_block Rules.v8_undefined_read_message
              [Rules.Import; Rules.Other]
              "Color" "Color" "red" 1 1 [Rules.StartRule 1] eq_refl)
    as (x & Ht & Hn & _ & _ & Hm).
  exists x. split_and!; [exact Ht|exact Hn|].
  rewrite (Hm eq_refl). vm_compute. reflexivity.
Defined.

(** [important] still reports after [clearRules]; the key [0] of a ruleset
    finds the first rule before [clearRules] and nothing after it. *)
Lemma clearRules_keeps_lookups_witness :
  fst (Worker.getAllRuleIds (snd (CSSLint.clearRules (Sample.world [("important", 1)]))))
  = inr [] /\
  observe (CSSLint.verify (Sample.fires Sample.wrapped_events None) Sample.wrapped
             (Some 0%nat) (snd (CSSLint.clearRules (Sample.world [("important", 1)]))))
  = observe (CSSLint.verify (Sample.fires Sample.wrapped_events None) Sample.wrapped
               (Some 0%nat) (Sample.world [("important", 1)])) /\
  summary (CSSLint.verify (Sample.fires [Sample.StartRule 1 1; Sample.EndRule 1 1] None)
             "a {}" (Some 0%nat) (Sample.world [("0", 1)]))
  = inr ([("warning", Some 1, "Rule is empty.", Some "empty-rules", false)],
         [], [("0", 1); ("errors", 2)], ∅, []) /\
  summary (CSSLint.verify (Sample.fires [Sample.StartRule 1 1; Sample.EndRule 1 1] None)
             "a {}" (Some 0%nat) (snd (CSSLint.clearRules (Sample.world [("0", 1)]))))
  = inr ([], [], [("0", 1); ("errors", 2)], ∅, []).
Proof.
  destruct (clearRules_keeps_lookups (Sample.fires Sample.wrapped_events None)
              Sample.wrapped 0%nat (Sample.world [("important", 1)])
              [("important", 1)] eq_refl)
    as (_ & H1 & _ & _ & H2 & _).
  split_and!; [exact H1|exact (H2 eq_refl)|vm_compute; reflexivity..].
Defined.



(** A text without a comment: the report holds the caller's object. *)
Lemma report_ruleset_alias_witness :
  match fst (CSSLint.verify (Sample.fires [] None) "a {}" (Some 0%nat)
               (Sample.world [("important", 1)])) with
  | inl _ => False
  | inr report => Report.ruleset report = 0%nat
  end.
Proof.
  destruct (CSSLint.verify (Sample.fires [] None) "a {}" (Some 0%nat)
              (Sample.world [("important", 1)])) as [[e|report] w'] eqn:Hv;
    cbn [fst].
  - vm_compute in Hv. discriminate Hv.
  - apply (proj1 (report_ruleset_alias (Sample.fires [] None) "a {}" 0%nat
                    (Sample.world [("important", 1)]) [("important", 1)]
                    report w' eq_refl Hv)).
    vm_compute. reflexivity.
Defined.

(** A parser that throws behind the first declaration. *)
Lemma verify_fatal_error_witness :
  match fst (CSSLint.verify
               (Sample.fires [Sample.Property true 1 5]
                  (Some {| ex_name := "SyntaxError";
                           ex_message := "Unexpected token";
                           ex_line := Some 1; ex_col := Some 9 |}))
               "a { color: red !important; @"
               (Some 0%nat) (Sample.world [("important", 1)])) with
  | inl _ => False
  | inr report =>
      fatal {| ex_name := "SyntaxError"; ex_message := "Unexpected token";
               ex_line := Some 1; ex_col := Some 9 |}
      ∈ Report.messages report
  end.
Proof.
  destruct (CSSLint.verify
              (Sample.fires [Sample.Property true 1 5]
                 (Some {| ex_name := "SyntaxError";
                          ex_message := "Unexpected token";
                          ex_line := Some 1; ex_col := Some 9 |}))
              "a { color: red !important; @"
              (Some 0%nat) (Sample.world [("important", 1)]))
    as [[e|report] w'] eqn:Hv; cbn [fst].
  - vm_compute in Hv. discriminate Hv.
  - apply (proj1 (verify_fatal_error _ _ _ _ _ _ Hv)).
    pose proof Hv as Hc. vm_compute in Hc. injection Hc as <- <-.
    vm_compute. reflexivity.
Defined.

(** The fourteen messages of [Sample.sheet]. *)
Lemma verify_no_evidence_witness :
  match fst (CSSLint.verify (Sample.fires Sample.sheet_events None) Sample.sheet
               (Some 0%nat) (Sample.world Sample.sheet_ruleset)) with
  | inl _ => False
  | inr report =>
      Forall (fun m => Message.evidence m = None) (Report.messages report)
  end.
Proof.
  destruct (CSSLint.verify (Sample.fires Sample.sheet_events None) Sample.sheet
              (Some 0%nat) (Sample.world Sample.sheet_ruleset))
    as [[e|report] w'] eqn:Hv; cbn [fst].
  - vm_compute in Hv. discriminate Hv.
  - exact (verify_no_evidence _ _ _ _ _ _ Hv).
Defined.

(** A value that occurs twice, and one that does not occur. *)
Lemma Util_indexOf_first_witness :
  Util.indexOf ["margin"; "padding"; "margin"] "margin" = 0 /\
  Util.indexOf ["margin"; "padding"] "border" = -1.
Proof.
  split.
  - destruct (proj2 (Util_indexOf_first ["margin"; "padding"; "margin"] "margin"))
      as (k & Hk & _ & Hfirst).
    { by left. }
    destruct k as [|k]; [exact Hk|].
    destruct (Hfirst 0%nat); [lia|done].
  - apply (proj1 (Util_indexOf_first ["margin"; "padding"] "border")).
    intros H. repeat (apply elem_of_cons in H as [H|H]; [discriminate H|]).
    by apply elem_of_nil in H.
Defined.

(** The world of the samples is the one that the four [addRule] statements
    of csslint.js build. *)
Lemma sample_world_registered o :
  addRules [Sample.empty_rules; Sample.errors; Sample.import; Sample.important]
    {| lastIndex := 0; rules := []; rulesById := ∅; objects := [o] |}
  = Some (inr tt, Sample.world o).
Proof. vm_compute. reflexivity. Qed.

(** The four sample rules are registered under their ids. *)
Lemma sample_registry_ok o : registry_ok (Sample.world o).
Proof.
  intros id r H. unfold Sample.world in H. cbn [rulesById] in H.
  repeat (apply lookup_insert_Some in H as [[<- <-]|[_ H]]; [done|]).
  by apply lookup_singleton_Some in H as [<- <-].
Qed.

(** The one statistic of [Sample.sheet]. *)
Lemma report_stats_from_calls_witness :
  match fst (CSSLint.verify (Sample.fires Sample.sheet_events None) Sample.sheet
               (Some 0%nat) (Sample.world Sample.sheet_ruleset)) with
  | inl _ => False
  | inr report => Report.stats report = [("important", 10)]
  end.
Proof.
  destruct (CSSLint.verify (Sample.fires Sample.sheet_events None) Sample.sheet
              (Some 0%nat) (Sample.world Sample.sheet_ruleset))
    as [[e|report] w'] eqn:Hv; cbn [fst].
  - vm_compute in Hv. discriminate Hv.
  - rewrite (proj1 (report_stats_from_calls _ _ _ _ _ _ Hv)).
    pose proof Hv as Hc. vm_compute in Hc. injection Hc as <- <-.
    vm_compute. reflexivity.
Defined.

(** The posted messages of [Sample.sheet], the rollup last. *)
Lemma run_posts_sorted_witness :
  match fst (Worker.run (Sample.fires Sample.sheet_events None) Sample.sheet
               (Some Sample.sheet_ruleset) (Sample.world [])) with
  | inl _ => False
  | inr posted =>
      forall i j a b,
        (i < j)%nat -> posted !! i = Some a -> posted !! j = Some b ->
        Message.rollup a = true -> Message.rollup b = true
  end.
Proof.
  destruct (Worker.run (Sample.fires Sample.sheet_events None) Sample.sheet
              (Some Sample.sheet_ruleset) (Sample.world []))
    as [[e|posted] w'] eqn:Hr; cbn [fst].
  - vm_compute in Hr. discriminate Hr.
  - exact (proj1 (run_posts_sorted _ _ _ _ _ _ Hr)).
Defined.

(** [important] switched off; with the key [0] the ruleset switches the
    first rule on, whose id is no key of it. *)
Lemma disabled_rule_silent_witness :
  match fst (CSSLint.verify (Sample.fires Sample.wrapped_events None)
               Sample.wrapped (Some 0%nat) (Sample.world [("important", 0)])) with
  | inl _ => False
  | inr report =>
      forall m, m ∈ Report.messages report ->
                rule_id (Message.rule m) <> Some "important"
  end /\
  no_element_key [("0", 1)] = false /\
  summary (CSSLint.verify (Sample.fires [Sample.StartRule 1 1; Sample.EndRule 1 1] None)
             "a {}" (Some 0%nat) (Sample.world [("0", 1)]))
  = inr ([("warning", Some 1, "Rule is empty.", Some "empty-rules", false)],
         [], [("0", 1); ("errors", 2)], ∅, []).
Proof.
  split_and!; [|vm_compute; reflexivity..].
  destruct (CSSLint.verify (Sample.fires Sample.wrapped_events None)
              Sample.wrapped (Some 0%nat) (Sample.world [("important", 0)]))
    as [[e|report] w'] eqn:Hv; cbn [fst].
  - vm_compute in Hv. discriminate Hv.
  - apply (disabled_rule_silent (Sample.fires Sample.wrapped_events None)
             Sample.wrapped 0%nat (Sample.world [("important", 0)])
             [("important", 0)] report w' "important" eq_refl
             (NoDup_singleton _) (sample_registry_ok _) eq_refl Hv).
    + discriminate.
    + by left.
Defined.
